(** * LLVMToLLVMIRTranslation: lowering of LLVM-dialect operations to LLVM IR

    A shallow embedding of
    [mlir/lib/Target/LLVMIR/Dialect/LLVMIR/LLVMToLLVMIRTranslation.cpp]
    together with the properties of its enum translators, its loop
    metadata cache and its special-cased emitters. *)

From stdpp Require Import base numbers option list strings gmap finite.

Local Open Scope Z_scope.

#[local] Set Warnings "-register-all".

(** ** Enumerations of the LLVM dialect (namespace [mlir::LLVM])

    The enumerators of each enumeration are the cases of the translator's
    [switch], which has no default case. *)

Module ICmpPredicate.
Inductive t : Set := eq | ne | slt | sle | sgt | sge | ult | ule | ugt | uge.
End ICmpPredicate.

Module FCmpPredicate.
Inductive t : Set :=
| _false | oeq | ogt | oge | olt | ole | one | ord
| ueq | ugt | uge | ult | ule | une | uno | _true.
End FCmpPredicate.

Module AtomicBinOp.
Inductive t : Set :=
| xchg | add | sub | _and | nand | _or | _xor
| max | min | umax | umin | fadd | fsub.
End AtomicBinOp.

Module AtomicOrdering.
Inductive t : Set :=
| not_atomic | unordered | monotonic | acquire | release | acq_rel | seq_cst.
End AtomicOrdering.

(** ** Enumerations of LLVM IR (namespace [llvm]), as far as this file names
    their enumerators *)

Module llvm.

Module CmpInst.
Inductive Predicate : Set :=
| FCMP_FALSE | FCMP_OEQ | FCMP_OGT | FCMP_OGE | FCMP_OLT | FCMP_OLE
| FCMP_ONE | FCMP_ORD | FCMP_UNO | FCMP_UEQ | FCMP_UGT | FCMP_UGE
| FCMP_ULT | FCMP_ULE | FCMP_UNE | FCMP_TRUE
| ICMP_EQ | ICMP_NE | ICMP_UGT | ICMP_UGE | ICMP_ULT | ICMP_ULE
| ICMP_SGT | ICMP_SGE | ICMP_SLT | ICMP_SLE.
End CmpInst.

Module AtomicRMWInst.
Inductive BinOp : Set :=
| Xchg | Add | Sub | And | Nand | Or | Xor
| Max | Min | UMax | UMin | FAdd | FSub.
End AtomicRMWInst.

Module AtomicOrdering.
Inductive t : Set :=
| NotAtomic | Unordered | Monotonic | Acquire | Release
| AcquireRelease | SequentiallyConsistent.
End AtomicOrdering.

End llvm.

(** ** Enum translators *)

(** Convert MLIR integer comparison predicate to LLVM IR comparison
    predicate. *)
Definition getLLVMCmpPredicate (p : ICmpPredicate.t) : llvm.CmpInst.Predicate :=
  match p with
  | ICmpPredicate.eq => llvm.CmpInst.ICMP_EQ
  | ICmpPredicate.ne => llvm.CmpInst.ICMP_NE
  | ICmpPredicate.slt => llvm.CmpInst.ICMP_SLT
  | ICmpPredicate.sle => llvm.CmpInst.ICMP_SLE
  | ICmpPredicate.sgt => llvm.CmpInst.ICMP_SGT
  | ICmpPredicate.sge => llvm.CmpInst.ICMP_SGE
  | ICmpPredicate.ult => llvm.CmpInst.ICMP_ULT
  | ICmpPredicate.ule => llvm.CmpInst.ICMP_ULE
  | ICmpPredicate.ugt => llvm.CmpInst.ICMP_UGT
  | ICmpPredicate.uge => llvm.CmpInst.ICMP_UGE
  end.

(** The overload of [getLLVMCmpPredicate] on floating-point predicates. *)
Definition getLLVMCmpPredicate_F (p : FCmpPredicate.t) : llvm.CmpInst.Predicate :=
  match p with
  | FCmpPredicate._false => llvm.CmpInst.FCMP_FALSE
  | FCmpPredicate.oeq => llvm.CmpInst.FCMP_OEQ
  | FCmpPredicate.ogt => llvm.CmpInst.FCMP_OGT
  | FCmpPredicate.oge => llvm.CmpInst.FCMP_OGE
  | FCmpPredicate.olt => llvm.CmpInst.FCMP_OLT
  | FCmpPredicate.ole => llvm.CmpInst.FCMP_OLE
  | FCmpPredicate.one => llvm.CmpInst.FCMP_ONE
  | FCmpPredicate.ord => llvm.CmpInst.FCMP_ORD
  | FCmpPredicate.ueq => llvm.CmpInst.FCMP_UEQ
  | FCmpPredicate.ugt => llvm.CmpInst.FCMP_UGT
  | FCmpPredicate.uge => llvm.CmpInst.FCMP_UGE
  | FCmpPredicate.ult => llvm.CmpInst.FCMP_ULT
  | FCmpPredicate.ule => llvm.CmpInst.FCMP_ULE
  | FCmpPredicate.une => llvm.CmpInst.FCMP_UNE
  | FCmpPredicate.uno => llvm.CmpInst.FCMP_UNO
  | FCmpPredicate._true => llvm.CmpInst.FCMP_TRUE
  end.

Definition getLLVMAtomicBinOp (op : AtomicBinOp.t) : llvm.AtomicRMWInst.BinOp :=
  match op with
  | AtomicBinOp.xchg => llvm.AtomicRMWInst.Xchg
  | AtomicBinOp.add => llvm.AtomicRMWInst.Add
  | AtomicBinOp.sub => llvm.AtomicRMWInst.Sub
  | AtomicBinOp._and => llvm.AtomicRMWInst.And
  | AtomicBinOp.nand => llvm.AtomicRMWInst.Nand
  | AtomicBinOp._or => llvm.AtomicRMWInst.Or
  | AtomicBinOp._xor => llvm.AtomicRMWInst.Xor
  | AtomicBinOp.max => llvm.AtomicRMWInst.Max
  | AtomicBinOp.min => llvm.AtomicRMWInst.Min
  | AtomicBinOp.umax => llvm.AtomicRMWInst.UMax
  | AtomicBinOp.umin => llvm.AtomicRMWInst.UMin
  | AtomicBinOp.fadd => llvm.AtomicRMWInst.FAdd
  | AtomicBinOp.fsub => llvm.AtomicRMWInst.FSub
  end.

Definition getLLVMAtomicOrdering (ordering : AtomicOrdering.t)
  : llvm.AtomicOrdering.t :=
  match ordering with
  | AtomicOrdering.not_atomic => llvm.AtomicOrdering.NotAtomic
  | AtomicOrdering.unordered => llvm.AtomicOrdering.Unordered
  | AtomicOrdering.monotonic => llvm.AtomicOrdering.Monotonic
  | AtomicOrdering.acquire => llvm.AtomicOrdering.Acquire
  | AtomicOrdering.release => llvm.AtomicOrdering.Release
  | AtomicOrdering.acq_rel => llvm.AtomicOrdering.AcquireRelease
  | AtomicOrdering.seq_cst => llvm.AtomicOrdering.SequentiallyConsistent
  end.

(** The enumerators of each source enumeration, in declaration order. *)
Definition all_ICmpPredicate : list ICmpPredicate.t :=
  [ICmpPredicate.eq; ICmpPredicate.ne; ICmpPredicate.slt; ICmpPredicate.sle;
   ICmpPredicate.sgt; ICmpPredicate.sge; ICmpPredicate.ult; ICmpPredicate.ule;
   ICmpPredicate.ugt; ICmpPredicate.uge].

Definition all_FCmpPredicate : list FCmpPredicate.t :=
  [FCmpPredicate._false; FCmpPredicate.oeq; FCmpPredicate.ogt;
   FCmpPredicate.oge; FCmpPredicate.olt; FCmpPredicate.ole;
   FCmpPredicate.one; FCmpPredicate.ord; FCmpPredicate.ueq;
   FCmpPredicate.ugt; FCmpPredicate.uge; FCmpPredicate.ult;
   FCmpPredicate.ule; FCmpPredicate.une; FCmpPredicate.uno;
   FCmpPredicate._true].

Definition all_AtomicBinOp : list AtomicBinOp.t :=
  [AtomicBinOp.xchg; AtomicBinOp.add; AtomicBinOp.sub; AtomicBinOp._and;
   AtomicBinOp.nand; AtomicBinOp._or; AtomicBinOp._xor; AtomicBinOp.max;
   AtomicBinOp.min; AtomicBinOp.umax; AtomicBinOp.umin; AtomicBinOp.fadd;
   AtomicBinOp.fsub].

Definition all_AtomicOrdering : list AtomicOrdering.t :=
  [AtomicOrdering.not_atomic; AtomicOrdering.unordered;
   AtomicOrdering.monotonic; AtomicOrdering.acquire; AtomicOrdering.release;
   AtomicOrdering.acq_rel; AtomicOrdering.seq_cst].

#[global] Instance ICmpPredicate_eq_dec : EqDecision ICmpPredicate.t.
Proof. solve_decision. Defined.
#[global] Instance FCmpPredicate_eq_dec : EqDecision FCmpPredicate.t.
Proof. solve_decision. Defined.
#[global] Instance AtomicBinOp_eq_dec : EqDecision AtomicBinOp.t.
Proof. solve_decision. Defined.
#[global] Instance AtomicOrdering_eq_dec : EqDecision AtomicOrdering.t.
Proof. solve_decision. Defined.
#[global] Instance Predicate_eq_dec : EqDecision llvm.CmpInst.Predicate.
Proof. solve_decision. Defined.
#[global] Instance BinOp_eq_dec : EqDecision llvm.AtomicRMWInst.BinOp.
Proof. solve_decision. Defined.
#[global] Instance llvm_AtomicOrdering_eq_dec : EqDecision llvm.AtomicOrdering.t.
Proof. solve_decision. Defined.

(** ** Fast-math flags *)

(** Modelled from the spec: the bit enumeration [mlir::LLVM::FastmathFlags],
    a bit-flag set of seven independent flags, one bit per flag. *)
Module FastmathFlags.
Definition nnan : Z := 1.
Definition ninf : Z := 2.
Definition nsz : Z := 4.
Definition arcp : Z := 8.
Definition contract : Z := 16.
Definition afn : Z := 32.
Definition reassoc : Z := 64.
End FastmathFlags.

(** Modelled from the spec: [bitEnumContainsAll bits bit], every bit of
    [bit] is set in [bits]. *)
Definition bitEnumContainsAll (bits bit : Z) : bool :=
  Z.eqb (Z.land bits bit) bit.

(** Modelled from the spec: [llvm::FastMathFlags], an [unsigned] bit set
    with one bit, one setter [Flags = (Flags & ~F) | B * F] and one getter
    per flag. *)
Module llvmFMF.
Definition AllowReassoc : Z := Z.shiftl 1 0.
Definition NoNaNs : Z := Z.shiftl 1 1.
Definition NoInfs : Z := Z.shiftl 1 2.
Definition NoSignedZeros : Z := Z.shiftl 1 3.
Definition AllowReciprocal : Z := Z.shiftl 1 4.
Definition AllowContract : Z := Z.shiftl 1 5.
Definition ApproxFunc : Z := Z.shiftl 1 6.

Definition setFlag (F : Z) (B : bool) (Flags : Z) : Z :=
  Z.lor (Z.land Flags (Z.lnot F)) (Z.b2z B * F).

Definition setNoNaNs := setFlag NoNaNs.
Definition setNoInfs := setFlag NoInfs.
Definition setNoSignedZeros := setFlag NoSignedZeros.
Definition setAllowReciprocal := setFlag AllowReciprocal.
Definition setAllowContract := setFlag AllowContract.
Definition setApproxFunc := setFlag ApproxFunc.
Definition setAllowReassoc := setFlag AllowReassoc.

Definition noNaNs (Flags : Z) : bool := negb (Z.land Flags NoNaNs =? 0).
Definition noInfs (Flags : Z) : bool := negb (Z.land Flags NoInfs =? 0).
Definition noSignedZeros (Flags : Z) : bool :=
  negb (Z.land Flags NoSignedZeros =? 0).
Definition allowReciprocal (Flags : Z) : bool :=
  negb (Z.land Flags AllowReciprocal =? 0).
Definition allowContract (Flags : Z) : bool :=
  negb (Z.land Flags AllowContract =? 0).
Definition approxFunc (Flags : Z) : bool :=
  negb (Z.land Flags ApproxFunc =? 0).
Definition allowReassoc (Flags : Z) : bool :=
  negb (Z.land Flags AllowReassoc =? 0).
End llvmFMF.

(** The handler table of [getFastmathFlags]. *)
Definition handlers : list (Z * (bool -> Z -> Z)) :=
  [ (FastmathFlags.nnan,     llvmFMF.setNoNaNs);
    (FastmathFlags.ninf,     llvmFMF.setNoInfs);
    (FastmathFlags.nsz,      llvmFMF.setNoSignedZeros);
    (FastmathFlags.arcp,     llvmFMF.setAllowReciprocal);
    (FastmathFlags.contract, llvmFMF.setAllowContract);
    (FastmathFlags.afn,      llvmFMF.setApproxFunc);
    (FastmathFlags.reassoc,  llvmFMF.setAllowReassoc) ].

(** [getFastmathFlags], on the value [fmfMlir] of the operation's fast-math
    attribute: start from the empty flag set and run every handler whose
    source bit is present. *)
Definition getFastmathFlags (fmfMlir : Z) : Z :=
  fold_left
    (fun ret it => if bitEnumContainsAll fmfMlir (fst it)
                   then snd it true ret else ret)
    handlers 0.

(** ** Data model: IR-A (the LLVM dialect of MLIR) *)

(** [llvm::APInt]: [U] is the unsigned value of a [BitWidth]-bit integer.
    The accessors below are those of integers of at most 64 bits, which is
    what they are defined on. *)
Record APInt := mkAPInt { BitWidth : N; U : Z }.

(** Modelled from the spec: [APInt::getZExtValue], the value read as an
    unsigned integer. *)
Definition getZExtValue (a : APInt) : Z := U a mod 2 ^ Z.of_N (BitWidth a).

(** Modelled from the spec: [APInt::getSExtValue], the value sign-extended
    from [BitWidth] bits to [int64_t]. *)
Definition getSExtValue (a : APInt) : Z :=
  let w := Z.of_N (BitWidth a) in
  let u := getZExtValue a in
  if (0 <? w) && Z.testbit u (w - 1) then u - 2 ^ w else u.

Definition UINT64_MAX : Z := 2 ^ 64 - 1.

(** Modelled from the spec: [APInt::getLimitedValue], the unsigned value
    limited to what [uint64_t] represents. *)
Definition getLimitedValue (a : APInt) : Z :=
  if UINT64_MAX <? getZExtValue a then UINT64_MAX else getZExtValue a.

(** [static_cast<uint32_t>] of an integer. *)
Definition to_uint32 (v : Z) : Z := v mod 2 ^ 32.

(** Types of the LLVM dialect. *)
Inductive Type_ : Type :=
| LLVMVoidType
| IntegerType (width : N)
| LLVMPointerType (elementType : Type_)
| LLVMFunctionType (result : Type_) (params : list Type_)
| OtherType (name : string).

(** An SSA value of IR-A: its identity and its type. *)
Record Value := mkValue { value_impl : positive; value_type : Type_ }.

(** A block of IR-A, by identity. *)
Definition Block := positive.

Inductive LoopOptionCase : Set :=
| disable_licm | disable_unroll | interleave_count | disable_pipeline
| pipeline_initiation_interval.

Inductive AsmDialect : Set := AD_ATT | AD_Intel.

(** Attributes.  [attr_impl] is the attribute object (the storage an
    [Attribute] handle points to); two handles denote the same attribute
    object when their [attr_impl] agree. *)
Inductive Attribute : Type :=
| mkAttribute (attr_impl : positive) (attr_value : AttrValue)
with AttrValue : Type :=
| UnitAttr
| StringAttr (s : string)
| IntegerAttr (v : APInt)
| ArrayAttr (elts : list Attribute)
| DictionaryAttr (entries : list (string * Attribute))
| FlatSymbolRefAttr (s : string)
| LoopOptionsAttr (options : list (LoopOptionCase * Z))
| DenseIntElementsAttr (elts : list APInt)
| TypeAttr (ty : Type_)
| FastmathFlagsAttr (flags : Z)
| AsmDialectAttr (d : AsmDialect).

Definition attr_impl (a : Attribute) : positive :=
  match a with mkAttribute i _ => i end.
Definition attr_value (a : Attribute) : AttrValue :=
  match a with mkAttribute _ v => v end.

(** The operation classes this file tests for with [isa]/[dyn_cast]; every
    other operation is [OtherOp]. *)
Inductive OperationName : Type :=
| CallOp | InlineAsmOp | InvokeOp | LandingpadOp | BrOp | CondBrOp
| SwitchOp | AddressOfOp | CallIntrinsicOp
| OtherOp (name : string).

Record Operation := mkOperation {
  op_impl : positive;
  op_name : OperationName;
  op_operands : list Value;
  op_operandSegmentSizes : list nat;
  op_results : list Value;
  op_attrs : list (string * Attribute);
  op_successors : list Block
}.

(** Lookup in an attribute dictionary by name. *)
Fixpoint getNamed (entries : list (string * Attribute)) (name : string)
  : option Attribute :=
  match entries with
  | [] => None
  | (n, a) :: rest => if String.eqb n name then Some a else getNamed rest name
  end.

Definition getAttr (op : Operation) (name : string) : option Attribute :=
  getNamed (op_attrs op) name.

Definition getNumResults (op : Operation) : nat := length (op_results op).
Definition getNumOperands (op : Operation) : nat := length (op_operands op).

(** [op.getAttrOfType<FlatSymbolRefAttr>(name)]. *)
Definition getAttrOfType_FlatSymbolRefAttr (op : Operation) (name : string)
  : option string :=
  match getAttr op name with
  | Some (mkAttribute _ (FlatSymbolRefAttr s)) => Some s
  | _ => None
  end.

(** A symbol of the enclosing module, as [AddressOfOp] resolves it. *)
Inductive SymbolOp : Type :=
| GlobalOp (name : string)
| LLVMFuncOp (name : string).

(** ** Data model: IR-B (LLVM IR) *)

Inductive llvm_Type : Type :=
| VoidTy
| IntegerTy (NumBits : N)
| PointerTy
| FunctionTy (ret : llvm_Type) (params : list llvm_Type) (isVarArg : bool)
| StructTy (name : string).

Definition isVoidTy (t : llvm_Type) : bool :=
  match t with VoidTy => true | _ => false end.

Definition llvm_BasicBlock := positive.

(** Values of LLVM IR.  [InstructionValue] is the value an instruction
    defines, named by the instruction's address. *)
Inductive llvm_Value : Type :=
| ConstantInt (ty : llvm_Type) (v : Z)
| ConstantData (ty : llvm_Type) (name : string)
| GlobalVariable (name : string)
| Function (name : string) (fty : llvm_Type)
| IntrinsicDeclaration (id : N) (tys : list llvm_Type) (fty : llvm_Type)
| InlineAsm (fty : llvm_Type) (asmString constraints : string)
            (hasSideEffects isAlignStack : bool) (dialect : AsmDialect)
| Argument (idx : nat) (ty : llvm_Type)
| InstructionValue (addr : positive) (ty : llvm_Type).

(** [isa<llvm::Constant>]. *)
Definition isConstant (v : llvm_Value) : bool :=
  match v with
  | ConstantInt _ _ | ConstantData _ _ | GlobalVariable _ | Function _ _
  | IntrinsicDeclaration _ _ _ => true
  | InlineAsm _ _ _ _ _ _ | Argument _ _ | InstructionValue _ _ => false
  end.

(** Metadata.  A uniqued node is its operand tuple ([MDTuple]); a node with
    an identity of its own (distinct or self-referential) is named by its
    address ([MDNodeRef]); [MDTemporary] is a placeholder node. *)
Inductive Metadata : Type :=
| MDString (s : string)
| ConstantAsMetadata (c : llvm_Value)
| MDTuple (ops : list Metadata)
| MDTemporary (addr : positive)
| MDNodeRef (addr : positive).

Definition isTemporary (m : Metadata) : bool :=
  match m with MDTemporary _ => true | _ => false end.

Inductive InstKind : Type :=
| CallInst (fty : llvm_Type) (callee : llvm_Value) (args : list llvm_Value)
           (attributes : list (nat * llvm_Type))
| InvokeInst (fty : llvm_Type) (callee : llvm_Value)
             (normalDest unwindDest : llvm_BasicBlock) (args : list llvm_Value)
| LandingPadInst (ty : llvm_Type) (numReservedClauses : nat) (cleanup : bool)
                 (clauses : list llvm_Value)
| BranchInst (dest : llvm_BasicBlock)
| CondBranchInst (cond : llvm_Value) (ifTrue ifFalse : llvm_BasicBlock)
| SwitchInst (v : llvm_Value) (defaultDest : llvm_BasicBlock) (numCases : nat)
             (cases : list (llvm_Value * llvm_BasicBlock)).

(** An instruction and its metadata attachments, by metadata kind. *)
Record Instruction := mkInstruction {
  inst_kind : InstKind;
  inst_metadata : list (string * Metadata)
}.

Inductive LogicalResult : Set := success | failure.

(** [success(bool)]. *)
Definition success_if (b : bool) : LogicalResult :=
  if b then success else failure.

(** ** Translation state *)

(** The maps of [LLVM::ModuleTranslation] this file reads and writes.  IR-A
    values, blocks and operations are keyed by identity, functions and
    globals by symbol name, loop attributes by attribute object. *)
Record ModuleTranslation := mkModuleTranslation {
  valueMapping : gmap positive llvm_Value;
  blockMapping : gmap positive llvm_BasicBlock;
  branchMapping : gmap positive positive;
  functionMapping : gmap string llvm_Value;
  globalsMapping : gmap string llvm_Value;
  loopOptionsMetadataMapping : gmap positive Metadata
}.

(** The [llvm::IRBuilder] and the module it inserts into: the scoped
    fast-math flags, the instructions of the insertion block in emission
    order, the instructions and the address-identified metadata nodes by
    address, and the next unused address. *)
Record IRBuilder := mkIRBuilder {
  FMF : Z;
  insertBlock : list positive;
  instructions : gmap positive Instruction;
  mdNodes : gmap positive (list Metadata);
  nextAddr : positive
}.

Record State := mkState {
  moduleTranslation : ModuleTranslation;
  builder : IRBuilder;
  diagnostics : list (positive * string)
}.

(** The result of running a piece of the translation: it returns a value
    and a new state, or it aborts (a failed assertion or cast, an
    [llvm_unreachable], a null or unmapped entity dereferenced). *)
Inductive Outcome (A : Type) : Type :=
| Ok (a : A) (s : State)
| Abort (why : string).
Arguments Ok {A} a s.
Arguments Abort {A} why.

Definition M (A : Type) : Type := State -> Outcome A.

Definition ret {A} (a : A) : M A := fun s => Ok a s.

Definition bind {A B} (m : M A) (k : A -> M B) : M B :=
  fun s => match m s with
           | Ok a s' => k a s'
           | Abort why => Abort why
           end.

Definition abort {A} (why : string) : M A := fun _ => Abort why.

Definition get : M State := fun s => Ok s s.
Definition put (s : State) : M unit := fun _ => Ok tt s.

Declare Scope translation_scope.
Delimit Scope translation_scope with M.
Notation "x <- c1 ;; c2" := (bind c1 (fun x => c2))
  (at level 100, c1 at next level, right associativity) : translation_scope.
Notation "c1 ;;; c2" := (bind c1 (fun _ => c2))
  (at level 100, right associativity) : translation_scope.
Local Open Scope translation_scope.

(** What a run returns, and the state it ends in, when it does not abort. *)
Definition returned {A} (o : Outcome A) : option A :=
  match o with Ok a _ => Some a | Abort _ => None end.

Definition finalState {A} (o : Outcome A) : option State :=
  match o with Ok _ s => Some s | Abort _ => None end.

(** A pointer that must not be null. *)
Definition nonnull {A} (why : string) (o : option A) : M A :=
  match o with Some a => ret a | None => abort why end.

(** Run [f] on every element of [l], in order. *)
Fixpoint forM {A B} (f : A -> M B) (l : list A) : M (list B) :=
  match l with
  | [] => ret []
  | x :: xs => y <- f x ;; ys <- forM f xs ;; ret (y :: ys)
  end.

Fixpoint forM_ {A} (f : A -> M unit) (l : list A) : M unit :=
  match l with
  | [] => ret tt
  | x :: xs => f x ;;; forM_ f xs
  end.

Definition when (b : bool) (m : M unit) : M unit := if b then m else ret tt.

(** *** The interface of [ModuleTranslation] *)

Definition with_mt (f : ModuleTranslation -> ModuleTranslation) : M unit :=
  fun s => Ok tt (mkState (f (moduleTranslation s)) (builder s) (diagnostics s)).

Definition with_builder (f : IRBuilder -> IRBuilder) : M unit :=
  fun s => Ok tt (mkState (moduleTranslation s) (f (builder s)) (diagnostics s)).

(** Modelled from the spec: [lookupValue] resolves an already-mapped value;
    calling it on an unmapped value is undefined. *)
Definition lookupValue (v : Value) : M llvm_Value :=
  s <- get ;;
  nonnull "unmapped value" (valueMapping (moduleTranslation s) !! value_impl v).

Definition lookupValues (vs : list Value) : M (list llvm_Value) :=
  forM lookupValue vs.

(** Modelled from the spec: [mapValue] registers a new value mapping and
    must be called at most once per value. *)
Definition mapValue (v : Value) (l : llvm_Value) : M unit :=
  s <- get ;;
  match valueMapping (moduleTranslation s) !! value_impl v with
  | Some _ => abort "attempting to map a value that is already mapped"
  | None =>
      with_mt (fun mt =>
        mkModuleTranslation (<[value_impl v := l]> (valueMapping mt))
          (blockMapping mt) (branchMapping mt) (functionMapping mt)
          (globalsMapping mt) (loopOptionsMetadataMapping mt))
  end.

(** Modelled from the spec: [lookupBlock] resolves an already-mapped
    block. *)
Definition lookupBlock (b : Block) : M llvm_BasicBlock :=
  s <- get ;;
  nonnull "unmapped block" (blockMapping (moduleTranslation s) !! b).

(** Modelled from the spec: [mapBranch] records the terminator emitted for an
    operation; entries are created once and never overwritten. *)
Definition mapBranch (op : Operation) (inst : positive) : M unit :=
  s <- get ;;
  match branchMapping (moduleTranslation s) !! op_impl op with
  | Some _ => abort "attempting to map a branch that is already mapped"
  | None =>
      with_mt (fun mt =>
        mkModuleTranslation (valueMapping mt) (blockMapping mt)
          (<[op_impl op := inst]> (branchMapping mt)) (functionMapping mt)
          (globalsMapping mt) (loopOptionsMetadataMapping mt))
  end.

(** Modelled from the spec: [lookupFunction] resolves a function by name. *)
Definition lookupFunction (name : string) : M llvm_Value :=
  s <- get ;;
  nonnull "unknown function" (functionMapping (moduleTranslation s) !! name).

(** Modelled from the spec: [lookupGlobal] resolves an already-lowered
    global. *)
Definition lookupGlobal (name : string) : M llvm_Value :=
  s <- get ;;
  nonnull "unknown global" (globalsMapping (moduleTranslation s) !! name).

(** Modelled from the spec: [lookupLoopOptionsMetadata] reads the metadata
    cache, keyed by attribute object; the result is null when the attribute
    has no entry. *)
Definition lookupLoopOptionsMetadata (attr : Attribute) : M (option Metadata) :=
  s <- get ;;
  ret (loopOptionsMetadataMapping (moduleTranslation s) !! attr_impl attr).

(** Modelled from the spec: [mapLoopOptionsMetadata] adds an entry to the
    metadata cache, which is append-only: an entry, once made, is never
    overwritten. *)
Definition mapLoopOptionsMetadata (attr : Attribute) (node : Metadata) : M unit :=
  with_mt (fun mt =>
    mkModuleTranslation (valueMapping mt) (blockMapping mt) (branchMapping mt)
      (functionMapping mt) (globalsMapping mt)
      (match loopOptionsMetadataMapping mt !! attr_impl attr with
       | Some _ => loopOptionsMetadataMapping mt
       | None => <[attr_impl attr := node]> (loopOptionsMetadataMapping mt)
       end)).

(** Modelled from the spec: [op.emitOpError(msg)] reports an error
    attributed to [op]; the diagnostic converts to [failure]. *)
Definition emitOpError (op : Operation) (msg : string) : M LogicalResult :=
  fun s => Ok failure
    (mkState (moduleTranslation s) (builder s)
             (diagnostics s ++ [(op_impl op, msg)])).

(** *** The interface of the instruction builder and of LLVM IR

    Modelled from the spec: the builder appends the instructions it
    creates to the current block; instructions and address-identified
    metadata nodes live at addresses, which are never reused. *)

(** Take the next unused address. *)
Definition allocate : M positive :=
  fun s =>
    let b := builder s in
    Ok (nextAddr b)
       (mkState (moduleTranslation s)
          (mkIRBuilder (FMF b) (insertBlock b) (instructions b) (mdNodes b)
                       (Pos.succ (nextAddr b)))
          (diagnostics s)).

(** Create an instruction and append it to the insertion block. *)
Definition Insert (k : InstKind) (md : list (string * Metadata)) : M positive :=
  a <- allocate ;;
  with_builder (fun b =>
    mkIRBuilder (FMF b) (insertBlock b ++ [a])
      (<[a := mkInstruction k md]> (instructions b)) (mdNodes b) (nextAddr b)) ;;;
  ret a.

(** Change an instruction in place. *)
Definition updateInstruction (a : positive)
    (f : Instruction -> option Instruction) : M unit :=
  s <- get ;;
  i <- nonnull "no such instruction" (instructions (builder s) !! a) ;;
  i' <- nonnull "wrong instruction class" (f i) ;;
  with_builder (fun b =>
    mkIRBuilder (FMF b) (insertBlock b) (<[a := i']> (instructions b))
                (mdNodes b) (nextAddr b)).

Definition setFastMathFlags (flags : Z) : M unit :=
  with_builder (fun b =>
    mkIRBuilder flags (insertBlock b) (instructions b) (mdNodes b) (nextAddr b)).

Definition getFastMathFlags : M Z := s <- get ;; ret (FMF (builder s)).

(** [cast<llvm::FunctionType>(t)->getReturnType()]. *)
Definition getReturnType (fty : llvm_Type) : M llvm_Type :=
  match fty with
  | FunctionTy r _ _ => ret r
  | _ => abort "cast<FunctionType>"
  end.

(** The function type of a callee given as a function, a declaration or an
    inline-assembly value. *)
Definition getFunctionType (callee : llvm_Value) : M llvm_Type :=
  match callee with
  | Function _ fty | IntrinsicDeclaration _ _ fty
  | InlineAsm fty _ _ _ _ _ => ret fty
  | _ => abort "callee has no function type"
  end.

(** Modelled from the spec: [builder.CreateCall(fty, callee, args)]; the
    call instruction is also the value it returns, of the callee type's
    return type. *)
Definition CreateCall (fty : llvm_Type) (callee : llvm_Value)
    (args : list llvm_Value) : M llvm_Value :=
  rt <- getReturnType fty ;;
  a <- Insert (CallInst fty callee args []) [] ;;
  ret (InstructionValue a rt).

(** Modelled from the spec: [builder.CreateCall(callee, args)]. *)
Definition CreateCallFn (callee : llvm_Value) (args : list llvm_Value)
  : M llvm_Value :=
  fty <- getFunctionType callee ;;
  CreateCall fty callee args.

Definition CreateInvoke (fty : llvm_Type) (callee : llvm_Value)
    (normalDest unwindDest : llvm_BasicBlock) (args : list llvm_Value)
  : M llvm_Value :=
  rt <- getReturnType fty ;;
  a <- Insert (InvokeInst fty callee normalDest unwindDest args) [] ;;
  ret (InstructionValue a rt).

Definition CreateInvokeFn (callee : llvm_Value)
    (normalDest unwindDest : llvm_BasicBlock) (args : list llvm_Value)
  : M llvm_Value :=
  fty <- getFunctionType callee ;;
  CreateInvoke fty callee normalDest unwindDest args.

Definition CreateLandingPad (ty : llvm_Type) (numClauses : nat) : M positive :=
  Insert (LandingPadInst ty numClauses false []) [].

Definition setCleanup (lpi : positive) (v : bool) : M unit :=
  updateInstruction lpi (fun i =>
    match inst_kind i with
    | LandingPadInst ty n _ cl =>
        Some (mkInstruction (LandingPadInst ty n v cl) (inst_metadata i))
    | _ => None
    end).

(** Modelled from the spec: [lpi->addClause(c)] appends the clause to the
    clause list. *)
Definition addClause (lpi : positive) (c : llvm_Value) : M unit :=
  updateInstruction lpi (fun i =>
    match inst_kind i with
    | LandingPadInst ty n cu cl =>
        Some (mkInstruction (LandingPadInst ty n cu (cl ++ [c]))
                            (inst_metadata i))
    | _ => None
    end).

Definition CreateBr (dest : llvm_BasicBlock) : M positive :=
  Insert (BranchInst dest) [].

(** The [!prof] attachment a branch or switch is created with. *)
Definition profMetadata (branchWeights : option Metadata)
  : list (string * Metadata) :=
  match branchWeights with
  | Some w => [("prof"%string, w)]
  | None => []
  end.

Definition CreateCondBr (cond : llvm_Value) (ifTrue ifFalse : llvm_BasicBlock)
    (branchWeights : option Metadata) : M positive :=
  Insert (CondBranchInst cond ifTrue ifFalse) (profMetadata branchWeights).

Definition CreateSwitch (v : llvm_Value) (dest : llvm_BasicBlock)
    (numCases : nat) (branchWeights : option Metadata) : M positive :=
  Insert (SwitchInst v dest numCases []) (profMetadata branchWeights).

(** Modelled from the spec: [switchInst->addCase(onVal, dest)] appends the
    case to the case list, whatever the cases already there. *)
Definition addCase (sw : positive) (onVal : llvm_Value) (dest : llvm_BasicBlock)
  : M unit :=
  updateInstruction sw (fun i =>
    match inst_kind i with
    | SwitchInst v d n cases =>
        Some (mkInstruction (SwitchInst v d n (cases ++ [(onVal, dest)]))
                            (inst_metadata i))
    | _ => None
    end).

(** Modelled from the spec: [inst->setAttributes(attrList)] on a call. *)
Definition setAttributes (call : positive) (attrList : list (nat * llvm_Type))
  : M unit :=
  updateInstruction call (fun i =>
    match inst_kind i with
    | CallInst fty callee args _ =>
        Some (mkInstruction (CallInst fty callee args attrList)
                            (inst_metadata i))
    | _ => None
    end).

(** Replace the attachment of kind [kind], or add it. *)
Fixpoint setKind (kind : string) (node : Metadata)
    (md : list (string * Metadata)) : list (string * Metadata) :=
  match md with
  | [] => [(kind, node)]
  | (k, n) :: rest =>
      if String.eqb k kind then (kind, node) :: rest
      else (k, n) :: setKind kind node rest
  end.

(** Modelled from the spec: [inst.setMetadata(kind, node)] replaces the
    attachment of that kind, or adds it. *)
Definition setMetadata (inst : positive) (kind : string) (node : Metadata)
  : M unit :=
  updateInstruction inst (fun i =>
    Some (mkInstruction (inst_kind i) (setKind kind node (inst_metadata i)))).

Fixpoint getKind (kind : string) (md : list (string * Metadata))
  : option Metadata :=
  match md with
  | [] => None
  | (k, n) :: rest => if String.eqb k kind then Some n else getKind kind rest
  end.

(** Modelled from the spec: [llvm::ConstantInt::get(type, value)]; the value
    is truncated to the width of the type. *)
Definition ConstantInt_get (ty : llvm_Type) (value : Z) : M llvm_Value :=
  match ty with
  | IntegerTy n => ret (ConstantInt ty (value mod 2 ^ Z.of_N n))
  | _ => abort "cast<IntegerType>"
  end.

(** Modelled from the spec: [llvm::ConstantInt::getBool(ctx, value)] on an
    integer argument, which converts to [bool] first. *)
Definition ConstantInt_getBool (value : Z) : llvm_Value :=
  ConstantInt (IntegerTy 1) (if value =? 0 then 0 else 1).

Definition i1Type : llvm_Type := IntegerTy 1.
Definition i8Type : llvm_Type := IntegerTy 8.
Definition i32Type : llvm_Type := IntegerTy 32.

(** Modelled from the spec: [llvm::MDNode::getTemporary(ctx, None)], a
    placeholder node at an address of its own. *)
Definition getTemporary : M Metadata :=
  a <- allocate ;; ret (MDTemporary a).

(** Modelled from the spec: [llvm::MDNode::get(ctx, ops)], the uniqued node
    with these operands. A node one of whose operands is a placeholder is a
    new node, since the placeholder is; it is named by its address so that
    its operands can be replaced. *)
Definition MDNode_get (ops : list Metadata) : M Metadata :=
  if existsb isTemporary ops then
    a <- allocate ;;
    with_builder (fun b =>
      mkIRBuilder (FMF b) (insertBlock b) (instructions b)
                  (<[a := ops]> (mdNodes b)) (nextAddr b)) ;;;
    ret (MDNodeRef a)
  else ret (MDTuple ops).

(** Modelled from the spec: [node->replaceOperandWith(i, new)]. *)
Definition replaceOperandWith (node : Metadata) (i : nat) (new : Metadata)
  : M unit :=
  match node with
  | MDNodeRef a =>
      s <- get ;;
      ops <- nonnull "no such node" (mdNodes (builder s) !! a) ;;
      with_builder (fun b =>
        mkIRBuilder (FMF b) (insertBlock b) (instructions b)
                    (<[a := <[i := new]> ops]> (mdNodes b)) (nextAddr b))
  | _ => abort "replaceOperandWith on a uniqued node"
  end.

(** Modelled from the spec: [llvm::MDBuilder::createBranchWeights], the
    branch-weight metadata encoding the weights in the order given, each
    as an unsigned 32-bit constant. *)
Definition createBranchWeights (weights : list Z) : Metadata :=
  MDTuple (MDString "branch_weights"
           :: map (fun w => ConstantAsMetadata (ConstantInt i32Type w)) weights).

(** ** What the translation takes from its surroundings *)

Inductive MatchIntrinsicTypesResult : Set :=
| MatchIntrinsicTypes_Match
| MatchIntrinsicTypes_NoMatchRet
| MatchIntrinsicTypes_NoMatchArg.

(** The type converter, the names the dialect gives its attributes, the
    access-group and symbol tables of the module being translated, the
    intrinsic tables of LLVM, and the generated conversions included at the
    head of [convertOperationImpl], which return a result when one of them
    matches the operation; and whether the translation is built with its
    assertions, that is without [NDEBUG]. *)
Record Env := mkEnv {
  assertionsEnabled : bool;
  convertType : Type_ -> llvm_Type;
  getLoopAttrName : string;
  getParallelAccessAttrName : string;
  getLoopOptionsAttrName : string;
  getElementTypeAttrName : string;
  getAccessGroup : Operation -> string -> Metadata;
  symbolTable : gmap string SymbolOp;
  lookupIntrinsicID : string -> N;
  isOverloaded : N -> bool;
  IITDescriptor : Type;
  getIntrinsicInfoTableEntries : N -> list IITDescriptor;
  matchIntrinsicSignature :
    llvm_Type -> list IITDescriptor ->
    MatchIntrinsicTypesResult * list llvm_Type;
  getIntrinsicType : N -> list llvm_Type -> llvm_Type;
  generatedConversions : Operation -> M (option LogicalResult)
}.

(** [assert(cond)]: it stops a build with assertions when the condition
    is false, and is nothing in a build without them. *)
Definition assert_ (E : Env) (cond : bool) (why : string) : M unit :=
  if assertionsEnabled E then (if cond then ret tt else abort why)
  else ret tt.

(** Modelled from the spec: [llvm::Intrinsic::getDeclaration(module, id,
    tys)], the declaration of the intrinsic for these type arguments. *)
Definition getDeclaration (E : Env) (id : N) (tys : list llvm_Type)
  : llvm_Value :=
  IntrinsicDeclaration id tys (getIntrinsicType E id tys).

(** ** Attribute casts *)

Definition cast_DictionaryAttr (a : Attribute)
  : M (list (string * Attribute)) :=
  match attr_value a with
  | DictionaryAttr d => ret d
  | _ => abort "cast<DictionaryAttr>"
  end.

Definition cast_ArrayAttr (a : Attribute) : M (list Attribute) :=
  match attr_value a with
  | ArrayAttr l => ret l
  | _ => abort "cast<ArrayAttr>"
  end.

Definition cast_StringAttr (a : Attribute) : M string :=
  match attr_value a with
  | StringAttr s => ret s
  | _ => abort "cast<StringAttr>"
  end.

Definition cast_IntegerAttr (a : Attribute) : M APInt :=
  match attr_value a with
  | IntegerAttr v => ret v
  | _ => abort "cast<IntegerAttr>"
  end.

Definition cast_SymbolRefAttr (a : Attribute) : M string :=
  match attr_value a with
  | FlatSymbolRefAttr s => ret s
  | _ => abort "cast<SymbolRefAttr>"
  end.

Definition cast_TypeAttr (a : Attribute) : M Type_ :=
  match attr_value a with
  | TypeAttr t => ret t
  | _ => abort "cast<TypeAttr>"
  end.

Definition cast_DenseIntElementsAttr (a : Attribute) : M (list APInt) :=
  match attr_value a with
  | DenseIntElementsAttr l => ret l
  | _ => abort "cast<DenseIntElementsAttr>"
  end.

(** [IntegerAttr::getInt]. *)
Definition getInt (v : APInt) : Z := getSExtValue v.

(** [array[i]] on an [ArrayRef]. *)
Definition at_index {A} (l : list A) (i : nat) : M A :=
  nonnull "index out of range" (l !! i).

(** An attribute handle is non-null. *)
Definition isPresent {A} (o : option A) : bool :=
  match o with Some _ => true | None => false end.

(** [if (!a) a = b]. *)
Definition orElse {A} (a b : option A) : option A :=
  match a with Some _ => a | None => b end.

(** ** Loop metadata *)

(** Returns an LLVM metadata node corresponding to a loop option.  This
    metadata is attached to an llvm.loop node. *)
Definition getLoopOptionMetadata (option : LoopOptionCase) (value : Z)
  : M Metadata :=
  p <- match option with
       | disable_licm =>
           ret ("llvm.licm.disable"%string, ConstantInt_getBool value)
       | disable_unroll =>
           ret ("llvm.loop.unroll.disable"%string, ConstantInt_getBool value)
       | interleave_count =>
           c <- ConstantInt_get (IntegerTy 32) value ;;
           ret ("llvm.loop.interleave.count"%string, c)
       | disable_pipeline =>
           ret ("llvm.loop.pipeline.disable"%string, ConstantInt_getBool value)
       | pipeline_initiation_interval =>
           c <- ConstantInt_get (IntegerTy 32) value ;;
           ret ("llvm.loop.pipeline.initiationinterval"%string, c)
       end ;;
  MDNode_get [MDString (fst p); ConstantAsMetadata (snd p)].

(** The alternate attribute of [setLoopMetadata]: the attributes of the
    Xilinx extensions, probed one after the other. *)
Definition getAltAttr (opInst : Operation) : option Attribute :=
  let altAttr := getAttr opInst "llvm.loop.name" in
  let altAttr := orElse altAttr (getAttr opInst "llvm.loop.vectorize.width") in
  let altAttr := orElse altAttr (getAttr opInst "llvm.loop.interleave.count") in
  let altAttr := orElse altAttr (getAttr opInst "llvm.loop.unroll.count") in
  let altAttr := orElse altAttr (getAttr opInst "llvm.loop.unroll.withoutcheck") in
  let altAttr := orElse altAttr (getAttr opInst "llvm.loop.vectorize.enable") in
  let altAttr := orElse altAttr (getAttr opInst "llvm.loop.distribute.enable") in
  let altAttr := orElse altAttr (getAttr opInst "llvm.loop.flatten.enable") in
  let altAttr := orElse altAttr (getAttr opInst "llvm.loop.dataflow.enable") in
  let altAttr := orElse altAttr (getAttr opInst "llvm.loop.pipeline.enable") in
  let altAttr := orElse altAttr (getAttr opInst "llvm.loop.latency") in
  let altAttr := orElse altAttr (getAttr opInst "llvm.loop.tripcount") in
  altAttr.

(** The part of [setLoopMetadata] that reads the dictionary of the primary
    loop attribute: the parallel access groups, then the loop options. *)
Definition pushLoopAttr (E : Env) (opInst : Operation) (attr : Attribute)
    (loopOptions : list Metadata) : M (list Metadata) :=
  loopAttr <- cast_DictionaryAttr attr ;;
  loopOptions <-
    match getNamed loopAttr (getParallelAccessAttrName E) with
    | Some parallelAccessGroup =>
        refs <- cast_ArrayAttr parallelAccessGroup ;;
        groups <- forM (fun r => accessGroupRef <- cast_SymbolRefAttr r ;;
                                 ret (getAccessGroup E opInst accessGroupRef))
                       refs ;;
        node <- MDNode_get (MDString "llvm.loop.parallel_accesses" :: groups) ;;
        ret (loopOptions ++ [node])
    | None => ret loopOptions
    end ;;
  match getNamed loopAttr (getLoopOptionsAttrName E) with
  | Some (mkAttribute _ (LoopOptionsAttr options)) =>
      nodes <- forM (fun option =>
                 getLoopOptionMetadata (fst option) (snd option)) options ;;
      ret (loopOptions ++ nodes)
  | _ => ret loopOptions
  end.

(** The lambda [createIntAttr] of [setLoopMetadata]. *)
Definition createIntAttr (opInst : Operation) (type : llvm_Type)
    (name : string) (loopOptions : list Metadata) : M (list Metadata) :=
  match getAttr opInst name with
  | Some attr =>
      loopAttr <- cast_IntegerAttr attr ;;
      c <- ConstantInt_get type (getInt loopAttr) ;;
      node <- MDNode_get [MDString name; ConstantAsMetadata c] ;;
      ret (loopOptions ++ [node])
  | None => ret loopOptions
  end.

(** The lambda [createUnitAttr] of [setLoopMetadata]. *)
Definition createUnitAttr (opInst : Operation) (name : string)
    (loopOptions : list Metadata) : M (list Metadata) :=
  match getAttr opInst name with
  | Some attr =>
      node <- MDNode_get [MDString name] ;;
      ret (loopOptions ++ [node])
  | None => ret loopOptions
  end.

(** An attribute with several integer operands: element [i] of the array,
    as a constant of type [type]. *)
Definition intOperand (loopAttr : list Attribute) (i : nat) (type : llvm_Type)
  : M Metadata :=
  e <- at_index loopAttr i ;;
  v <- cast_IntegerAttr e ;;
  c <- ConstantInt_get type (getInt v) ;;
  ret (ConstantAsMetadata c).

(** The operands of a new loop node: the placeholder for the self
    reference, then what the primary attribute and the extension attributes
    contribute, in the order of the source. *)
Definition buildLoopOptions (E : Env) (opInst : Operation)
    (attr : option Attribute) : M (list Metadata) :=
  (* Reserve operand 0 for loop id self reference. *)
  dummy <- getTemporary ;;
  let loopOptions := [dummy] in
  loopOptions <- match attr with
                 | Some a => pushLoopAttr E opInst a loopOptions
                 | None => ret loopOptions
                 end ;;
  loopOptions <-
    match getAttr opInst "llvm.loop.name" with
    | Some attr =>
        loopAttr <- cast_StringAttr attr ;;
        node <- MDNode_get [MDString "llvm.loop.name"; MDString loopAttr] ;;
        ret (loopOptions ++ [node])
    | None => ret loopOptions
    end ;;
  loopOptions <- createIntAttr opInst i32Type "llvm.loop.vectorize.width" loopOptions ;;
  loopOptions <- createIntAttr opInst i32Type "llvm.loop.interleave.count" loopOptions ;;
  loopOptions <- createIntAttr opInst i32Type "llvm.loop.unroll.count" loopOptions ;;
  loopOptions <- createIntAttr opInst i32Type "llvm.loop.unroll.withoutcheck" loopOptions ;;
  loopOptions <- createIntAttr opInst i1Type "llvm.loop.vectorize.enable" loopOptions ;;
  loopOptions <- createIntAttr opInst i1Type "llvm.loop.distribute.enable" loopOptions ;;
  loopOptions <- createIntAttr opInst i1Type "llvm.loop.flatten.enable" loopOptions ;;
  loopOptions <- createIntAttr opInst i1Type "llvm.loop.dataflow.enable" loopOptions ;;
  loopOptions <- createUnitAttr opInst "llvm.loop.unroll.enable" loopOptions ;;
  loopOptions <- createUnitAttr opInst "llvm.loop.unroll.full" loopOptions ;;
  loopOptions <- createUnitAttr opInst "llvm.loop.unroll.disable" loopOptions ;;
  (* Special attributes with multiple operands *)
  loopOptions <-
    match getAttr opInst "llvm.loop.pipeline.enable" with
    | Some attr =>
        loopAttr <- cast_ArrayAttr attr ;;
        pipelineII <- intOperand loopAttr 0 i32Type ;;
        rewind <- intOperand loopAttr 1 i1Type ;;
        pipelineStyle <- intOperand loopAttr 2 i8Type ;;
        node <- MDNode_get [MDString "llvm.loop.pipeline.enable";
                            pipelineII; rewind; pipelineStyle] ;;
        ret (loopOptions ++ [node])
    | None => ret loopOptions
    end ;;
  loopOptions <-
    match getAttr opInst "llvm.loop.latency" with
    | Some attr =>
        loopAttr <- cast_ArrayAttr attr ;;
        min <- intOperand loopAttr 0 i32Type ;;
        max <- intOperand loopAttr 1 i32Type ;;
        node <- MDNode_get [MDString "llvm.loop.latency"; min; max] ;;
        ret (loopOptions ++ [node])
    | None => ret loopOptions
    end ;;
  match getAttr opInst "llvm.loop.tripcount" with
  | Some attr =>
      loopAttr <- cast_ArrayAttr attr ;;
      v0 <- intOperand loopAttr 0 i32Type ;;
      v1 <- intOperand loopAttr 1 i32Type ;;
      v2 <- intOperand loopAttr 2 i32Type ;;
      node <- MDNode_get [MDString "llvm.loop.tripcount"; v0; v1; v2] ;;
      ret (loopOptions ++ [node])
  | None => ret loopOptions
  end.

Definition mapLoopOptionsMetadata_if (attr : option Attribute)
    (loopMD : Metadata) : M unit :=
  match attr with
  | Some a => mapLoopOptionsMetadata a loopMD
  | None => ret tt
  end.

Definition setLoopMetadata (E : Env) (opInst : Operation) (llvmInst : positive)
  : M unit :=
  let attr := getAttr opInst (getLoopAttrName E) in
  (* If Xilinx extensions exist, the loop metadata is set as well. *)
  let altAttr := getAltAttr opInst in
  if isPresent attr || isPresent altAttr then
    let loopMD : option Metadata := None in
    loopMD <- match attr with
              | Some a => lookupLoopOptionsMetadata a
              | None => ret loopMD
              end ;;
    loopMD <- match altAttr with
              | Some a => lookupLoopOptionsMetadata a
              | None => ret loopMD
              end ;;
    loopMD <-
      match loopMD with
      | Some node => ret node
      | None =>
          loopOptions <- buildLoopOptions E opInst attr ;;
          (* Create loop options and set the first operand to itself. *)
          loopMD <- MDNode_get loopOptions ;;
          replaceOperandWith loopMD 0 loopMD ;;;
          (* Store a map from this Attribute to the LLVM metadata in case we
             encounter it again. *)
          mapLoopOptionsMetadata_if attr loopMD ;;;
          mapLoopOptionsMetadata_if altAttr loopMD ;;;
          ret loopMD
      end ;;
    setMetadata llvmInst "llvm.loop" loopMD
  else ret tt.

(** ** Positions *)

(** Convert the value of a DenseI64ArrayAttr to a vector of unsigned
    indices: every [int64_t] index is converted to [unsigned]. *)
Definition extractPosition (indices : list Z) : list Z :=
  map to_uint32 indices.

(** ** Intrinsic calls *)

(** Modelled from the spec: [op.getIntrinAttr()], the name of the intrinsic
    a [CallIntrinsicOp] calls. *)
Definition getIntrinAttr (op : Operation) : M string :=
  a <- nonnull "no intrin attribute" (getAttr op "intrin") ;;
  cast_StringAttr a.

(** Get the declaration of an overloaded llvm intrinsic.  First we get the
    overloaded argument types and/or result type from the CallIntrinsicOp,
    and then use those to get the correct declaration of the overloaded
    intrinsic.  The result is [None] for [failure]. *)
Definition getOverloadedDeclaration (E : Env) (op : Operation) (id : N)
  : M (option llvm_Value) :=
  let allArgTys := map (fun v => convertType E (value_type v)) (op_operands op) in
  resTy <- (if Nat.eqb (getNumResults op) 0 then ret VoidTy
            else r <- at_index (op_results op) 0 ;;
                 ret (convertType E (value_type r))) ;;
  (* ATM we do not support variadic intrinsics. *)
  let ft := FunctionTy resTy allArgTys false in
  let table := getIntrinsicInfoTableEntries E id in
  let m := matchIntrinsicSignature E ft table in
  match fst m with
  | MatchIntrinsicTypes_Match => ret (Some (getDeclaration E id (snd m)))
  | _ => emitOpError op "intrinsic type is not a match" ;;; ret None
  end.

(** Builder for LLVM_CallIntrinsicOp *)
Definition convertCallLLVMIntrinsicOp (E : Env) (op : Operation)
  : M LogicalResult :=
  intrin <- getIntrinAttr op ;;
  let id := lookupIntrinsicID E intrin in
  if N.eqb id 0 then
    emitOpError op ("couldn't find intrinsic: " ++ intrin)
  else
    fnOrFailure <- (if isOverloaded E id
                    then getOverloadedDeclaration E op id
                    else ret (Some (getDeclaration E id []))) ;;
    match fnOrFailure with
    | None => ret failure
    | Some fn =>
        operands <- lookupValues (op_operands op) ;;
        inst <- CreateCallFn fn operands ;;
        (if Nat.eqb (getNumResults op) 1
         then r <- at_index (op_results op) 0 ;; mapValue r inst
         else ret tt) ;;;
        ret success
    end.

(** ** The special-cased emitters of [convertOperationImpl] *)

#[global] Instance OperationName_eq_dec : EqDecision OperationName.
Proof. solve_decision. Defined.

(** [isa<K>(op)]. *)
Definition isa (k : OperationName) (op : Operation) : bool :=
  bool_decide (op_name op = k).

(** Modelled from the spec: [dyn_cast<FastmathFlagsInterface>(op)], with the
    value of the operation's fast-math attribute. *)
Definition dyn_cast_FastmathFlagsInterface (op : Operation) : option Z :=
  match getAttr op "fastmathFlags" with
  | Some (mkAttribute _ (FastmathFlagsAttr flags)) => Some flags
  | _ => None
  end.

(** The lambda [convertCall]: emit function calls.  If the "callee"
    attribute is present, this is a direct function call and we also need to
    look up the remapped function itself.  Otherwise, this is an indirect
    call and the callee is the first operand, look it up as a normal
    value. *)
Definition convertCall (E : Env) (op : Operation) : M llvm_Value :=
  operands <- lookupValues (op_operands op) ;;
  match getAttrOfType_FlatSymbolRefAttr op "callee" with
  | Some attr =>
      f <- lookupFunction attr ;;
      CreateCallFn f operands
  | None =>
      front <- at_index (op_operands op) 0 ;;
      calleeFunctionType <-
        match value_type front with
        | LLVMPointerType elementType =>
            match convertType E elementType with
            | FunctionTy r p v => ret (FunctionTy r p v)
            | _ => abort "cast<FunctionType>"
            end
        | _ => abort "cast<LLVMPointerType>"
        end ;;
      callee <- at_index operands 0 ;;
      CreateCall calleeFunctionType callee (drop 1 operands)
  end.

(** Emit calls.  If the called function has a result, remap the
    corresponding value. *)
Definition convertCallOp (E : Env) (opInst : Operation) : M LogicalResult :=
  result <- convertCall E opInst ;;
  if negb (Nat.eqb (getNumResults opInst) 0) then
    r <- at_index (op_results opInst) 0 ;;
    mapValue r result ;;;
    ret success
  else
    (* Check that LLVM call returns void for 0-result functions. *)
    match result with
    | InstructionValue _ ty => ret (success_if (isVoidTy ty))
    | _ => abort "not an instruction"
    end.

Definition getStringAttr (op : Operation) (name : string) : M string :=
  a <- nonnull "missing attribute" (getAttr op name) ;;
  cast_StringAttr a.

(** Modelled from the spec: [inlineAsmOp.getAsmDialect()], the optional
    assembly-dialect tag. *)
Definition getAsmDialect (op : Operation) : option AsmDialect :=
  match getAttr op "asm_dialect" with
  | Some (mkAttribute _ (AsmDialectAttr d)) => Some d
  | _ => None
  end.

(** The parameter attributes of an inline-assembly call: the element type
    of every operand attribute dictionary, at the operand's index plus
    [shift].  (An array element of the model is never the null attribute,
    which the source skips.) *)
Fixpoint inlineAsmAttributes (E : Env) (operandAttrs : list Attribute)
    (index shift : nat) (attrList : list (nat * llvm_Type))
  : M (list (nat * llvm_Type)) :=
  match operandAttrs with
  | [] => ret attrList
  | attr :: rest =>
      dAttr <- cast_DictionaryAttr attr ;;
      e <- nonnull "cast<TypeAttr> of a null attribute"
             (getNamed dAttr (getElementTypeAttrName E)) ;;
      tAttr <- cast_TypeAttr e ;;
      let ty := convertType E tAttr in
      inlineAsmAttributes E rest (S index) shift
        (attrList ++ [((index + shift)%nat, ty)])
  end.

Definition convertInlineAsmOp (E : Env) (opInst : Operation)
  : M LogicalResult :=
  let operandTypes := map value_type (op_operands opInst) in
  resultType <-
    (if Nat.eqb (getNumResults opInst) 0 then ret LLVMVoidType
     else
       assert_ E (Nat.eqb (getNumResults opInst) 1)
         "inlineAsmOp.getNumResults() == 1" ;;;
       r <- at_index (op_results opInst) 0 ;;
       ret (value_type r)) ;;
  let ft := LLVMFunctionType resultType operandTypes in
  asmString <- getStringAttr opInst "asm_string" ;;
  constraints <- getStringAttr opInst "constraints" ;;
  let hasSideEffects := isPresent (getAttr opInst "has_side_effects") in
  let isAlignStack := isPresent (getAttr opInst "is_align_stack") in
  let inlineAsmInst :=
    match getAsmDialect opInst with
    | Some d => InlineAsm (convertType E ft) asmString constraints
                          hasSideEffects isAlignStack d
    | None => InlineAsm (convertType E ft) asmString constraints
                        hasSideEffects isAlignStack AD_ATT
    end in
  operands <- lookupValues (op_operands opInst) ;;
  inst <- CreateCallFn inlineAsmInst operands ;;
  match getAttr opInst "operand_attrs" with
  | Some maybeOperandAttrs =>
      operandAttrs <- cast_ArrayAttr maybeOperandAttrs ;;
      (* shift to account for the returned value *)
      let shift := if Nat.ltb 0 (getNumResults opInst) then 1%nat else 0%nat in
      attrList <- inlineAsmAttributes E operandAttrs 0 shift [] ;;
      match inst with
      | InstructionValue a _ => setAttributes a attrList
      | _ => abort "not an instruction"
      end
  | None => ret tt
  end ;;;
  (if negb (Nat.eqb (getNumResults opInst) 0)
   then r <- at_index (op_results opInst) 0 ;; mapValue r inst
   else ret tt) ;;;
  ret success.

(** Modelled from the spec: [invOp.getCalleeOperands()], the first operand
    segment. *)
Definition getCalleeOperands (op : Operation) : list Value :=
  take (hd 0%nat (op_operandSegmentSizes op)) (op_operands op).

Definition convertInvokeOp (E : Env) (opInst : Operation) : M LogicalResult :=
  operands <- lookupValues (getCalleeOperands opInst) ;;
  result <-
    match getAttrOfType_FlatSymbolRefAttr opInst "callee" with
    | Some attr =>
        f <- lookupFunction attr ;;
        s0 <- at_index (op_successors opInst) 0 ;;
        b0 <- lookupBlock s0 ;;
        s1 <- at_index (op_successors opInst) 1 ;;
        b1 <- lookupBlock s1 ;;
        CreateInvokeFn f b0 b1 operands
    | None =>
        front <- at_index (getCalleeOperands opInst) 0 ;;
        calleeFunctionType <-
          match value_type front with
          | LLVMPointerType elementType =>
              match convertType E elementType with
              | FunctionTy r p v => ret (FunctionTy r p v)
              | _ => abort "cast<FunctionType>"
              end
          | _ => abort "cast<LLVMPointerType>"
          end ;;
        callee <- at_index operands 0 ;;
        s0 <- at_index (op_successors opInst) 0 ;;
        b0 <- lookupBlock s0 ;;
        s1 <- at_index (op_successors opInst) 1 ;;
        b1 <- lookupBlock s1 ;;
        CreateInvoke calleeFunctionType callee b0 b1 (drop 1 operands)
    end ;;
  match result with
  | InstructionValue a ty =>
      mapBranch opInst a ;;;
      (* InvokeOp can only have 0 or 1 result *)
      if negb (Nat.eqb (getNumResults opInst) 0) then
        r <- at_index (op_results opInst) 0 ;;
        mapValue r result ;;;
        ret success
      else ret (success_if (isVoidTy ty))
  | _ => abort "not an instruction"
  end.

Definition convertLandingpadOp (E : Env) (opInst : Operation)
  : M LogicalResult :=
  res <- at_index (op_results opInst) 0 ;;
  let ty := convertType E (value_type res) in
  lpi <- CreateLandingPad ty (getNumOperands opInst) ;;
  setCleanup lpi (isPresent (getAttr opInst "cleanup")) ;;;
  (* Add clauses *)
  operands <- lookupValues (op_operands opInst) ;;
  forM_ (fun operand =>
           (* All operands should be constant - checked by verifier *)
           if isConstant operand then addClause lpi operand else ret tt)
        operands ;;;
  mapValue res (InstructionValue lpi ty) ;;;
  ret success.

(** Emit branches.  We need to look up the remapped blocks and ignore the
    block arguments that were transformed into PHI nodes. *)
Definition convertBrOp (E : Env) (opInst : Operation) : M LogicalResult :=
  s0 <- at_index (op_successors opInst) 0 ;;
  b0 <- lookupBlock s0 ;;
  branch <- CreateBr b0 ;;
  mapBranch opInst branch ;;;
  setLoopMetadata E opInst branch ;;;
  ret success.

(** Modelled from the spec: [condbrOp.getBranchWeights()] and
    [switchOp.getBranchWeights()], the optional branch-weight attribute. *)
Definition getBranchWeights (op : Operation) : option Attribute :=
  getAttr op "branch_weights".

Definition convertCondBrOp (E : Env) (opInst : Operation) : M LogicalResult :=
  branchWeights <-
    match getBranchWeights opInst with
    | Some weights =>
        (* Map weight attributes to LLVM metadata. *)
        weightValues <- cast_DenseIntElementsAttr weights ;;
        w0 <- at_index weightValues 0 ;;
        let trueWeight := getSExtValue w0 in
        w1 <- at_index weightValues 1 ;;
        let falseWeight := getSExtValue w1 in
        ret (Some (createBranchWeights
                     [to_uint32 trueWeight; to_uint32 falseWeight]))
    | None => ret None
    end ;;
  c <- at_index (op_operands opInst) 0 ;;
  cond <- lookupValue c ;;
  s0 <- at_index (op_successors opInst) 0 ;;
  b0 <- lookupBlock s0 ;;
  s1 <- at_index (op_successors opInst) 1 ;;
  b1 <- lookupBlock s1 ;;
  branch <- CreateCondBr cond b0 b1 branchWeights ;;
  mapBranch opInst branch ;;;
  setLoopMetadata E opInst branch ;;;
  ret success.

(** Modelled from the spec: [switchOp.getCaseDestinations()], the
    successors after the default destination. *)
Definition getCaseDestinations (op : Operation) : list Block :=
  drop 1 (op_successors op).

(** Modelled from the spec: [switchOp.getCaseValues()], the optional
    case-value attribute. *)
Definition getCaseValues (op : Operation) : option Attribute :=
  getAttr op "case_values".

(** Modelled from the spec: [llvm::zip], pairs up to the end of the shorter
    range. *)
Fixpoint zip_shortest {A B} (l : list A) (k : list B) : list (A * B) :=
  match l, k with
  | a :: l', b :: k' => (a, b) :: zip_shortest l' k'
  | _, _ => []
  end.

Definition convertSwitchOp (E : Env) (opInst : Operation) : M LogicalResult :=
  branchWeights <-
    match getBranchWeights opInst with
    | Some weights =>
        ws <- cast_DenseIntElementsAttr weights ;;
        let weightValues := map (fun weight => to_uint32 (getLimitedValue weight)) ws in
        ret (Some (createBranchWeights weightValues))
    | None => ret None
    end ;;
  v <- at_index (op_operands opInst) 0 ;;
  value <- lookupValue v ;;
  d <- at_index (op_successors opInst) 0 ;;
  defaultDest <- lookupBlock d ;;
  switchInst <- CreateSwitch value defaultDest
                  (length (getCaseDestinations opInst)) branchWeights ;;
  ty <- match convertType E (value_type v) with
        | IntegerTy n => ret (IntegerTy n)
        | _ => abort "cast<IntegerType>"
        end ;;
  caseValuesAttr <- nonnull "no case values" (getCaseValues opInst) ;;
  caseValues <- cast_DenseIntElementsAttr caseValuesAttr ;;
  forM_ (fun i =>
           onVal <- ConstantInt_get ty (getLimitedValue (fst i)) ;;
           dest <- lookupBlock (snd i) ;;
           addCase switchInst onVal dest)
        (zip_shortest caseValues (getCaseDestinations opInst)) ;;;
  mapBranch opInst switchInst ;;;
  ret success.

(** Emit addressof.  We need to look up the global value referenced by the
    operation and store it in the MLIR-to-LLVM value mapping.  This does not
    emit any LLVM instruction. *)
Definition convertAddressOfOp (E : Env) (opInst : Operation)
  : M LogicalResult :=
  name <- nonnull "no global_name attribute"
            (getAttrOfType_FlatSymbolRefAttr opInst "global_name") ;;
  let global := match symbolTable E !! name with
                | Some (GlobalOp g) => Some g
                | _ => None
                end in
  let function := match symbolTable E !! name with
                  | Some (LLVMFuncOp f) => Some f
                  | _ => None
                  end in
  (* The verifier should not have allowed this. *)
  (if isPresent global || isPresent function then ret tt
   else abort "referencing an undefined global or function") ;;;
  res <- at_index (op_results opInst) 0 ;;
  addr <- match global, function with
          | Some g, _ => lookupGlobal g
          | None, Some f => lookupFunction f
          | None, None => abort "null function"
          end ;;
  mapValue res addr ;;;
  ret success.

(** The body of [convertOperationImpl] after the fast-math flags are set:
    the generated conversions, then the special cases in the order of the
    source, then [failure]. *)
Definition convertOperationBody (E : Env) (opInst : Operation)
  : M LogicalResult :=
  generated <- generatedConversions E opInst ;;
  match generated with
  | Some r => ret r
  | None =>
      if isa CallOp opInst then convertCallOp E opInst
      else if isa InlineAsmOp opInst then convertInlineAsmOp E opInst
      else if isa InvokeOp opInst then convertInvokeOp E opInst
      else if isa LandingpadOp opInst then convertLandingpadOp E opInst
      else if isa BrOp opInst then convertBrOp E opInst
      else if isa CondBrOp opInst then convertCondBrOp E opInst
      else if isa SwitchOp opInst then convertSwitchOp E opInst
      else if isa AddressOfOp opInst then convertAddressOfOp E opInst
      else ret failure
  end.

(** [convertOperationImpl]: the fast-math flags of the builder are saved,
    set from the operation if it has fast-math flags, and restored when the
    function returns. *)
Definition convertOperationImpl (E : Env) (opInst : Operation)
  : M LogicalResult :=
  fmfGuard <- getFastMathFlags ;;
  match dyn_cast_FastmathFlagsInterface opInst with
  | Some fmf => setFastMathFlags (getFastmathFlags fmf)
  | None => ret tt
  end ;;;
  r <- convertOperationBody E opInst ;;
  setFastMathFlags fmfGuard ;;;
  ret r.

(** Translates the given operation to LLVM IR using the provided IR builder
    and saving the state in [moduleTranslation]. *)
Definition convertOperation (E : Env) (op : Operation) : M LogicalResult :=
  convertOperationImpl E op.

(** * Relations between states *)

(** [s'] differs from [s] at most by addresses taken and by metadata nodes
    stored at addresses that were unused in [s]. *)
Definition allocates_only (s s' : State) : Prop :=
  moduleTranslation s' = moduleTranslation s
  /\ FMF (builder s') = FMF (builder s)
  /\ insertBlock (builder s') = insertBlock (builder s)
  /\ instructions (builder s') = instructions (builder s)
  /\ diagnostics s' = diagnostics s
  /\ (nextAddr (builder s) <= nextAddr (builder s'))%positive
  /\ (forall a, (a < nextAddr (builder s))%positive ->
        mdNodes (builder s') !! a = mdNodes (builder s) !! a).

(** A computation that, when it returns, has only allocated. *)
Definition frame {A} (m : M A) : Prop :=
  forall s a s', m s = Ok a s' -> allocates_only s s'.

(** A computation on the loop options [l] that, when it returns, returns
    [l] with further operands appended. *)
Definition extends_from (l : list Metadata) (m : M (list Metadata)) : Prop :=
  forall s l' s', m s = Ok l' s' -> exists xs, l' = l ++ xs.

(** The metadata cache after [mapLoopOptionsMetadata] on an attribute that
    may be null. *)
Definition cacheAfter (attr : option Attribute) (node : Metadata)
    (cache : gmap positive Metadata) : gmap positive Metadata :=
  match attr with
  | Some a =>
      match cache !! attr_impl a with
      | Some _ => cache
      | None => <[attr_impl a := node]> cache
      end
  | None => cache
  end.

(** The attribute whose cache entry decides which node a branch gets: the
    alternate attribute when there is one, else the primary attribute. *)
Definition loopCacheKey (E : Env) (op : Operation) : option Attribute :=
  match getAltAttr op with
  | Some a => Some a
  | None => getAttr op (getLoopAttrName E)
  end.

(** A module translation with its metadata cache replaced. *)
Definition withCache (cache : gmap positive Metadata) (mt : ModuleTranslation)
  : ModuleTranslation :=
  mkModuleTranslation (valueMapping mt) (blockMapping mt) (branchMapping mt)
    (functionMapping mt) (globalsMapping mt) cache.

(** The loop node attached to an instruction. *)
Definition loopNodeOf (s : State) (inst : positive) : option Metadata :=
  i ← instructions (builder s) !! inst; getKind "llvm.loop" (inst_metadata i).

(** The names of the attributes of the Xilinx extensions that
    [setLoopMetadata] probes for its alternate attribute, in order. *)
Definition legacyLoopAttrNames : list string :=
  [ "llvm.loop.name"; "llvm.loop.vectorize.width";
    "llvm.loop.interleave.count"; "llvm.loop.unroll.count";
    "llvm.loop.unroll.withoutcheck"; "llvm.loop.vectorize.enable";
    "llvm.loop.distribute.enable"; "llvm.loop.flatten.enable";
    "llvm.loop.dataflow.enable"; "llvm.loop.pipeline.enable";
    "llvm.loop.latency"; "llvm.loop.tripcount" ]%string.

(** The first attribute of the operation among [names], in order. *)
Fixpoint firstPresent (op : Operation) (names : list string)
  : option Attribute :=
  match names with
  | [] => None
  | n :: rest =>
      match getAttr op n with
      | Some a => Some a
      | None => firstPresent op rest
      end
  end.

(** A metadata node that exists in [s]: a node named by its address has an
    address below the next unused one. *)
Definition allocatedBefore (s : State) (m : Metadata) : Prop :=
  match m with
  | MDNodeRef a | MDTemporary a => (a < nextAddr (builder s))%positive
  | _ => True
  end.

(** The state a run ends in; the starting state if it aborts. *)
Definition stateAfter {A} (m : M A) (s : State) : State :=
  match m s with Ok _ s' => s' | Abort _ => s end.

(** * The dispatch as the specification words it *)

(** The special-case emitters in their fixed priority order. *)
Definition specialCaseEmitters (E : Env)
  : list (OperationName * (Operation -> M LogicalResult)) :=
  [ (CallOp, convertCallOp E);
    (InlineAsmOp, convertInlineAsmOp E);
    (InvokeOp, convertInvokeOp E);
    (LandingpadOp, convertLandingpadOp E);
    (BrOp, convertBrOp E);
    (CondBrOp, convertCondBrOp E);
    (SwitchOp, convertSwitchOp E);
    (AddressOfOp, convertAddressOfOp E) ].

(** The first emitter of the list that matches the operation runs; if none
    matches, the operation is unrecognized and the result is failure. *)
Definition firstMatchWins (E : Env) (op : Operation) : M LogicalResult :=
  match List.find (fun c => isa (fst c) op) (specialCaseEmitters E) with
  | Some c => snd c op
  | None => ret failure
  end.

(** A state with the fast-math flags of the builder replaced. *)
Definition withFastMathFlags (flags : Z) (s : State) : State :=
  mkState (moduleTranslation s)
    (mkIRBuilder flags (insertBlock (builder s)) (instructions (builder s))
                 (mdNodes (builder s)) (nextAddr (builder s)))
    (diagnostics s).

(** The state in which the lowering of an operation starts, once the
    fast-math flags of the operation, if it has any, are set. *)
Definition enterOperation (op : Operation) (s : State) : State :=
  match dyn_cast_FastmathFlagsInterface op with
  | Some fmf => withFastMathFlags (getFastmathFlags fmf) s
  | None => s
  end.

(** * The node of a loop option *)

(** The name under which a loop option appears in the loop node. *)
Definition loopOptionName (option : LoopOptionCase) : string :=
  match option with
  | disable_licm => "llvm.licm.disable"
  | disable_unroll => "llvm.loop.unroll.disable"
  | interleave_count => "llvm.loop.interleave.count"
  | disable_pipeline => "llvm.loop.pipeline.disable"
  | pipeline_initiation_interval => "llvm.loop.pipeline.initiationinterval"
  end.

(** What a loop option keeps of its value: a disabling option the bit
    saying that the value is not zero, a count option the value as 32
    bits. *)
Definition loopOptionConstant (option : LoopOptionCase) (value : Z)
  : llvm_Value :=
  match option with
  | disable_licm | disable_unroll | disable_pipeline =>
      ConstantInt (IntegerTy 1) (if value =? 0 then 0 else 1)
  | interleave_count | pipeline_initiation_interval =>
      ConstantInt (IntegerTy 32) (value mod 2 ^ 32)
  end.

(** * The operands of a loop node as a table *)

(** What a run comes to: the value and the state it returns, or nothing
    when it aborts. *)
Definition outcome {A} (o : Outcome A) : option (A * State) :=
  match o with Ok a s => Some (a, s) | Abort _ => None end.

(** How an attribute of the extensions becomes an operand of the loop
    node: a string, an integer of some width, a marker without value, or a
    tuple of integers of given widths. *)
Inductive EntryKind : Type :=
| StringEntry
| IntEntry (bits : N)
| MarkerEntry
| TupleEntry (bits : list N).

(** The attributes of the extensions that contribute an operand, in the
    order of the operands. *)
Definition legacyEntries : list (string * EntryKind) :=
  [ ("llvm.loop.name", StringEntry);
    ("llvm.loop.vectorize.width", IntEntry 32);
    ("llvm.loop.interleave.count", IntEntry 32);
    ("llvm.loop.unroll.count", IntEntry 32);
    ("llvm.loop.unroll.withoutcheck", IntEntry 32);
    ("llvm.loop.vectorize.enable", IntEntry 1);
    ("llvm.loop.distribute.enable", IntEntry 1);
    ("llvm.loop.flatten.enable", IntEntry 1);
    ("llvm.loop.dataflow.enable", IntEntry 1);
    ("llvm.loop.unroll.enable", MarkerEntry);
    ("llvm.loop.unroll.full", MarkerEntry);
    ("llvm.loop.unroll.disable", MarkerEntry);
    ("llvm.loop.pipeline.enable", TupleEntry [32; 1; 8]%N);
    ("llvm.loop.latency", TupleEntry [32; 32]%N);
    ("llvm.loop.tripcount", TupleEntry [32; 32; 32]%N) ]%string.

(** The integer attribute [a] as a constant of [bits] bits. *)
Definition intConstant (bits : N) (a : Attribute) : option Metadata :=
  match attr_value a with
  | IntegerAttr v =>
      Some (ConstantAsMetadata
              (ConstantInt (IntegerTy bits) (getInt v mod 2 ^ Z.of_N bits)))
  | _ => None
  end.

(** The elements [i], [i + 1], ... of the array [l] as constants of the
    given widths. *)
Fixpoint tupleOperands (l : list Attribute) (i : nat) (bits : list N)
  : option (list Metadata) :=
  match bits with
  | [] => Some []
  | b :: bs =>
      match l !! i with
      | Some a =>
          match intConstant b a, tupleOperands l (S i) bs with
          | Some c, Some rest => Some (c :: rest)
          | _, _ => None
          end
      | None => None
      end
  end.

(** The operand an attribute gives, if the attribute is well formed. *)
Definition entryNode (name : string) (kind : EntryKind) (a : Attribute)
  : option Metadata :=
  match kind with
  | StringEntry =>
      match attr_value a with
      | StringAttr v => Some (MDTuple [MDString name; MDString v])
      | _ => None
      end
  | IntEntry bits =>
      match intConstant bits a with
      | Some c => Some (MDTuple [MDString name; c])
      | None => None
      end
  | MarkerEntry => Some (MDTuple [MDString name])
  | TupleEntry bits =>
      match attr_value a with
      | ArrayAttr l =>
          match tupleOperands l 0 bits with
          | Some ops => Some (MDTuple (MDString name :: ops))
          | None => None
          end
      | _ => None
      end
  end.

(** The operands the attributes of the operation give, in the order of
    the table; nothing if one of them is malformed. *)
Fixpoint legacyOperands (op : Operation) (entries : list (string * EntryKind))
  : option (list Metadata) :=
  match entries with
  | [] => Some []
  | (name, kind) :: rest =>
      match getAttr op name with
      | None => legacyOperands op rest
      | Some a =>
          match entryNode name kind a, legacyOperands op rest with
          | Some node, Some nodes => Some (node :: nodes)
          | _, _ => None
          end
      end
  end.

(** A run from [l] that appends the operands of the table [entries], and
    aborts when one of them is malformed. *)
Definition appendsEntries (op : Operation)
    (entries : list (string * EntryKind)) (l : list Metadata)
    (m : M (list Metadata)) : Prop :=
  forall s,
    outcome (m s)
    = match legacyOperands op entries with
      | Some rest => Some (l ++ rest, s)
      | None => None
      end.

(** A step from [l] that appends the operand of one entry. *)
Definition appendsEntry (op : Operation) (name : string) (kind : EntryKind)
    (l : list Metadata) (m : M (list Metadata)) : Prop :=
  forall s,
    outcome (m s)
    = match getAttr op name with
      | None => Some (l, s)
      | Some a =>
          match entryNode name kind a with
          | Some node => Some (l ++ [node], s)
          | None => None
          end
      end.

(** * The operands the primary loop attribute gives *)

(** The names the symbol references of an array refer to; nothing if an
    element is not a symbol reference. *)
Fixpoint symbolNames (refs : list Attribute) : option (list string) :=
  match refs with
  | [] => Some []
  | r :: rest =>
      match attr_value r, symbolNames rest with
      | FlatSymbolRefAttr n, Some ns => Some (n :: ns)
      | _, _ => None
      end
  end.

(** The operand the entry of the parallel access groups in the dictionary
    [d] gives: none without the entry, else the list of the access groups
    its symbol references name; nothing if the entry is malformed. *)
Definition parallelAccesses (E : Env) (op : Operation)
    (d : list (string * Attribute)) : option (list Metadata) :=
  match getNamed d (getParallelAccessAttrName E) with
  | None => Some []
  | Some pa =>
      match attr_value pa with
      | ArrayAttr refs =>
          match symbolNames refs with
          | Some names =>
              Some [MDTuple (MDString "llvm.loop.parallel_accesses"
                             :: map (getAccessGroup E op) names)]
          | None => None
          end
      | _ => None
      end
  end.

(** The loop options of the dictionary [d]: those of its loop-options
    entry, none if it has no such entry. *)
Definition loopOptionsOf (E : Env) (d : list (string * Attribute))
  : list (LoopOptionCase * Z) :=
  match getNamed d (getLoopOptionsAttrName E) with
  | Some a =>
      match attr_value a with
      | LoopOptionsAttr options => options
      | _ => []
      end
  | None => []
  end.

(** * Example inputs *)

Module Examples.

(** A type converter on the types of the model. *)
Fixpoint typeConverter (t : Type_) : llvm_Type :=
  match t with
  | LLVMVoidType => VoidTy
  | IntegerType n => IntegerTy n
  | LLVMPointerType _ => PointerTy
  | LLVMFunctionType r ps => FunctionTy (typeConverter r) (map typeConverter ps) false
  | OtherType n => StructTy n
  end.

(** Two intrinsics: number 1, [llvm.donothing], is not overloaded; number
    2, [llvm.smax], is overloaded on the integer type its two arguments
    and its result share. *)
Definition intrinsicID (name : string) : N :=
  if String.eqb name "llvm.donothing" then 1%N
  else if String.eqb name "llvm.smax" then 2%N
  else 0%N.

Definition matchSignature (ft : llvm_Type) (table : list unit)
  : MatchIntrinsicTypesResult * list llvm_Type :=
  match ft with
  | FunctionTy (IntegerTy n) [IntegerTy m; IntegerTy k] false =>
      if N.eqb n m && N.eqb n k
      then (MatchIntrinsicTypes_Match, [IntegerTy n])
      else (MatchIntrinsicTypes_NoMatchArg, [])
  | _ => (MatchIntrinsicTypes_NoMatchRet, [])
  end.

Definition intrinsicType (id : N) (tys : list llvm_Type) : llvm_Type :=
  match tys with
  | [t] => FunctionTy t [t; t] false
  | _ => FunctionTy VoidTy [] false
  end.

(** An environment whose generated conversions match no operation, for a
    build with or without assertions. *)
Definition envOf (assertions : bool) : Env :=
  {| assertionsEnabled := assertions;
     convertType := typeConverter;
     getLoopAttrName := "llvm.loop";
     getParallelAccessAttrName := "parallel_access";
     getLoopOptionsAttrName := "options";
     getElementTypeAttrName := "elementtype";
     getAccessGroup := fun _ name => MDTuple [MDString name];
     symbolTable := {[ "f"%string := LLVMFuncOp "f" ]};
     lookupIntrinsicID := intrinsicID;
     isOverloaded := N.eqb 2;
     IITDescriptor := unit;
     getIntrinsicInfoTableEntries := fun _ => [];
     matchIntrinsicSignature := matchSignature;
     getIntrinsicType := intrinsicType;
     generatedConversions := fun _ => ret None |}.

(** The build with assertions, and the build without. *)
Definition env : Env := envOf true.

Definition i32 : Type_ := IntegerType 32.

(** IR-A values: two constants, a function argument, a condition and a
    value not yet defined. *)
Definition constA : Value := mkValue 1 i32.
Definition nonConstValue : Value := mkValue 2 i32.
Definition constB : Value := mkValue 3 i32.
Definition condition : Value := mkValue 4 (IntegerType 1).
Definition result : Value := mkValue 5 i32.

(** The translation state: the values above but [result] are mapped, the
    blocks 1 to 4 are mapped, [f] returns void and [g] returns an [i32];
    nothing has been emitted yet. *)
Definition state : State :=
  {| moduleTranslation :=
       {| valueMapping :=
            {[ 1%positive := ConstantInt (IntegerTy 32) 42;
               2%positive := Argument 0 (IntegerTy 32);
               3%positive := ConstantData (IntegerTy 32) "undef";
               4%positive := Argument 1 (IntegerTy 1) ]};
          blockMapping :=
            {[ 1%positive := 101%positive; 2%positive := 102%positive;
               3%positive := 103%positive; 4%positive := 104%positive ]};
          branchMapping := ∅;
          functionMapping :=
            {[ "f"%string := Function "f" (FunctionTy VoidTy [] false);
               "g"%string := Function "g" (FunctionTy (IntegerTy 32) [] false) ]};
          globalsMapping := ∅;
          loopOptionsMetadataMapping := ∅ |};
     builder :=
       {| FMF := 0; insertBlock := []; instructions := ∅; mdNodes := ∅;
          nextAddr := 1 |};
     diagnostics := [] |}.

(** A landing pad on [constA, nonConstValue, constB]. *)
Definition landingpad : Operation :=
  {| op_impl := 10; op_name := LandingpadOp;
     op_operands := [constA; nonConstValue; constB];
     op_operandSegmentSizes := []; op_results := [result];
     op_attrs := []; op_successors := [] |}.

(** Direct calls to the void function [f] and to the [i32] function [g],
    with and without a declared result. *)
Definition call (impl : positive) (callee : string) (results : list Value)
  : Operation :=
  {| op_impl := impl; op_name := CallOp; op_operands := [constA];
     op_operandSegmentSizes := []; op_results := results;
     op_attrs := [("callee"%string, mkAttribute 50 (FlatSymbolRefAttr callee))];
     op_successors := [] |}.

Definition call_void_no_result : Operation := call 11 "f" [].
Definition call_void_one_result : Operation := call 12 "f" [result].
Definition call_nonvoid_no_result : Operation := call 13 "g" [].

(** Loop attributes.  [loopName impl] is the string attribute [L] as the
    attribute object [impl]; [tripcount] and [loopDict] are one attribute
    object each. *)
Definition loopName (impl : positive) : Attribute :=
  mkAttribute impl (StringAttr "L").

Definition int32 (impl : positive) (v : Z) : Attribute :=
  mkAttribute impl (IntegerAttr (mkAPInt 32 v)).

Definition tripcount : Attribute :=
  mkAttribute 61 (ArrayAttr [int32 62 1; int32 63 8; int32 64 4]).

Definition loopDict : Attribute := mkAttribute 80 (DictionaryAttr []).

(** An unconditional branch to block 1 with the given attributes. *)
Definition br (impl : positive) (attrs : list (string * Attribute))
  : Operation :=
  {| op_impl := impl; op_name := BrOp; op_operands := [];
     op_operandSegmentSizes := []; op_results := [];
     op_attrs := attrs; op_successors := [1%positive] |}.

Definition br_name_tripcount : Operation :=
  br 20 [("llvm.loop.name"%string, loopName 60);
         ("llvm.loop.tripcount"%string, tripcount)].
Definition br_tripcount : Operation :=
  br 21 [("llvm.loop.tripcount"%string, tripcount)].
Definition br_nameA : Operation :=
  br 22 [("llvm.loop.name"%string, loopName 70)].
Definition br_nameA' : Operation :=
  br 23 [("llvm.loop.name"%string, loopName 70)].
Definition br_nameB : Operation :=
  br 24 [("llvm.loop.name"%string, loopName 71)].
Definition br_primary : Operation :=
  br 25 [("llvm.loop"%string, loopDict)].
Definition br_both : Operation :=
  br 26 [("llvm.loop"%string, loopDict);
         ("llvm.loop.name"%string, loopName 72)].

(** [state] after two branches to block 1 have been emitted, at the
    addresses 1 and 2. *)
Definition state_two_branches : State :=
  stateAfter (CreateBr 101%positive ;;; CreateBr 101%positive)%M state.

(** A conditional branch on [condition] to the blocks 1 and 2, with the
    given branch weights. *)
Definition condbr (impl : positive) (weights : list APInt) : Operation :=
  {| op_impl := impl; op_name := CondBrOp; op_operands := [condition];
     op_operandSegmentSizes := []; op_results := [];
     op_attrs := [("branch_weights"%string,
                   mkAttribute 90 (DenseIntElementsAttr weights))];
     op_successors := [1%positive; 2%positive] |}.

Definition condbr_7_3 : Operation :=
  condbr 30 [mkAPInt 32 7; mkAPInt 32 3].

(** The 32-bit weight -1 and the 64-bit weight 2^32 + 5. *)
Definition condbr_edge : Operation :=
  condbr 31 [mkAPInt 32 (2 ^ 32 - 1); mkAPInt 64 (2 ^ 32 + 5)].

(** A switch on [constA] with default block 1 and the given case values,
    the cases going to the blocks 2, 3 and 4, as far as there are case
    values. *)
Definition switch (impl : positive) (caseValues : list Z) : Operation :=
  {| op_impl := impl; op_name := SwitchOp; op_operands := [constA];
     op_operandSegmentSizes := []; op_results := [];
     op_attrs := [("case_values"%string,
                   mkAttribute 91
                     (DenseIntElementsAttr (map (mkAPInt 32) caseValues)))];
     op_successors := [1%positive; 2%positive; 3%positive; 4%positive] |}.

Definition switch_5_1_9 : Operation := switch 40 [5; 1; 9].
Definition switch_duplicates : Operation := switch 41 [5; 5; 1].

(** Intrinsic calls: to a name LLVM does not know, to the overloaded
    [llvm.smax] on an [i32] and an [i1], and to [llvm.donothing]. *)
Definition call_intrinsic (impl : positive) (intrin : string)
    (operands results : list Value) : Operation :=
  {| op_impl := impl; op_name := CallIntrinsicOp; op_operands := operands;
     op_operandSegmentSizes := []; op_results := results;
     op_attrs := [("intrin"%string, mkAttribute 92 (StringAttr intrin))];
     op_successors := [] |}.

Definition call_unknown : Operation :=
  call_intrinsic 50 "llvm.nosuch" [] [].
Definition call_smax_mismatch : Operation :=
  call_intrinsic 51 "llvm.smax" [constA; condition] [result].
Definition call_donothing : Operation :=
  call_intrinsic 52 "llvm.donothing" [] [].

(** An operation that is none of the special cases, with fast-math
    flags [nnan] and [reassoc]. *)
Definition unrecognized : Operation :=
  {| op_impl := 53; op_name := OtherOp "llvm.fence"; op_operands := [];
     op_operandSegmentSizes := []; op_results := [];
     op_attrs := [("fastmathFlags"%string,
                   mkAttribute 93 (FastmathFlagsAttr 65))];
     op_successors := [] |}.

(** A switch with a default destination only: it carries no case
    values. *)
Definition switch_no_cases : Operation :=
  {| op_impl := 42; op_name := SwitchOp; op_operands := [constA];
     op_operandSegmentSizes := []; op_results := [];
     op_attrs := []; op_successors := [1%positive] |}.

(** A branch that carries only the marker [llvm.loop.unroll.full], a
    branch whose [llvm.loop.tripcount] has two elements, and a branch with
    the attribute object [loopName 70] and the same short trip count. *)
Definition shortTripcount : Attribute :=
  mkAttribute 74 (ArrayAttr [int32 75 1; int32 76 8]).

Definition br_unroll_full : Operation :=
  br 27 [("llvm.loop.unroll.full"%string, mkAttribute 73 UnitAttr)].
Definition br_short_tripcount : Operation :=
  br 28 [("llvm.loop.tripcount"%string, shortTripcount)].
Definition br_nameA_short_tripcount : Operation :=
  br 29 [("llvm.loop.name"%string, loopName 70);
         ("llvm.loop.tripcount"%string, shortTripcount)].


(** A switch with four case values for three case destinations, and with
    the weights 10, 2^32 + 1, 30, 40, the second of 64 bits. *)
Definition switch_weights : Operation :=
  {| op_impl := 43; op_name := SwitchOp; op_operands := [constA];
     op_operandSegmentSizes := []; op_results := [];
     op_attrs :=
       [("case_values"%string,
         mkAttribute 91
           (DenseIntElementsAttr (map (mkAPInt 32) [5; 1; 9; 7])));
        ("branch_weights"%string,
         mkAttribute 94
           (DenseIntElementsAttr
              [mkAPInt 32 10; mkAPInt 64 (2 ^ 32 + 1); mkAPInt 32 30;
               mkAPInt 32 40]))];
     op_successors := [1%positive; 2%positive; 3%positive; 4%positive] |}.

(** An invoke of the [i32] function [g] on [constA], with a further
    operand that belongs to a successor, the normal destination block 1 and
    the unwind destination block 2. *)
Definition invoke (impl : positive) (results : list Value) : Operation :=
  {| op_impl := impl; op_name := InvokeOp;
     op_operands := [constA; nonConstValue];
     op_operandSegmentSizes := [1%nat; 1%nat; 0%nat]; op_results := results;
     op_attrs := [("callee"%string, mkAttribute 50 (FlatSymbolRefAttr "g"))];
     op_successors := [1%positive; 2%positive] |}.

Definition invoke_result : Operation := invoke 60 [result].
Definition invoke_no_result : Operation := invoke 61 [].

(** An inline-assembly call on [constA] and [nonConstValue] with a result,
    with side effects, without assembly-dialect tag, and with an element
    type for each operand; the same without result; and one with two
    results. *)
Definition elementType (impl : positive) (t : Type_) : Attribute :=
  mkAttribute impl
    (DictionaryAttr [("elementtype"%string, mkAttribute (impl + 1) (TypeAttr t))]).

Definition inline_asm (impl : positive) (results : list Value) : Operation :=
  {| op_impl := impl; op_name := InlineAsmOp;
     op_operands := [constA; nonConstValue];
     op_operandSegmentSizes := []; op_results := results;
     op_attrs :=
       [("asm_string"%string, mkAttribute 110 (StringAttr "mov $0, $1"));
        ("constraints"%string, mkAttribute 111 (StringAttr "=r,*m,*m"));
        ("has_side_effects"%string, mkAttribute 112 UnitAttr);
        ("operand_attrs"%string,
         mkAttribute 113
           (ArrayAttr [elementType 114 i32; elementType 116 (IntegerType 8)]))];
     op_successors := [] |}.

Definition inline_asm_no_result : Operation := inline_asm 71 [].

(** The address of the function [f], and of a symbol the module does not
    have. *)
Definition addressof (impl : positive) (name : string) : Operation :=
  {| op_impl := impl; op_name := AddressOfOp; op_operands := [];
     op_operandSegmentSizes := []; op_results := [result];
     op_attrs := [("global_name"%string,
                   mkAttribute 120 (FlatSymbolRefAttr name))];
     op_successors := [] |}.

Definition addressof_f : Operation := addressof 80 "f".
Definition addressof_unknown : Operation := addressof 81 "nosuch".

(** A call of the overloaded [llvm.smax] on two [i32] values. *)
Definition call_smax : Operation :=
  call_intrinsic 54 "llvm.smax" [constA; constB] [result].

(** A branch with extension attributes given out of order: the trip
    count, the marker [llvm.loop.unroll.full], the flag
    [llvm.loop.flatten.enable] set to 3, and the name. *)
Definition br_extensions : Operation :=
  br 90 [("llvm.loop.tripcount"%string, tripcount);
         ("llvm.loop.unroll.full"%string, mkAttribute 73 UnitAttr);
         ("llvm.loop.flatten.enable"%string, int32 77 3);
         ("llvm.loop.name"%string, loopName 78)].

(** A branch with the primary loop attribute: two parallel access groups,
    two loop options, and beside it the marker [llvm.loop.unroll.full]. *)
Definition loopDict_full : Attribute :=
  mkAttribute 81
    (DictionaryAttr
       [("options"%string,
         mkAttribute 82
           (LoopOptionsAttr [(interleave_count, 4); (disable_licm, 7)]));
        ("parallel_access"%string,
         mkAttribute 83
           (ArrayAttr [mkAttribute 84 (FlatSymbolRefAttr "g1");
                       mkAttribute 85 (FlatSymbolRefAttr "g2")]))]).

Definition br_primary_full : Operation :=
  br 91 [("llvm.loop.unroll.full"%string, mkAttribute 86 UnitAttr);
         ("llvm.loop"%string, loopDict_full)].

(** Two branches with the same [llvm.loop.vectorize.width] attribute,
    given after a trip count: the first also has the primary attribute,
    the second a trip count of two elements. *)
Definition br_width_tripcount : Operation :=
  br 27 [("llvm.loop"%string, loopDict);
         ("llvm.loop.tripcount"%string, tripcount);
         ("llvm.loop.vectorize.width"%string, int32 79 4)].
Definition br_width_short : Operation :=
  br 28 [("llvm.loop.tripcount"%string, shortTripcount);
         ("llvm.loop.vectorize.width"%string, int32 79 4)].

(** The branch with the weights (7, 3) and a loop name. *)
Definition condbr_7_3_loop : Operation :=
  {| op_impl := 35; op_name := CondBrOp; op_operands := [condition];
     op_operandSegmentSizes := []; op_results := [];
     op_attrs := [("branch_weights"%string,
                   mkAttribute 90
                     (DenseIntElementsAttr [mkAPInt 32 7; mkAPInt 32 3]));
                  ("llvm.loop.name"%string, loopName 73)];
     op_successors := [1%positive; 2%positive] |}.

End Examples.

(** * Properties *)

(** ** Enum translators *)

Lemma all_ICmpPredicate_complete (p : ICmpPredicate.t) : p ∈ all_ICmpPredicate.
Proof. destruct p; unfold all_ICmpPredicate; set_solver. Qed.

Lemma all_FCmpPredicate_complete (p : FCmpPredicate.t) : p ∈ all_FCmpPredicate.
Proof. destruct p; unfold all_FCmpPredicate; set_solver. Qed.

Lemma all_AtomicBinOp_complete (p : AtomicBinOp.t) : p ∈ all_AtomicBinOp.
Proof. destruct p; unfold all_AtomicBinOp; set_solver. Qed.

Lemma all_AtomicOrdering_complete (p : AtomicOrdering.t) :
  p ∈ all_AtomicOrdering.
Proof. destruct p; unfold all_AtomicOrdering; set_solver. Qed.

Lemma NoDup_by_decide `{EqDecision A} (l : list A) :
  bool_decide (NoDup l) = true -> NoDup l.
Proof. intros H. by apply bool_decide_eq_true in H. Qed.

Lemma all_FCmpPredicate_NoDup : NoDup all_FCmpPredicate.
Proof. apply NoDup_by_decide. vm_compute. reflexivity. Qed.

(** An injective function, read off the image of a duplicate-free complete
    enumeration. *)
Lemma injective_of_NoDup_image {A B} (f : A -> B) (l : list A) :
  (forall a, a ∈ l) -> NoDup (map f l) -> forall a b, f a = f b -> a = b.
Proof.
  intros Hall Hnd a b Hab.
  destruct (list_elem_of_lookup_1 l a (Hall a)) as [i Hi].
  destruct (list_elem_of_lookup_1 l b (Hall b)) as [j Hj].
  assert (i = j).
  { apply (NoDup_lookup (map f l) i j (f a)); [done | |].
    - by rewrite list_lookup_fmap, Hi.
    - by rewrite list_lookup_fmap, Hj, Hab. }
  subst j. congruence.
Qed.

(** C6 (as amended): each enum translator is a total injection on its
    finite domain -- the 10 integer comparison predicates, the 16 float
    comparison predicates, the 13 atomic read-modify-write operators and the
    7 atomic orderings each map to exactly one output, distinct inputs map
    to distinct outputs (also across the two kinds of comparison
    predicate), and the images, in the order of the enumerators, are the
    fixed tables below. *)
Theorem enum_translators_bijective :
  (length all_ICmpPredicate = 10%nat /\ NoDup all_ICmpPredicate
   /\ forall p, p ∈ all_ICmpPredicate)
  /\ (length all_FCmpPredicate = 16%nat /\ NoDup all_FCmpPredicate
      /\ forall p, p ∈ all_FCmpPredicate)
  /\ (length all_AtomicBinOp = 13%nat /\ NoDup all_AtomicBinOp
      /\ forall p, p ∈ all_AtomicBinOp)
  /\ (length all_AtomicOrdering = 7%nat /\ NoDup all_AtomicOrdering
      /\ forall p, p ∈ all_AtomicOrdering)
  /\ (forall p q, getLLVMCmpPredicate p = getLLVMCmpPredicate q -> p = q)
  /\ (forall p q, getLLVMCmpPredicate_F p = getLLVMCmpPredicate_F q -> p = q)
  /\ (forall p q, getLLVMCmpPredicate p <> getLLVMCmpPredicate_F q)
  /\ (forall p q, getLLVMAtomicBinOp p = getLLVMAtomicBinOp q -> p = q)
  /\ (forall p q, getLLVMAtomicOrdering p = getLLVMAtomicOrdering q -> p = q)
  /\ map getLLVMCmpPredicate all_ICmpPredicate =
       [llvm.CmpInst.ICMP_EQ; llvm.CmpInst.ICMP_NE; llvm.CmpInst.ICMP_SLT;
        llvm.CmpInst.ICMP_SLE; llvm.CmpInst.ICMP_SGT; llvm.CmpInst.ICMP_SGE;
        llvm.CmpInst.ICMP_ULT; llvm.CmpInst.ICMP_ULE; llvm.CmpInst.ICMP_UGT;
        llvm.CmpInst.ICMP_UGE]
  /\ map getLLVMCmpPredicate_F all_FCmpPredicate =
       [llvm.CmpInst.FCMP_FALSE; llvm.CmpInst.FCMP_OEQ; llvm.CmpInst.FCMP_OGT;
        llvm.CmpInst.FCMP_OGE; llvm.CmpInst.FCMP_OLT; llvm.CmpInst.FCMP_OLE;
        llvm.CmpInst.FCMP_ONE; llvm.CmpInst.FCMP_ORD; llvm.CmpInst.FCMP_UEQ;
        llvm.CmpInst.FCMP_UGT; llvm.CmpInst.FCMP_UGE; llvm.CmpInst.FCMP_ULT;
        llvm.CmpInst.FCMP_ULE; llvm.CmpInst.FCMP_UNE; llvm.CmpInst.FCMP_UNO;
        llvm.CmpInst.FCMP_TRUE]
  /\ map getLLVMAtomicBinOp all_AtomicBinOp =
       [llvm.AtomicRMWInst.Xchg; llvm.AtomicRMWInst.Add;
        llvm.AtomicRMWInst.Sub; llvm.AtomicRMWInst.And;
        llvm.AtomicRMWInst.Nand; llvm.AtomicRMWInst.Or;
        llvm.AtomicRMWInst.Xor; llvm.AtomicRMWInst.Max;
        llvm.AtomicRMWInst.Min; llvm.AtomicRMWInst.UMax;
        llvm.AtomicRMWInst.UMin; llvm.AtomicRMWInst.FAdd;
        llvm.AtomicRMWInst.FSub]
  /\ map getLLVMAtomicOrdering all_AtomicOrdering =
       [llvm.AtomicOrdering.NotAtomic; llvm.AtomicOrdering.Unordered;
        llvm.AtomicOrdering.Monotonic; llvm.AtomicOrdering.Acquire;
        llvm.AtomicOrdering.Release; llvm.AtomicOrdering.AcquireRelease;
        llvm.AtomicOrdering.SequentiallyConsistent].
Proof.
  repeat match goal with |- _ /\ _ => split end;
    try reflexivity;
    try (apply NoDup_by_decide; vm_compute; reflexivity);
    try apply all_ICmpPredicate_complete;
    try apply all_FCmpPredicate_complete;
    try apply all_AtomicBinOp_complete;
    try apply all_AtomicOrdering_complete.
  - apply (injective_of_NoDup_image _ all_ICmpPredicate);
      [apply all_ICmpPredicate_complete
      | apply NoDup_by_decide; vm_compute; reflexivity].
  - apply (injective_of_NoDup_image _ all_FCmpPredicate);
      [apply all_FCmpPredicate_complete
      | apply NoDup_by_decide; vm_compute; reflexivity].
  - intros p q; destruct p, q; discriminate.
  - apply (injective_of_NoDup_image _ all_AtomicBinOp);
      [apply all_AtomicBinOp_complete
      | apply NoDup_by_decide; vm_compute; reflexivity].
  - apply (injective_of_NoDup_image _ all_AtomicOrdering);
      [apply all_AtomicOrdering_complete
      | apply NoDup_by_decide; vm_compute; reflexivity].
Qed.

(** An instance of the injectivity of the float predicate translator. *)
Lemma enum_translators_bijective_witness :
  getLLVMCmpPredicate_F FCmpPredicate.uno
    = getLLVMCmpPredicate_F FCmpPredicate.uno
  /\ FCmpPredicate.uno = FCmpPredicate.uno.
Proof.
  split; [reflexivity |].
  apply (proj1 (proj2 (proj2 (proj2 (proj2 (proj2
           enum_translators_bijective)))))).
  reflexivity.
Defined.

(** The domain of the float predicate translator is not one of 14
    predicates: no list of 14 predicates holds them all. *)
Lemma float_predicates_are_not_14 :
  ~ exists l : list FCmpPredicate.t,
      length l = 14%nat /\ forall p, p ∈ l.
Proof.
  intros (l & Hlen & Hall).
  assert (Hsub : all_FCmpPredicate ⊆+ l).
  { apply NoDup_submseteq; [apply all_FCmpPredicate_NoDup | auto]. }
  apply submseteq_length in Hsub. rewrite Hlen in Hsub.
  vm_compute in Hsub. lia.
Qed.

(** ** Fast-math flags *)

(** C7: for every value of the source flag set, each of the seven target
    flags is set exactly when the corresponding source flag is present, and
    no other bit of the target flag set is set. *)
Theorem getFastmathFlags_exact (fmfMlir : Z) :
  llvmFMF.noNaNs (getFastmathFlags fmfMlir)
    = bitEnumContainsAll fmfMlir FastmathFlags.nnan
  /\ llvmFMF.noInfs (getFastmathFlags fmfMlir)
    = bitEnumContainsAll fmfMlir FastmathFlags.ninf
  /\ llvmFMF.noSignedZeros (getFastmathFlags fmfMlir)
    = bitEnumContainsAll fmfMlir FastmathFlags.nsz
  /\ llvmFMF.allowReciprocal (getFastmathFlags fmfMlir)
    = bitEnumContainsAll fmfMlir FastmathFlags.arcp
  /\ llvmFMF.allowContract (getFastmathFlags fmfMlir)
    = bitEnumContainsAll fmfMlir FastmathFlags.contract
  /\ llvmFMF.approxFunc (getFastmathFlags fmfMlir)
    = bitEnumContainsAll fmfMlir FastmathFlags.afn
  /\ llvmFMF.allowReassoc (getFastmathFlags fmfMlir)
    = bitEnumContainsAll fmfMlir FastmathFlags.reassoc
  /\ Z.land (getFastmathFlags fmfMlir) (Z.lnot 127) = 0.
Proof.
  cbv [getFastmathFlags handlers fold_left fst snd].
  destruct (bitEnumContainsAll fmfMlir FastmathFlags.nnan);
  destruct (bitEnumContainsAll fmfMlir FastmathFlags.ninf);
  destruct (bitEnumContainsAll fmfMlir FastmathFlags.nsz);
  destruct (bitEnumContainsAll fmfMlir FastmathFlags.arcp);
  destruct (bitEnumContainsAll fmfMlir FastmathFlags.contract);
  destruct (bitEnumContainsAll fmfMlir FastmathFlags.afn);
  destruct (bitEnumContainsAll fmfMlir FastmathFlags.reassoc);
  vm_compute; repeat split; reflexivity.
Qed.

(** ** Running the translation monad *)

Lemma bind_Ok {A B} (m : M A) (k : A -> M B) s a s1 :
  m s = Ok a s1 -> bind m k s = k a s1.
Proof. unfold bind. by intros ->. Qed.

Lemma bind_Ok_inv {A B} (m : M A) (k : A -> M B) s b s' :
  bind m k s = Ok b s' -> exists a s1, m s = Ok a s1 /\ k a s1 = Ok b s'.
Proof. unfold bind. destruct (m s) as [a s1|]; [eauto | discriminate]. Qed.

Lemma lookupValues_Ok (vs : list Value) (vals : list llvm_Value) s :
  Forall2 (fun v l => valueMapping (moduleTranslation s) !! value_impl v = Some l)
          vs vals ->
  lookupValues vs s = Ok vals s.
Proof.
  unfold lookupValues. induction 1 as [|v l vs vals Hv _ IH]; [done |].
  cbn [forM]. unfold bind at 1. unfold lookupValue at 1.
  unfold bind, get, nonnull. rewrite Hv. cbn. unfold bind in IH |- *.
  by rewrite IH.
Qed.

Lemma at_index_Ok {A} (l : list A) i x s :
  l !! i = Some x -> at_index l i s = Ok x s.
Proof. unfold at_index, nonnull. by intros ->. Qed.

Lemma lookupValue_Ok v l s :
  valueMapping (moduleTranslation s) !! value_impl v = Some l ->
  lookupValue v s = Ok l s.
Proof. unfold lookupValue, bind, get, nonnull. by intros ->. Qed.

Lemma lookupBlock_Ok b lb s :
  blockMapping (moduleTranslation s) !! b = Some lb ->
  lookupBlock b s = Ok lb s.
Proof. unfold lookupBlock, bind, get, nonnull. by intros ->. Qed.

Lemma mapBranch_Ok op inst s :
  branchMapping (moduleTranslation s) !! op_impl op = None ->
  mapBranch op inst s
  = Ok tt (mkState
             (mkModuleTranslation
                (valueMapping (moduleTranslation s))
                (blockMapping (moduleTranslation s))
                (<[op_impl op := inst]> (branchMapping (moduleTranslation s)))
                (functionMapping (moduleTranslation s))
                (globalsMapping (moduleTranslation s))
                (loopOptionsMetadataMapping (moduleTranslation s)))
             (builder s) (diagnostics s)).
Proof. unfold mapBranch, bind, get, with_mt. by intros ->. Qed.

(** Run the first step of a sequence, given how it runs. *)
Tactic Notation "step_by" tactic3(tac) :=
  erewrite bind_Ok by tac; cbv beta iota.

(** ** Landing pads *)

(** The clause loop of the landing-pad emitter appends the constant
    operands, in order, to the clauses of the landing pad and changes
    nothing else. *)
Lemma addClause_loop (lpi : positive) (vals : list llvm_Value) :
  forall s ty n cu cl md,
    instructions (builder s) !! lpi
      = Some (mkInstruction (LandingPadInst ty n cu cl) md) ->
    exists s',
      forM_ (fun operand =>
               if isConstant operand then addClause lpi operand else ret tt)
            vals s = Ok tt s'
      /\ instructions (builder s') !! lpi
         = Some (mkInstruction
                   (LandingPadInst ty n cu (cl ++ List.filter isConstant vals))
                   md)
      /\ moduleTranslation s' = moduleTranslation s
      /\ insertBlock (builder s') = insertBlock (builder s)
      /\ diagnostics s' = diagnostics s.
Proof.
  induction vals as [|v vals IH]; intros s ty n cu cl md Hi.
  - exists s. cbn. by rewrite app_nil_r.
  - cbn [forM_ List.filter]. destruct (isConstant v) eqn:Hc.
    + set (s1 := mkState (moduleTranslation s)
                   (mkIRBuilder (FMF (builder s)) (insertBlock (builder s))
                      (<[lpi := mkInstruction
                                  (LandingPadInst ty n cu (cl ++ [v])) md]>
                         (instructions (builder s)))
                      (mdNodes (builder s)) (nextAddr (builder s)))
                   (diagnostics s)).
      assert (Hstep : addClause lpi v s = Ok tt s1).
      { unfold addClause, updateInstruction, bind, get, nonnull, with_builder.
        rewrite Hi. reflexivity. }
      destruct (IH s1 ty n cu (cl ++ [v]) md) as (s' & Hrun & Hi' & Hmt & Hib & Hd).
      { subst s1. cbn. apply lookup_insert_eq. }
      exists s'. rewrite (bind_Ok _ _ _ _ _ Hstep), Hrun.
      rewrite <- app_assoc in Hi'. auto.
    + destruct (IH s ty n cu cl md Hi) as (s' & Hrun & Hi' & Hrest).
      exists s'. by rewrite (bind_Ok _ _ s tt s eq_refl).
Qed.

(** C5: lowering a landing pad whose operands are mapped adds one clause
    per operand that maps to a constant, in the operands' order, skips
    every other operand without reporting anything, maps the result to the
    landing pad, and succeeds. *)
Theorem landingpad_clauses (E : Env) (op : Operation) (res : Value)
    (vals : list llvm_Value) (s : State) :
  op_results op = [res] ->
  Forall2 (fun v l => valueMapping (moduleTranslation s) !! value_impl v = Some l)
          (op_operands op) vals ->
  valueMapping (moduleTranslation s) !! value_impl res = None ->
  exists s',
    convertLandingpadOp E op s = Ok success s'
    /\ instructions (builder s') !! nextAddr (builder s)
       = Some (mkInstruction
                 (LandingPadInst (convertType E (value_type res))
                    (length (op_operands op))
                    (isPresent (getAttr op "cleanup"))
                    (List.filter isConstant vals))
                 [])
    /\ insertBlock (builder s') = insertBlock (builder s) ++ [nextAddr (builder s)]
    /\ valueMapping (moduleTranslation s') !! value_impl res
       = Some (InstructionValue (nextAddr (builder s))
                                (convertType E (value_type res)))
    /\ diagnostics s' = diagnostics s.
Proof.
  intros Hres Hops Hfresh.
  set (a := nextAddr (builder s)). set (ty := convertType E (value_type res)).
  set (lp0 := mkInstruction
                (LandingPadInst ty (length (op_operands op))
                   (isPresent (getAttr op "cleanup")) []) []).
  set (s1 := mkState (moduleTranslation s)
               (mkIRBuilder (FMF (builder s)) (insertBlock (builder s) ++ [a])
                  (<[a := lp0]> (instructions (builder s)))
                  (mdNodes (builder s)) (Pos.succ a))
               (diagnostics s)).
  assert (Hl : lookupValues (op_operands op) s1 = Ok vals s1)
    by (apply lookupValues_Ok; exact Hops).
  destruct (addClause_loop a vals s1 ty (length (op_operands op))
              (isPresent (getAttr op "cleanup")) [] [])
    as (s2 & Hloop & Hi2 & Hmt2 & Hib2 & Hd2).
  { subst s1. cbn. apply lookup_insert_eq. }
  assert (Hfresh2 : valueMapping (moduleTranslation s2) !! value_impl res = None)
    by (rewrite Hmt2; exact Hfresh).
  eexists. split.
  { unfold convertLandingpadOp. rewrite Hres.
    unfold at_index, nonnull, CreateLandingPad, Insert, allocate, with_builder,
      setCleanup, updateInstruction, bind, get. cbn.
    rewrite lookup_insert_eq. cbn. rewrite insert_insert_eq.
    fold a ty. unfold getNumOperands. fold lp0. fold s1.
    rewrite Hl, Hloop.
    unfold mapValue, bind, get, with_mt. rewrite Hfresh2. reflexivity. }
  cbn. rewrite lookup_insert_eq, Hib2, Hd2. subst s1; cbn.
  repeat split; try reflexivity. exact Hi2.
Qed.

(** On [constA, nonConstValue, constB] the landing pad gets the two
    constants as clauses, in that order. *)
Lemma landingpad_clauses_witness :
  exists s',
    convertLandingpadOp Examples.env Examples.landingpad Examples.state
      = Ok success s'
    /\ instructions (builder s') !! 1%positive
       = Some (mkInstruction
                 (LandingPadInst (IntegerTy 32) 3 false
                    [ConstantInt (IntegerTy 32) 42;
                     ConstantData (IntegerTy 32) "undef"])
                 [])
    /\ insertBlock (builder s') = [1%positive]
    /\ valueMapping (moduleTranslation s') !! 5%positive
       = Some (InstructionValue 1 (IntegerTy 32))
    /\ diagnostics s' = [].
Proof.
  apply (landingpad_clauses Examples.env Examples.landingpad Examples.result
           [ConstantInt (IntegerTy 32) 42; Argument 0 (IntegerTy 32);
            ConstantData (IntegerTy 32) "undef"] Examples.state).
  - reflexivity.
  - repeat constructor.
  - reflexivity.
Defined.

(** ** Calls *)

(** The call emitted for a direct call, and for an indirect call. *)
Lemma convertCall_Ok (E : Env) (op : Operation) (rt : llvm_Type)
    (ps : list llvm_Type) (va : bool) (vals : list llvm_Value)
    (callee : llvm_Value) (args : list llvm_Value) (s : State) :
  Forall2 (fun v l => valueMapping (moduleTranslation s) !! value_impl v = Some l)
          (op_operands op) vals ->
  (exists name fname,
      getAttrOfType_FlatSymbolRefAttr op "callee" = Some name
      /\ functionMapping (moduleTranslation s) !! name
         = Some (Function fname (FunctionTy rt ps va))
      /\ callee = Function fname (FunctionTy rt ps va)
      /\ args = vals)
  \/ (exists front elementType,
        getAttrOfType_FlatSymbolRefAttr op "callee" = None
        /\ op_operands op !! 0%nat = Some front
        /\ value_type front = LLVMPointerType elementType
        /\ convertType E elementType = FunctionTy rt ps va
        /\ vals = callee :: args) ->
  convertCall E op s
  = (a <- Insert (CallInst (FunctionTy rt ps va) callee args []) [] ;;
     ret (InstructionValue a rt)) s.
Proof.
  intros Hops Hcallee. unfold convertCall.
  step_by (apply lookupValues_Ok; exact Hops).
  destruct Hcallee as [(name & fname & -> & Hf & -> & ->)
                      | (front & elementType & -> & Hfront & Hpt & Hft & ->)].
  - unfold lookupFunction, bind, get, nonnull. rewrite Hf. reflexivity.
  - step_by (apply at_index_Ok; exact Hfront).
    rewrite Hpt, Hft. step_by reflexivity. step_by reflexivity.
    reflexivity.
Qed.

(** C1 (as amended): lowering a call whose operands are mapped, direct or
    indirect, emits the call and then looks only at the number of declared
    results.  With no declared result it succeeds exactly when the callee
    returns void: a void callee succeeds, a non-void callee fails.  With a
    declared result it maps the result to the call and succeeds, whatever
    the callee returns. *)
Theorem call_result_arity (E : Env) (op : Operation) (rt : llvm_Type)
    (ps : list llvm_Type) (va : bool) (vals : list llvm_Value)
    (callee : llvm_Value) (args : list llvm_Value) (s : State) :
  Forall2 (fun v l => valueMapping (moduleTranslation s) !! value_impl v = Some l)
          (op_operands op) vals ->
  (exists name fname,
      getAttrOfType_FlatSymbolRefAttr op "callee" = Some name
      /\ functionMapping (moduleTranslation s) !! name
         = Some (Function fname (FunctionTy rt ps va))
      /\ callee = Function fname (FunctionTy rt ps va)
      /\ args = vals)
  \/ (exists front elementType,
        getAttrOfType_FlatSymbolRefAttr op "callee" = None
        /\ op_operands op !! 0%nat = Some front
        /\ value_type front = LLVMPointerType elementType
        /\ convertType E elementType = FunctionTy rt ps va
        /\ vals = callee :: args) ->
  (forall r, head (op_results op) = Some r ->
             valueMapping (moduleTranslation s) !! value_impl r = None) ->
  exists s',
    convertCallOp E op s
      = Ok (match op_results op with
            | [] => if isVoidTy rt then success else failure
            | _ :: _ => success
            end) s'
    /\ instructions (builder s') !! nextAddr (builder s)
       = Some (mkInstruction (CallInst (FunctionTy rt ps va) callee args []) [])
    /\ (forall r, head (op_results op) = Some r ->
          valueMapping (moduleTranslation s') !! value_impl r
            = Some (InstructionValue (nextAddr (builder s)) rt))
    /\ diagnostics s' = diagnostics s.
Proof.
  intros Hops Hcallee Hfresh.
  unfold convertCallOp. unfold bind at 1.
  rewrite (convertCall_Ok E op rt ps va vals callee args s Hops Hcallee).
  unfold Insert, allocate, with_builder, bind. cbn.
  unfold getNumResults.
  destruct (op_results op) as [|r rs] eqn:Hr; cbn.
  - eexists. split; [reflexivity |]. cbn.
    rewrite lookup_insert_eq.
    split; [reflexivity | split; [discriminate | reflexivity]].
  - unfold mapValue, bind, get, with_mt. cbn.
    rewrite (Hfresh r eq_refl). cbn.
    eexists. split; [reflexivity |]. cbn.
    rewrite lookup_insert_eq.
    split; [reflexivity | split; [| reflexivity]].
    intros r' [= <-]. apply lookup_insert_eq.
Qed.

(** A direct call to the void function [f] with one declared result
    succeeds and maps the result to the call. *)
Lemma call_result_arity_witness :
  exists s',
    convertCallOp Examples.env Examples.call_void_one_result Examples.state
      = Ok success s'
    /\ instructions (builder s') !! 1%positive
       = Some (mkInstruction
                 (CallInst (FunctionTy VoidTy [] false)
                           (Function "f" (FunctionTy VoidTy [] false))
                           [ConstantInt (IntegerTy 32) 42] [])
                 [])
    /\ (forall r, head (op_results Examples.call_void_one_result) = Some r ->
          valueMapping (moduleTranslation s') !! value_impl r
            = Some (InstructionValue 1 VoidTy))
    /\ diagnostics s' = [].
Proof.
  apply (call_result_arity Examples.env Examples.call_void_one_result
           VoidTy [] false [ConstantInt (IntegerTy 32) 42]
           (Function "f" (FunctionTy VoidTy [] false))
           [ConstantInt (IntegerTy 32) 42] Examples.state).
  - repeat constructor.
  - left. exists "f"%string, "f"%string. repeat split; reflexivity.
  - intros r [= <-]. reflexivity.
Defined.

(** Three direct calls, run: to a void callee without result, to a
    non-void callee without result, and to a void callee with one declared
    result, which does not fail but succeeds. *)
Lemma call_void_callee_one_result_succeeds :
  returned (convertCallOp Examples.env Examples.call_void_no_result
              Examples.state) = Some success
  /\ returned (convertCallOp Examples.env Examples.call_nonvoid_no_result
                 Examples.state) = Some failure
  /\ returned (convertCallOp Examples.env Examples.call_void_one_result
                 Examples.state) = Some success
  /\ returned (convertCallOp Examples.env Examples.call_void_one_result
                 Examples.state) <> Some failure.
Proof. vm_compute. repeat split; discriminate. Qed.

(** ** Computations that only allocate *)

Lemma allocates_only_refl s : allocates_only s s.
Proof. unfold allocates_only. repeat split; auto. reflexivity. Qed.

Lemma allocates_only_trans s1 s2 s3 :
  allocates_only s1 s2 -> allocates_only s2 s3 -> allocates_only s1 s3.
Proof.
  intros (Hm & Hf & Hb & Hi & Hd & Hn & Hk) (Hm' & Hf' & Hb' & Hi' & Hd' & Hn' & Hk').
  unfold allocates_only. repeat split; try congruence.
  - etransitivity; eassumption.
  - intros a Ha. rewrite Hk', Hk; [done | done |].
    eapply Pos.lt_le_trans; eassumption.
Qed.

Lemma frame_ret {A} (a : A) : frame (ret a).
Proof. intros s a' s' [= _ <-]. apply allocates_only_refl. Qed.

Lemma frame_abort {A} why : frame (@abort A why).
Proof. intros s a s' [=]. Qed.

Lemma frame_bind {A B} (m : M A) (k : A -> M B) :
  frame m -> (forall a, frame (k a)) -> frame (bind m k).
Proof.
  intros Hm Hk s b s' H. apply bind_Ok_inv in H as (a & s1 & H1 & H2).
  eapply allocates_only_trans; [eapply Hm | eapply Hk]; eassumption.
Qed.

Lemma frame_nonnull {A} why (o : option A) : frame (nonnull why o).
Proof. destruct o; [apply frame_ret | apply frame_abort]. Qed.

Lemma frame_forM {A B} (f : A -> M B) (l : list A) :
  (forall a, frame (f a)) -> frame (forM f l).
Proof.
  intros Hf. induction l as [|x xs IH]; cbn [forM]; [apply frame_ret |].
  apply frame_bind; [apply Hf | intros y].
  apply frame_bind; [apply IH | intros ys; apply frame_ret].
Qed.

Lemma frame_allocate : frame allocate.
Proof.
  intros s a s' [= _ <-]. unfold allocates_only; cbn.
  repeat split; auto. lia.
Qed.

Lemma frame_getTemporary : frame getTemporary.
Proof.
  apply frame_bind; [apply frame_allocate | intros a; apply frame_ret].
Qed.

Lemma frame_MDNode_get ops : frame (MDNode_get ops).
Proof.
  unfold MDNode_get. destruct (existsb isTemporary ops); [| apply frame_ret].
  intros s a s' [= _ <-]. unfold allocates_only; cbn.
  repeat split; auto; [lia |].
  intros a' Ha'. apply lookup_insert_ne. lia.
Qed.

Lemma frame_ConstantInt_get ty v : frame (ConstantInt_get ty v).
Proof. destruct ty; first [apply frame_ret | apply frame_abort]. Qed.

Create HintDb frame.
#[export] Hint Resolve frame_ret frame_abort frame_nonnull frame_allocate
  frame_getTemporary frame_MDNode_get frame_ConstantInt_get : frame.

(** Decompose a computation into steps that are known to only allocate. *)
Ltac frame_step :=
  first
    [ solve [auto with frame]
    | apply frame_bind; [| intros ?]
    | apply frame_forM; intros ?
    | match goal with
      | |- frame (match ?x with _ => _ end) => destruct x
      | |- frame (let _ := _ in _) => cbv zeta
      end ].

Ltac frame_auto := repeat frame_step.

Lemma frame_casts (a : Attribute) :
  frame (cast_DictionaryAttr a) /\ frame (cast_ArrayAttr a)
  /\ frame (cast_StringAttr a) /\ frame (cast_IntegerAttr a)
  /\ frame (cast_SymbolRefAttr a) /\ frame (cast_TypeAttr a)
  /\ frame (cast_DenseIntElementsAttr a).
Proof.
  unfold cast_DictionaryAttr, cast_ArrayAttr, cast_StringAttr,
    cast_IntegerAttr, cast_SymbolRefAttr, cast_TypeAttr,
    cast_DenseIntElementsAttr.
  repeat apply conj; frame_auto.
Qed.

Lemma frame_cast_DictionaryAttr a : frame (cast_DictionaryAttr a).
Proof. apply frame_casts. Qed.
Lemma frame_cast_ArrayAttr a : frame (cast_ArrayAttr a).
Proof. apply frame_casts. Qed.
Lemma frame_cast_StringAttr a : frame (cast_StringAttr a).
Proof. apply frame_casts. Qed.
Lemma frame_cast_IntegerAttr a : frame (cast_IntegerAttr a).
Proof. apply frame_casts. Qed.
Lemma frame_cast_SymbolRefAttr a : frame (cast_SymbolRefAttr a).
Proof. apply frame_casts. Qed.

Lemma frame_at_index {A} (l : list A) i : frame (at_index l i).
Proof. apply frame_nonnull. Qed.

#[export] Hint Resolve frame_cast_DictionaryAttr frame_cast_ArrayAttr
  frame_cast_StringAttr frame_cast_IntegerAttr frame_cast_SymbolRefAttr
  frame_at_index : frame.

Lemma frame_getLoopOptionMetadata option value :
  frame (getLoopOptionMetadata option value).
Proof. unfold getLoopOptionMetadata. frame_auto. Qed.

Lemma frame_intOperand loopAttr i type : frame (intOperand loopAttr i type).
Proof. unfold intOperand. frame_auto. Qed.

#[export] Hint Resolve frame_getLoopOptionMetadata frame_intOperand : frame.

Lemma frame_pushLoopAttr E opInst attr loopOptions :
  frame (pushLoopAttr E opInst attr loopOptions).
Proof. unfold pushLoopAttr. frame_auto. Qed.

Lemma frame_createIntAttr opInst type name loopOptions :
  frame (createIntAttr opInst type name loopOptions).
Proof. unfold createIntAttr. frame_auto. Qed.

Lemma frame_createUnitAttr opInst name loopOptions :
  frame (createUnitAttr opInst name loopOptions).
Proof. unfold createUnitAttr. frame_auto. Qed.

#[export] Hint Resolve frame_pushLoopAttr frame_createIntAttr
  frame_createUnitAttr : frame.

Lemma frame_buildLoopOptions E opInst attr :
  frame (buildLoopOptions E opInst attr).
Proof. unfold buildLoopOptions. frame_auto. Qed.

(** ** The operands of a new loop node *)

Lemma ext_ret_same l : extends_from l (ret l).
Proof. intros s l' s' [= <- _]. exists []. by rewrite app_nil_r. Qed.

Lemma ext_ret_app l xs : extends_from l (ret (l ++ xs)).
Proof. intros s l' s' [= <- _]. by exists xs. Qed.

Lemma ext_abort l why : extends_from l (abort why).
Proof. intros s l' s' [=]. Qed.

Lemma ext_bind l (m : M (list Metadata)) (k : list Metadata -> M (list Metadata)) :
  extends_from l m -> (forall l1, extends_from l1 (k l1)) ->
  extends_from l (bind m k).
Proof.
  intros Hm Hk s l' s' H. apply bind_Ok_inv in H as (l1 & s1 & H1 & H2).
  destruct (Hm _ _ _ H1) as [xs ->]. destruct (Hk _ _ _ _ H2) as [ys ->].
  exists (xs ++ ys). by rewrite app_assoc.
Qed.

Lemma ext_bind_any {A} l (m : M A) (k : A -> M (list Metadata)) :
  (forall a, extends_from l (k a)) -> extends_from l (bind m k).
Proof.
  intros Hk s l' s' H. apply bind_Ok_inv in H as (a & s1 & H1 & H2).
  eapply Hk; eassumption.
Qed.

Ltac ext_auto :=
  lazymatch goal with
  | |- extends_from ?l (ret ?l) => apply ext_ret_same
  | |- extends_from ?l (ret (?l ++ _)) => apply ext_ret_app
  | |- extends_from _ (abort _) => apply ext_abort
  | |- extends_from _ (bind _ _) =>
      first [ apply ext_bind; [solve [ext_auto] | intros ?; ext_auto]
            | apply ext_bind_any; intros ?; ext_auto ]
  | |- extends_from _ (match ?x with _ => _ end) => destruct x; ext_auto
  end.

Lemma ext_pushLoopAttr E opInst attr l :
  extends_from l (pushLoopAttr E opInst attr l).
Proof. unfold pushLoopAttr. ext_auto. Qed.

Lemma ext_createIntAttr opInst type name l :
  extends_from l (createIntAttr opInst type name l).
Proof. unfold createIntAttr. ext_auto. Qed.

Lemma ext_createUnitAttr opInst name l :
  extends_from l (createUnitAttr opInst name l).
Proof. unfold createUnitAttr. ext_auto. Qed.

(** Operand 0 of the operands built for a new loop node is the
    placeholder taken first. *)
Lemma buildLoopOptions_head E opInst attr s l s' :
  buildLoopOptions E opInst attr s = Ok l s' ->
  exists xs, l = MDTemporary (nextAddr (builder s)) :: xs.
Proof.
  unfold buildLoopOptions. intros H.
  apply bind_Ok_inv in H as (dummy & s1 & Hd & H).
  injection Hd as <- _.
  revert H. generalize (MDTemporary (nextAddr (builder s))). intros d H.
  assert (Hext : exists xs, l = [d] ++ xs); [| exact Hext].
  revert s1 l s' H.
  match goal with
  | |- forall s1 l s', ?m s1 = Ok l s' -> _ => change (extends_from [d] m)
  end.
  repeat (apply ext_bind;
          [first [ apply ext_createIntAttr | apply ext_createUnitAttr
                 | destruct attr; [apply ext_pushLoopAttr | apply ext_ret_same]
                 | ext_auto ]
          | intros ?]).
  ext_auto.
Qed.

(** ** The loop metadata cache *)

Lemma getKind_setKind_eq kind node md :
  getKind kind (setKind kind node md) = Some node.
Proof.
  induction md as [|[k n] md IH]; cbn.
  - by rewrite String.eqb_refl.
  - destruct (String.eqb k kind) eqn:Hk; cbn.
    + by rewrite String.eqb_refl.
    + by rewrite Hk.
Qed.

Lemma getKind_setKind_ne kind kind' node md :
  kind <> kind' -> getKind kind' (setKind kind node md) = getKind kind' md.
Proof.
  intros Hne. induction md as [|[k n] md IH]; cbn.
  - destruct (String.eqb kind kind') eqn:Hk; [| done].
    apply String.eqb_eq in Hk. contradiction.
  - destruct (String.eqb k kind) eqn:Hk; cbn.
    + apply String.eqb_eq in Hk. subst k.
      destruct (String.eqb kind kind') eqn:Hk'; [| done].
      apply String.eqb_eq in Hk'. contradiction.
    + by rewrite IH.
Qed.

(** Building a new loop node: the node is at an address unused before, its
    operand 0 is the node itself, and it is entered in the cache under the
    primary and the alternate attribute, where they have no entry yet. *)
Lemma buildLoopNode_spec E opInst attr altAttr s node s' :
  (loopOptions <- buildLoopOptions E opInst attr ;;
   loopMD <- MDNode_get loopOptions ;;
   replaceOperandWith loopMD 0 loopMD ;;;
   mapLoopOptionsMetadata_if attr loopMD ;;;
   mapLoopOptionsMetadata_if altAttr loopMD ;;;
   ret loopMD) s = Ok node s' ->
  exists a xs,
    node = MDNodeRef a
    /\ (nextAddr (builder s) < a)%positive
    /\ (a < nextAddr (builder s'))%positive
    /\ mdNodes (builder s') !! a = Some (MDNodeRef a :: xs)
    /\ moduleTranslation s'
       = withCache
           (cacheAfter altAttr node
              (cacheAfter attr node
                 (loopOptionsMetadataMapping (moduleTranslation s))))
           (moduleTranslation s)
    /\ instructions (builder s') = instructions (builder s)
    /\ insertBlock (builder s') = insertBlock (builder s)
    /\ FMF (builder s') = FMF (builder s)
    /\ diagnostics s' = diagnostics s.
Proof.
  intros H. apply bind_Ok_inv in H as (l & s1 & Hb & H).
  destruct (frame_buildLoopOptions _ _ _ _ _ _ Hb)
    as (Hmt & Hf & Hib & Hi & Hd & Hn & _).
  destruct (buildLoopOptions_head _ _ _ _ _ _ Hb) as [xs ->].
  assert (Hlt : (nextAddr (builder s) < nextAddr (builder s1))%positive).
  { unfold buildLoopOptions in Hb.
    apply bind_Ok_inv in Hb as (d & s0 & Hd0 & Hb).
    injection Hd0 as _ <-.
    match type of Hb with
    | ?m _ = _ => assert (Hfr : frame m) by frame_auto
    end.
    destruct (Hfr _ _ _ Hb) as (_ & _ & _ & _ & _ & Hn0 & _).
    cbn in Hn0. lia. }
  unfold MDNode_get in H. cbn [existsb isTemporary orb] in H.
  unfold bind, allocate, with_builder, replaceOperandWith, get, nonnull in H.
  cbn in H. rewrite lookup_insert_eq in H. cbn in H.
  exists (nextAddr (builder s1)), xs.
  destruct attr as [attr|], altAttr as [altAttr|];
    unfold mapLoopOptionsMetadata_if, mapLoopOptionsMetadata, with_mt in H;
    cbn in H; injection H as <- <-; cbn;
    rewrite lookup_insert_eq, Hmt, Hi, Hib, Hf, Hd;
    (repeat apply conj; try done; try lia).
  by destruct (moduleTranslation s).
Qed.

Lemma setMetadata_Ok inst kind node s s' :
  setMetadata inst kind node s = Ok tt s' ->
  exists i,
    instructions (builder s) !! inst = Some i
    /\ instructions (builder s')
       = <[inst := mkInstruction (inst_kind i)
                     (setKind kind node (inst_metadata i))]>
           (instructions (builder s))
    /\ moduleTranslation s' = moduleTranslation s
    /\ insertBlock (builder s') = insertBlock (builder s)
    /\ mdNodes (builder s') = mdNodes (builder s)
    /\ nextAddr (builder s') = nextAddr (builder s)
    /\ FMF (builder s') = FMF (builder s)
    /\ diagnostics s' = diagnostics s.
Proof.
  unfold setMetadata, updateInstruction, bind, get, nonnull, with_builder.
  destruct (instructions (builder s) !! inst) as [i|]; [| discriminate].
  cbn. intros [= <-]. exists i. cbn. repeat apply conj; reflexivity.
Qed.

(** What [setLoopMetadata] does when it returns.  Without a primary or an
    alternate attribute it does nothing.  Otherwise the entry of the cache
    key decides: the cached node is attached and nothing else changes, or a
    new node is built, entered in the cache and attached. *)
Lemma setLoopMetadata_spec E opInst llvmInst s s' :
  setLoopMetadata E opInst llvmInst s = Ok tt s' ->
  match loopCacheKey E opInst with
  | None => s' = s
  | Some key =>
      exists node i,
        instructions (builder s) !! llvmInst = Some i
        /\ instructions (builder s')
           = <[llvmInst := mkInstruction (inst_kind i)
                             (setKind "llvm.loop" node (inst_metadata i))]>
               (instructions (builder s))
        /\ insertBlock (builder s') = insertBlock (builder s)
        /\ diagnostics s' = diagnostics s
        /\ match loopOptionsMetadataMapping (moduleTranslation s)
                 !! attr_impl key with
           | Some cached =>
               node = cached
               /\ moduleTranslation s' = moduleTranslation s
               /\ mdNodes (builder s') = mdNodes (builder s)
               /\ nextAddr (builder s') = nextAddr (builder s)
           | None =>
               exists a xs,
                 node = MDNodeRef a
                 /\ (nextAddr (builder s) < a)%positive
                 /\ (a < nextAddr (builder s'))%positive
                 /\ mdNodes (builder s') !! a = Some (MDNodeRef a :: xs)
                 /\ moduleTranslation s'
                    = withCache
                        (cacheAfter (getAltAttr opInst) node
                           (cacheAfter (getAttr opInst (getLoopAttrName E)) node
                              (loopOptionsMetadataMapping (moduleTranslation s))))
                        (moduleTranslation s)
           end
  end.
Proof.
  unfold setLoopMetadata, loopCacheKey.
  destruct (getAttr opInst (getLoopAttrName E)) as [attr|] eqn:Ha;
    destruct (getAltAttr opInst) as [altAttr|] eqn:Hb;
    cbn [isPresent orb]; intros H;
    [ | | | by injection H ].
  all: apply bind_Ok_inv in H as (md1 & s1 & H1 & H);
    apply bind_Ok_inv in H as (md2 & s2 & H2 & H);
    apply bind_Ok_inv in H as (node & s3 & H3 & H);
    unfold lookupLoopOptionsMetadata, bind, get, ret in H1, H2;
    injection H1 as <- <-; injection H2 as <- <-;
    apply setMetadata_Ok in H
      as (i & Hi & Hi' & Hmt & Hib & Hmd & Hna & Hf & Hd).
  all: match type of H3 with
       | match ?c with _ => _ end _ = _ => destruct c as [cached|] eqn:Hc
       end.
  all: try (injection H3 as <- <-; exists cached, i;
            repeat apply conj; done).
  all: apply buildLoopNode_spec in H3
         as (a & xs & -> & Hlo & Hhi & Hself & Hmt3 & Hi3 & Hib3 & Hf3 & Hd3);
       exists (MDNodeRef a), i;
       rewrite Hi3 in Hi, Hi'; rewrite Hib, Hib3, Hd, Hd3;
       (repeat apply conj; try done);
       exists a, xs; rewrite Hna, Hmd, Hmt; repeat apply conj; done.
Qed.

Lemma cacheAfter_subseteq attr node (cache : gmap positive Metadata) :
  cache ⊆ cacheAfter attr node cache.
Proof.
  unfold cacheAfter. destruct attr as [a|]; [| done].
  destruct (cache !! attr_impl a) eqn:Hc; [done |].
  by apply insert_subseteq.
Qed.

Lemma cacheAfter_lookup_ne attr node (cache : gmap positive Metadata) k :
  (forall a, attr = Some a -> k <> attr_impl a) ->
  cacheAfter attr node cache !! k = cache !! k.
Proof.
  unfold cacheAfter. destruct attr as [a|]; [| done]. intros Hk.
  destruct (cache !! attr_impl a); [done |].
  apply lookup_insert_ne. intros Heq. by apply (Hk a).
Qed.

Lemma cacheAfter_lookup_key a node (cache : gmap positive Metadata) :
  cache !! attr_impl a = None ->
  cacheAfter (Some a) node cache !! attr_impl a = Some node.
Proof. unfold cacheAfter. intros ->. apply lookup_insert_eq. Qed.

(** The cache only grows. *)
Lemma setLoopMetadata_cache_grows E opInst llvmInst s s' :
  setLoopMetadata E opInst llvmInst s = Ok tt s' ->
  loopOptionsMetadataMapping (moduleTranslation s)
    ⊆ loopOptionsMetadataMapping (moduleTranslation s').
Proof.
  intros H. apply setLoopMetadata_spec in H.
  destruct (loopCacheKey E opInst) as [key|]; [| by subst].
  destruct H as (node & i & _ & _ & _ & _ & H).
  destruct (loopOptionsMetadataMapping (moduleTranslation s) !! attr_impl key).
  - destruct H as (_ & -> & _). done.
  - destruct H as (a & xs & _ & _ & _ & _ & ->). cbn.
    etransitivity; apply cacheAfter_subseteq.
Qed.

(** A cached node is reused. *)
Lemma setLoopMetadata_reuses E opInst llvmInst key node s s' :
  setLoopMetadata E opInst llvmInst s = Ok tt s' ->
  loopCacheKey E opInst = Some key ->
  loopOptionsMetadataMapping (moduleTranslation s) !! attr_impl key = Some node ->
  loopNodeOf s' llvmInst = Some node
  /\ moduleTranslation s' = moduleTranslation s.
Proof.
  intros H Hkey Hc. apply setLoopMetadata_spec in H. rewrite Hkey, Hc in H.
  destruct H as (node' & i & Hi & Hi' & _ & _ & -> & Hmt & _).
  split; [| done]. unfold loopNodeOf. rewrite Hi', lookup_insert_eq. cbn.
  apply getKind_setKind_eq.
Qed.

(** The node attached is, afterwards, the cache entry of the key. *)
Lemma setLoopMetadata_registers E opInst llvmInst key s s' :
  setLoopMetadata E opInst llvmInst s = Ok tt s' ->
  loopCacheKey E opInst = Some key ->
  exists node,
    loopNodeOf s' llvmInst = Some node
    /\ loopOptionsMetadataMapping (moduleTranslation s') !! attr_impl key
       = Some node.
Proof.
  intros H Hkey. apply setLoopMetadata_spec in H. rewrite Hkey in H.
  destruct H as (node & i & Hi & Hi' & _ & _ & H). exists node.
  split.
  { unfold loopNodeOf. rewrite Hi', lookup_insert_eq. cbn.
    apply getKind_setKind_eq. }
  destruct (loopOptionsMetadataMapping (moduleTranslation s) !! attr_impl key)
    as [cached|] eqn:Hc.
  - destruct H as (-> & -> & _). done.
  - destruct H as (a & xs & -> & _ & _ & _ & ->). cbn.
    unfold loopCacheKey in Hkey.
    destruct (getAltAttr opInst) as [alt|].
    + injection Hkey as ->.
      destruct (cacheAfter (getAttr opInst (getLoopAttrName E)) (MDNodeRef a)
                  (loopOptionsMetadataMapping (moduleTranslation s))
                !! attr_impl key) as [n|] eqn:Hn.
      * unfold cacheAfter at 1. rewrite Hn.
        revert Hn. unfold cacheAfter.
        destruct (getAttr opInst (getLoopAttrName E)) as [p|]; [| congruence].
        destruct (loopOptionsMetadataMapping (moduleTranslation s)
                  !! attr_impl p); [congruence |].
        destruct (decide (attr_impl p = attr_impl key)) as [->|Hne].
        -- by rewrite lookup_insert_eq.
        -- rewrite lookup_insert_ne by done. congruence.
      * by apply cacheAfter_lookup_key.
    + cbn. rewrite Hkey. by apply cacheAfter_lookup_key.
Qed.

Lemma setLoopMetadata_branchMapping E opInst llvmInst s s' :
  setLoopMetadata E opInst llvmInst s = Ok tt s' ->
  branchMapping (moduleTranslation s') = branchMapping (moduleTranslation s).
Proof.
  intros H. apply setLoopMetadata_spec in H.
  destruct (loopCacheKey E opInst) as [key|]; [| by subst].
  destruct H as (node & i & _ & _ & _ & _ & H).
  destruct (loopOptionsMetadataMapping (moduleTranslation s) !! attr_impl key).
  - destruct H as (_ & -> & _). done.
  - destruct H as (a & xs & _ & _ & _ & _ & ->). done.
Qed.

Lemma frame_get : frame get.
Proof. intros s a s' [= _ <-]. apply allocates_only_refl. Qed.

Lemma frame_lookupValue v : frame (lookupValue v).
Proof.
  unfold lookupValue.
  apply frame_bind; [apply frame_get | intros; apply frame_nonnull].
Qed.

Lemma frame_lookupBlock b : frame (lookupBlock b).
Proof.
  unfold lookupBlock.
  apply frame_bind; [apply frame_get | intros; apply frame_nonnull].
Qed.

Lemma frame_cast_DenseIntElementsAttr a : frame (cast_DenseIntElementsAttr a).
Proof. apply frame_casts. Qed.

#[export] Hint Resolve frame_get frame_lookupValue frame_lookupBlock
  frame_cast_DenseIntElementsAttr : frame.

(** The end of the two branch emitters: the branch is created, recorded as
    the branch of the operation, and given its loop metadata. *)
Lemma branch_tail_inv E op (create : M positive) s r s' :
  (forall t b t', create t = Ok b t' ->
                  moduleTranslation t' = moduleTranslation t) ->
  (branch <- create ;;
   mapBranch op branch ;;;
   setLoopMetadata E op branch ;;;
   ret success) s = Ok r s' ->
  exists branch s1,
    r = success
    /\ setLoopMetadata E op branch s1 = Ok tt s'
    /\ loopOptionsMetadataMapping (moduleTranslation s1)
       = loopOptionsMetadataMapping (moduleTranslation s)
    /\ branchMapping (moduleTranslation s') !! op_impl op = Some branch.
Proof.
  intros Hcreate H.
  apply bind_Ok_inv in H as (branch & t1 & H1 & H).
  apply bind_Ok_inv in H as ([] & t2 & H2 & H).
  apply bind_Ok_inv in H as ([] & t3 & H3 & H).
  injection H as <- <-.
  apply Hcreate in H1.
  unfold mapBranch, bind, get, with_mt in H2.
  destruct (branchMapping (moduleTranslation t1) !! op_impl op);
    [discriminate |].
  injection H2 as <-.
  exists branch. eexists. split; [reflexivity |]. split; [exact H3 |].
  split.
  - cbn. by rewrite H1.
  - rewrite (setLoopMetadata_branchMapping _ _ _ _ _ H3). cbn.
    apply lookup_insert_eq.
Qed.

Lemma Insert_moduleTranslation k md t b t' :
  Insert k md t = Ok b t' -> moduleTranslation t' = moduleTranslation t.
Proof.
  unfold Insert, allocate, with_builder, bind. cbn. by intros [= _ <-].
Qed.

(** Lowering an unconditional or a conditional branch, when it returns,
    has run [setLoopMetadata] on the branch it emitted, from a state with
    the cache it started with. *)
Lemma branch_lowering_inv E op s r s' :
  convertBrOp E op s = Ok r s' \/ convertCondBrOp E op s = Ok r s' ->
  exists branch s1,
    r = success
    /\ setLoopMetadata E op branch s1 = Ok tt s'
    /\ loopOptionsMetadataMapping (moduleTranslation s1)
       = loopOptionsMetadataMapping (moduleTranslation s)
    /\ branchMapping (moduleTranslation s') !! op_impl op = Some branch.
Proof.
  intros [H | H].
  - unfold convertBrOp in H.
    apply bind_Ok_inv in H as (s0 & t0 & H0 & H).
    apply frame_at_index in H0 as (Hmt0 & _).
    apply bind_Ok_inv in H as (b0 & t1 & H1 & H).
    apply frame_lookupBlock in H1 as (Hmt1 & _).
    apply branch_tail_inv in H as (branch & s1 & -> & Hrun & Hc & Hb).
    + exists branch, s1. repeat apply conj; try done. congruence.
    + intros t b t'. apply Insert_moduleTranslation.
  - unfold convertCondBrOp in H.
    apply bind_Ok_inv in H as (bw & t0 & H0 & H).
    assert (Hfr : frame
              (match getBranchWeights op with
               | Some weights =>
                   weightValues <- cast_DenseIntElementsAttr weights ;;
                   w0 <- at_index weightValues 0 ;;
                   let trueWeight := getSExtValue w0 in
                   w1 <- at_index weightValues 1 ;;
                   let falseWeight := getSExtValue w1 in
                   ret (Some (createBranchWeights
                                [to_uint32 trueWeight; to_uint32 falseWeight]))
               | None => ret None
               end)) by frame_auto.
    apply Hfr in H0 as (Hmt0 & _).
    apply bind_Ok_inv in H as (c & t1 & H1 & H).
    apply frame_at_index in H1 as (Hmt1 & _).
    apply bind_Ok_inv in H as (cond & t2 & H2 & H).
    apply frame_lookupValue in H2 as (Hmt2 & _).
    apply bind_Ok_inv in H as (x0 & t3 & H3 & H).
    apply frame_at_index in H3 as (Hmt3 & _).
    apply bind_Ok_inv in H as (b0 & t4 & H4 & H).
    apply frame_lookupBlock in H4 as (Hmt4 & _).
    apply bind_Ok_inv in H as (x1 & t5 & H5 & H).
    apply frame_at_index in H5 as (Hmt5 & _).
    apply bind_Ok_inv in H as (b1 & t6 & H6 & H).
    apply frame_lookupBlock in H6 as (Hmt6 & _).
    apply branch_tail_inv in H as (branch & s1 & -> & Hrun & Hc & Hb).
    + exists branch, s1. repeat apply conj; try done. congruence.
    + intros t b t'. apply Insert_moduleTranslation.
Qed.

(** C2 (as amended): two branches whose cache key -- the first present
    attribute of the extensions, else the primary loop attribute -- is the
    same attribute object get the identical loop node, whatever is lowered
    between them as long as the cache only grows; two branches whose keys
    are distinct attribute objects need not share a node, even when the
    attributes are structurally identical, and here they do not. *)
Theorem loop_metadata_shared :
  (forall (E : Env) (op1 op2 : Operation) (key1 key2 : Attribute)
          (s0 s1 s2 s3 : State) (r1 r2 : LogicalResult),
      convertBrOp E op1 s0 = Ok r1 s1 \/ convertCondBrOp E op1 s0 = Ok r1 s1 ->
      loopOptionsMetadataMapping (moduleTranslation s1)
        ⊆ loopOptionsMetadataMapping (moduleTranslation s2) ->
      convertBrOp E op2 s2 = Ok r2 s3 \/ convertCondBrOp E op2 s2 = Ok r2 s3 ->
      loopCacheKey E op1 = Some key1 ->
      loopCacheKey E op2 = Some key2 ->
      attr_impl key1 = attr_impl key2 ->
      exists node branch1 branch2,
        branchMapping (moduleTranslation s1) !! op_impl op1 = Some branch1
        /\ branchMapping (moduleTranslation s3) !! op_impl op2 = Some branch2
        /\ loopNodeOf s1 branch1 = Some node
        /\ loopNodeOf s3 branch2 = Some node)
  /\ (let s1 := stateAfter (convertBrOp Examples.env Examples.br_nameA)
                  Examples.state in
      let s2 := stateAfter (convertBrOp Examples.env Examples.br_nameB) s1 in
      attr_value (Examples.loopName 70) = attr_value (Examples.loopName 71)
      /\ attr_impl (Examples.loopName 70) <> attr_impl (Examples.loopName 71)
      /\ branchMapping (moduleTranslation s2) !! op_impl Examples.br_nameA
         = Some 1%positive
      /\ branchMapping (moduleTranslation s2) !! op_impl Examples.br_nameB
         = Some 4%positive
      /\ loopNodeOf s2 1 = Some (MDNodeRef 3)
      /\ loopNodeOf s2 4 = Some (MDNodeRef 6)).
Proof.
  split.
  - intros E op1 op2 key1 key2 s0 s1 s2 s3 r1 r2 H1 Hsub H2 Hk1 Hk2 Heq.
    apply branch_lowering_inv in H1 as (b1 & t1 & _ & Hrun1 & _ & Hb1).
    apply branch_lowering_inv in H2 as (b2 & t2 & _ & Hrun2 & Hc2 & Hb2).
    destruct (setLoopMetadata_registers _ _ _ _ _ _ Hrun1 Hk1)
      as (node & Hn1 & Hc1).
    exists node, b1, b2. repeat apply conj; try assumption.
    eapply setLoopMetadata_reuses; [exact Hrun2 | exact Hk2 |].
    rewrite Hc2, <- Heq. eapply lookup_weaken; eassumption.
  - vm_compute. repeat apply conj; try reflexivity. discriminate.
Qed.

(** Two branches that carry the same [llvm.loop.name] attribute object,
    lowered one after the other, get the same node. *)
Lemma loop_metadata_shared_witness :
  let s1 := stateAfter (convertBrOp Examples.env Examples.br_nameA)
              Examples.state in
  let s3 := stateAfter (convertBrOp Examples.env Examples.br_nameA') s1 in
  exists node branch1 branch2,
    branchMapping (moduleTranslation s1) !! op_impl Examples.br_nameA
      = Some branch1
    /\ branchMapping (moduleTranslation s3) !! op_impl Examples.br_nameA'
       = Some branch2
    /\ loopNodeOf s1 branch1 = Some node
    /\ loopNodeOf s3 branch2 = Some node.
Proof.
  intros s1 s3.
  apply (proj1 loop_metadata_shared Examples.env
           Examples.br_nameA Examples.br_nameA'
           (Examples.loopName 70) (Examples.loopName 70)
           Examples.state s1 s1 s3 success success).
  - left. vm_compute. reflexivity.
  - reflexivity.
  - left. vm_compute. reflexivity.
  - reflexivity.
  - reflexivity.
  - reflexivity.
Defined.

(** Two branches that reference the same attribute object and yet get
    different nodes: the first carries [llvm.loop.name] and the attribute
    object [tripcount] as [llvm.loop.tripcount], the second carries only the
    same [tripcount] object.  Both are lowered in full, one after the
    other. *)
Lemma same_attribute_object_different_nodes :
  let s1 := stateAfter (convertOperation Examples.env Examples.br_name_tripcount)
              Examples.state in
  let s2 := stateAfter (convertOperation Examples.env Examples.br_tripcount) s1 in
  getAttr Examples.br_name_tripcount "llvm.loop.tripcount"
    = Some Examples.tripcount
  /\ getAttr Examples.br_tripcount "llvm.loop.tripcount"
     = Some Examples.tripcount
  /\ returned (convertOperation Examples.env Examples.br_name_tripcount
                 Examples.state) = Some success
  /\ returned (convertOperation Examples.env Examples.br_tripcount s1)
     = Some success
  /\ branchMapping (moduleTranslation s2) !! op_impl Examples.br_name_tripcount
     = Some 1%positive
  /\ branchMapping (moduleTranslation s2) !! op_impl Examples.br_tripcount
     = Some 4%positive
  /\ loopNodeOf s2 1 = Some (MDNodeRef 3)
  /\ loopNodeOf s2 4 = Some (MDNodeRef 6)
  /\ loopNodeOf s2 1 <> loopNodeOf s2 4.
Proof. vm_compute. repeat apply conj; try reflexivity. discriminate. Qed.

(** ** When [setLoopMetadata] returns *)

Lemma mapLoopOptionsMetadata_if_Ok (attr : option Attribute)
    (node : Metadata) (s : State) :
  exists mt,
    mapLoopOptionsMetadata_if attr node s
    = Ok tt (mkState mt (builder s) (diagnostics s)).
Proof.
  destruct attr as [a|]; cbn.
  - eexists. reflexivity.
  - exists (moduleTranslation s). by destruct s.
Qed.

(** With an entry for the cache key, [setLoopMetadata] attaches the node
    of the entry and does nothing else. *)
Lemma setLoopMetadata_hit E op inst key node i s :
  loopCacheKey E op = Some key ->
  loopOptionsMetadataMapping (moduleTranslation s) !! attr_impl key = Some node ->
  instructions (builder s) !! inst = Some i ->
  setLoopMetadata E op inst s
  = Ok tt
      (mkState (moduleTranslation s)
         (mkIRBuilder (FMF (builder s)) (insertBlock (builder s))
            (<[inst := mkInstruction (inst_kind i)
                         (setKind "llvm.loop" node (inst_metadata i))]>
               (instructions (builder s)))
            (mdNodes (builder s)) (nextAddr (builder s)))
         (diagnostics s)).
Proof.
  unfold loopCacheKey, setLoopMetadata. intros Hkey Hc Hi.
  destruct (getAltAttr op) as [alt|].
  - injection Hkey as ->.
    destruct (getAttr op (getLoopAttrName E)) as [attr|];
      cbn [isPresent orb];
      unfold lookupLoopOptionsMetadata, setMetadata, updateInstruction, bind,
        get, nonnull, with_builder; cbn; rewrite Hc; cbn; rewrite Hi;
      reflexivity.
  - rewrite Hkey. cbn [isPresent orb].
    unfold lookupLoopOptionsMetadata, setMetadata, updateInstruction, bind,
      get, nonnull, with_builder. cbn. rewrite Hc. cbn. rewrite Hi.
    reflexivity.
Qed.

(** Without an entry for the cache key, [setLoopMetadata] builds a node
    and attaches it. *)
Lemma setLoopMetadata_on_miss E op inst key s :
  loopCacheKey E op = Some key ->
  loopOptionsMetadataMapping (moduleTranslation s) !! attr_impl key = None ->
  setLoopMetadata E op inst s
  = (loopMD <-
       (loopOptions <- buildLoopOptions E op (getAttr op (getLoopAttrName E)) ;;
        loopMD <- MDNode_get loopOptions ;;
        replaceOperandWith loopMD 0 loopMD ;;;
        mapLoopOptionsMetadata_if (getAttr op (getLoopAttrName E)) loopMD ;;;
        mapLoopOptionsMetadata_if (getAltAttr op) loopMD ;;;
        ret loopMD) ;;
     setMetadata inst "llvm.loop" loopMD) s.
Proof.
  unfold loopCacheKey, setLoopMetadata. intros Hkey Hmiss.
  assert (Hlook : lookupLoopOptionsMetadata key s = Ok None s)
    by (unfold lookupLoopOptionsMetadata, bind, get, ret; by rewrite Hmiss).
  destruct (getAltAttr op) as [alt|].
  - injection Hkey as ->.
    destruct (getAttr op (getLoopAttrName E)) as [attr|];
      cbn [isPresent orb].
    + step_by reflexivity. step_by (exact Hlook). reflexivity.
    + step_by reflexivity. step_by (exact Hlook). reflexivity.
  - rewrite Hkey. cbn [isPresent orb].
    step_by (exact Hlook). step_by reflexivity. reflexivity.
Qed.

(** A loop node is built whenever its operands are. *)
Lemma buildLoopNode_returns E op attr altAttr l s s1 :
  buildLoopOptions E op attr s = Ok l s1 ->
  exists node s2,
    (loopOptions <- buildLoopOptions E op attr ;;
     loopMD <- MDNode_get loopOptions ;;
     replaceOperandWith loopMD 0 loopMD ;;;
     mapLoopOptionsMetadata_if attr loopMD ;;;
     mapLoopOptionsMetadata_if altAttr loopMD ;;;
     ret loopMD) s = Ok node s2.
Proof.
  intros Hb. destruct (buildLoopOptions_head _ _ _ _ _ _ Hb) as [xs ->].
  step_by (exact Hb).
  unfold MDNode_get. cbn [existsb isTemporary orb].
  step_by (unfold bind, allocate, with_builder, ret; cbn; reflexivity).
  step_by (unfold replaceOperandWith, bind, get, nonnull, with_builder, ret;
           cbn; rewrite lookup_insert_eq; cbn; reflexivity).
  match goal with
  | |- context [bind (mapLoopOptionsMetadata_if attr ?n) _ ?st] =>
      destruct (mapLoopOptionsMetadata_if_Ok attr n st) as [mt1 H1]
  end.
  step_by (exact H1).
  match goal with
  | |- context [bind (mapLoopOptionsMetadata_if altAttr ?n) _ ?st] =>
      destruct (mapLoopOptionsMetadata_if_Ok altAttr n st) as [mt2 H2]
  end.
  step_by (exact H2).
  eexists. eexists. reflexivity.
Qed.

(** Without an entry for the cache key, [setLoopMetadata] returns exactly
    when the operands of the new node can be built. *)
Lemma setLoopMetadata_miss_returns E op inst key i s :
  loopCacheKey E op = Some key ->
  loopOptionsMetadataMapping (moduleTranslation s) !! attr_impl key = None ->
  instructions (builder s) !! inst = Some i ->
  (exists s', setLoopMetadata E op inst s = Ok tt s')
  <-> (exists l s1,
         buildLoopOptions E op (getAttr op (getLoopAttrName E)) s = Ok l s1).
Proof.
  intros Hkey Hmiss Hi.
  rewrite (setLoopMetadata_on_miss E op inst key s Hkey Hmiss).
  split.
  - intros (s' & H).
    apply bind_Ok_inv in H as (node & s2 & H & _).
    apply bind_Ok_inv in H as (l & s1 & H & _).
    by exists l, s1.
  - intros (l & s1 & Hb).
    destruct (buildLoopNode_returns E op _ (getAltAttr op) l s s1 Hb)
      as (node & s2 & Hnode).
    destruct (buildLoopNode_spec _ _ _ _ _ _ _ Hnode)
      as (a & xs & _ & _ & _ & _ & _ & Hi2 & _).
    step_by (exact Hnode).
    unfold setMetadata, updateInstruction, bind, get, nonnull, with_builder.
    rewrite Hi2, Hi. cbn. eexists. reflexivity.
Qed.

Lemma getAltAttr_firstPresent (op : Operation) :
  getAltAttr op = firstPresent op legacyLoopAttrNames.
Proof.
  unfold getAltAttr, legacyLoopAttrNames. cbn [firstPresent].
  repeat (match goal with
          | |- context [getAttr op ?n] =>
              destruct (getAttr op n); cbn [orElse]; [reflexivity |]
          end).
  reflexivity.
Qed.

(** C10: of the twelve attribute names of the extensions, the first one
    present on the operation, in the order from [llvm.loop.name] to
    [llvm.loop.tripcount], is the alternate attribute, and its cache entry
    alone decides what the branch gets, whatever the entries of the
    primary attribute and of the other names.  If it has an entry,
    [setLoopMetadata] returns with that node attached and the cache
    unchanged.  If it has none, a node is built: [setLoopMetadata] returns
    exactly when the operands of the node can be built, and then a node at
    a new address is attached, also when the primary attribute has an
    entry, whose node is then not reused; the new node is entered under
    the alternate attribute, and no entry changes but those of the
    alternate and the primary attribute. *)
Theorem legacy_attribute_is_the_cache_key (E : Env) (op : Operation)
    (inst : positive) (alt : Attribute) (i : Instruction) (s : State) :
  firstPresent op legacyLoopAttrNames = Some alt ->
  instructions (builder s) !! inst = Some i ->
  length legacyLoopAttrNames = 12%nat
  /\ getAltAttr op = Some alt
  /\ (forall n,
        loopOptionsMetadataMapping (moduleTranslation s) !! attr_impl alt
          = Some n ->
        exists s',
          setLoopMetadata E op inst s = Ok tt s'
          /\ loopNodeOf s' inst = Some n
          /\ moduleTranslation s' = moduleTranslation s
          /\ mdNodes (builder s') = mdNodes (builder s)
          /\ nextAddr (builder s') = nextAddr (builder s))
  /\ (loopOptionsMetadataMapping (moduleTranslation s) !! attr_impl alt = None ->
      ((exists s', setLoopMetadata E op inst s = Ok tt s')
       <-> (exists l s1,
              buildLoopOptions E op (getAttr op (getLoopAttrName E)) s
              = Ok l s1))
      /\ forall s',
           setLoopMetadata E op inst s = Ok tt s' ->
           exists a,
             loopNodeOf s' inst = Some (MDNodeRef a)
             /\ (nextAddr (builder s) < a)%positive
             /\ loopOptionsMetadataMapping (moduleTranslation s')
                  !! attr_impl alt = Some (MDNodeRef a)
             /\ (forall k,
                   k <> attr_impl alt ->
                   (forall p, getAttr op (getLoopAttrName E) = Some p ->
                              k <> attr_impl p) ->
                   loopOptionsMetadataMapping (moduleTranslation s') !! k
                     = loopOptionsMetadataMapping (moduleTranslation s) !! k)
             /\ (forall p n1,
                   getAttr op (getLoopAttrName E) = Some p ->
                   loopOptionsMetadataMapping (moduleTranslation s)
                     !! attr_impl p = Some n1 ->
                   allocatedBefore s n1 ->
                   MDNodeRef a <> n1)).
Proof.
  intros Hfirst Hinst.
  assert (Halt : getAltAttr op = Some alt)
    by (by rewrite getAltAttr_firstPresent).
  assert (Hkey : loopCacheKey E op = Some alt)
    by (unfold loopCacheKey; by rewrite Halt).
  split; [reflexivity |].
  split; [exact Halt |].
  split.
  - intros n Hn.
    eexists. split; [exact (setLoopMetadata_hit E op inst alt n i s Hkey Hn Hinst) |].
    unfold loopNodeOf. cbn. rewrite lookup_insert_eq. cbn.
    rewrite getKind_setKind_eq. repeat apply conj; reflexivity.
  - intros Hnone.
    split; [exact (setLoopMetadata_miss_returns E op inst alt i s Hkey Hnone Hinst) |].
    intros s' Hrun.
    destruct (setLoopMetadata_registers _ _ _ _ _ _ Hrun Hkey)
      as (node & Hnode & Hreg).
    apply setLoopMetadata_spec in Hrun. rewrite Hkey, Hnone in Hrun.
    destruct Hrun as (node' & i0 & Hi & Hi' & _ & _ & a & xs & -> & Hlo & _ & _ & Hmt).
    assert (node = MDNodeRef a) as ->.
    { unfold loopNodeOf in Hnode. rewrite Hi', lookup_insert_eq in Hnode.
      cbn in Hnode. rewrite getKind_setKind_eq in Hnode. congruence. }
    exists a. repeat apply conj; try done.
    + intros k Hk Hp. rewrite Hmt. cbn.
      rewrite cacheAfter_lookup_ne by (intros ? ?; congruence).
      apply cacheAfter_lookup_ne. auto.
    + intros p n1 _ _ Hold Heq. subst n1. cbn in Hold. lia.
Qed.

(** The first branch carries the primary attribute [loopDict], already
    cached by an earlier branch, a trip count, and a vectorize width
    without a cache entry: the width, which comes before the trip count in
    the order of the names, is the key, and the branch gets a new node,
    not the node cached under [loopDict].  The second branch carries the
    same width attribute and a malformed trip count: it gets the node
    cached under the width, and its trip count is never read. *)
Lemma legacy_attribute_is_the_cache_key_witness :
  let s1 := stateAfter (setLoopMetadata Examples.env Examples.br_primary 1)
              Examples.state_two_branches in
  let s2 := stateAfter
              (setLoopMetadata Examples.env Examples.br_width_tripcount 2) s1 in
  loopOptionsMetadataMapping (moduleTranslation s1)
    !! attr_impl Examples.loopDict = Some (MDNodeRef 4)
  /\ (exists a,
        setLoopMetadata Examples.env Examples.br_width_tripcount 2 s1
          = Ok tt s2
        /\ loopNodeOf s2 2 = Some (MDNodeRef a)
        /\ (nextAddr (builder s1) < a)%positive
        /\ loopOptionsMetadataMapping (moduleTranslation s2)
             !! attr_impl (Examples.int32 79 4) = Some (MDNodeRef a)
        /\ MDNodeRef a <> MDNodeRef 4
        /\ exists s3,
             setLoopMetadata Examples.env Examples.br_width_short 1 s2
               = Ok tt s3
             /\ loopNodeOf s3 1 = Some (MDNodeRef a)).
Proof.
  intros s1 s2.
  assert (Hc : loopOptionsMetadataMapping (moduleTranslation s1)
                 !! attr_impl Examples.loopDict = Some (MDNodeRef 4))
    by (vm_compute; reflexivity).
  split; [exact Hc |].
  assert (Hrun : setLoopMetadata Examples.env Examples.br_width_tripcount 2 s1
                 = Ok tt s2)
    by (vm_compute; reflexivity).
  destruct (legacy_attribute_is_the_cache_key Examples.env
              Examples.br_width_tripcount 2%positive (Examples.int32 79 4)
              (mkInstruction (BranchInst 101%positive) []) s1)
    as (_ & _ & _ & Hbuilt).
  { reflexivity. }
  { vm_compute. reflexivity. }
  destruct Hbuilt as [_ Hbuilt]; [vm_compute; reflexivity |].
  destruct (Hbuilt s2 Hrun) as (a & Hnode & Hlo & Hreg & _ & Hnew).
  exists a. repeat apply conj; try assumption.
  - apply (Hnew Examples.loopDict (MDNodeRef 4) eq_refl Hc).
    vm_compute. reflexivity.
  - assert (Hi : exists i, instructions (builder s2) !! 1%positive = Some i)
      by (eexists; vm_compute; reflexivity).
    destruct Hi as [i Hi].
    destruct (legacy_attribute_is_the_cache_key Examples.env
                Examples.br_width_short 1%positive (Examples.int32 79 4)
                i s2 eq_refl Hi)
      as (_ & _ & Hhit & _).
    destruct (Hhit (MDNodeRef a) Hreg) as (s3 & Hrun3 & Hnode3 & _).
    exists s3. split; assumption.
Defined.

(** [setLoopMetadata] leaves the instruction it is given as it is, but for
    the attachment of kind [llvm.loop]. *)
Lemma setLoopMetadata_preserves E opInst llvmInst s s' (i : Instruction) :
  setLoopMetadata E opInst llvmInst s = Ok tt s' ->
  instructions (builder s) !! llvmInst = Some i ->
  exists i',
    instructions (builder s') !! llvmInst = Some i'
    /\ inst_kind i' = inst_kind i
    /\ forall kind, kind <> "llvm.loop"%string ->
         getKind kind (inst_metadata i') = getKind kind (inst_metadata i).
Proof.
  intros H Hi. apply setLoopMetadata_spec in H.
  destruct (loopCacheKey E opInst) as [key|].
  - destruct H as (node & i0 & Hi0 & Hi' & _).
    rewrite Hi in Hi0. injection Hi0 as <-.
    eexists. rewrite Hi', lookup_insert_eq. split; [reflexivity |]. cbn.
    split; [reflexivity |]. intros kind Hk.
    apply getKind_setKind_ne. congruence.
  - subst s'. exists i. auto.
Qed.

(** ** Conditional branches *)

(** The conditional-branch emitter up to the loop metadata: the branch is
    emitted with the weights as its [!prof] attachment and recorded as the
    branch of the operation. *)
Lemma convertCondBrOp_prefix (E : Env) (op : Operation) (weights : Attribute)
    (w0 w1 : APInt) (c : Value) (cond : llvm_Value) (succ0 succ1 : Block)
    (b0 b1 : llvm_BasicBlock) (s : State) :
  getBranchWeights op = Some weights ->
  attr_value weights = DenseIntElementsAttr [w0; w1] ->
  op_operands op !! 0%nat = Some c ->
  valueMapping (moduleTranslation s) !! value_impl c = Some cond ->
  op_successors op !! 0%nat = Some succ0 ->
  blockMapping (moduleTranslation s) !! succ0 = Some b0 ->
  op_successors op !! 1%nat = Some succ1 ->
  blockMapping (moduleTranslation s) !! succ1 = Some b1 ->
  branchMapping (moduleTranslation s) !! op_impl op = None ->
  let s1 :=
    stateAfter
      (branch <- CreateCondBr cond b0 b1
                   (Some (createBranchWeights [to_uint32 (getSExtValue w0);
                                               to_uint32 (getSExtValue w1)])) ;;
       mapBranch op branch) s in
  convertCondBrOp E op s
    = (setLoopMetadata E op (nextAddr (builder s)) ;;; ret success) s1
  /\ instructions (builder s1) !! nextAddr (builder s)
     = Some (mkInstruction (CondBranchInst cond b0 b1)
               [("prof"%string,
                 createBranchWeights [to_uint32 (getSExtValue w0);
                                      to_uint32 (getSExtValue w1)])])
  /\ branchMapping (moduleTranslation s1) !! op_impl op
     = Some (nextAddr (builder s))
  /\ insertBlock (builder s1)
     = insertBlock (builder s) ++ [nextAddr (builder s)]
  /\ loopOptionsMetadataMapping (moduleTranslation s1)
     = loopOptionsMetadataMapping (moduleTranslation s).
Proof.
  intros Hw Hv Hc Hcond Hs0 Hb0 Hs1 Hb1 Hbr s1.
  assert (Hstate : exists s', s1 = s' /\
    (branch <- CreateCondBr cond b0 b1
                 (Some (createBranchWeights [to_uint32 (getSExtValue w0);
                                             to_uint32 (getSExtValue w1)])) ;;
     mapBranch op branch) s = Ok tt s').
  { subst s1. unfold stateAfter.
    unfold CreateCondBr, Insert, allocate, mapBranch, with_builder, with_mt,
      bind, get, nonnull.
    cbn. rewrite Hbr. cbn. eexists. split; reflexivity. }
  destruct Hstate as (s' & Heq & Hemit). clearbody s1. subst s'.
  split.
  - unfold convertCondBrOp. rewrite Hw. unfold cast_DenseIntElementsAttr.
    rewrite Hv.
    revert Hemit.
    unfold at_index, lookupValue, lookupBlock, CreateCondBr, Insert, allocate,
      mapBranch, with_builder, with_mt, bind, get, nonnull.
    cbn. rewrite Hc. cbn. rewrite Hcond. cbn. rewrite Hs0. cbn.
    rewrite Hb0. cbn. rewrite Hs1. cbn. rewrite Hb1. cbn. rewrite Hbr. cbn.
    intros [= <-]. reflexivity.
  - revert Hemit.
    unfold CreateCondBr, Insert, allocate, mapBranch, with_builder, with_mt,
      bind, get, nonnull.
    cbn. rewrite Hbr. cbn. intros [= <-]. cbn.
    rewrite !lookup_insert_eq. auto.
Qed.

(** C3: lowering a conditional branch that carries the two-element
    branch-weight attribute [(w0, w1)] emits a conditional branch whose
    branch-weight metadata is [branch_weights] followed by the two weights
    in that order, each the weight sign-extended and then truncated to 32
    bits.  The branch is emitted with these weights before the loop
    metadata is looked at, and the lowering is that emission followed by
    [setLoopMetadata] on the branch: it returns success, with the weights
    still attached, whenever [setLoopMetadata] returns.  So it returns
    success when the branch carries no loop attribute, when the cache key
    of the branch has an entry, whose node is attached after the weights,
    and when it has none and the operands of the loop node can be
    built. *)
Theorem condbr_branch_weights (E : Env) (op : Operation) (weights : Attribute)
    (w0 w1 : APInt) (c : Value) (cond : llvm_Value) (succ0 succ1 : Block)
    (b0 b1 : llvm_BasicBlock) (s : State) :
  getBranchWeights op = Some weights ->
  attr_value weights = DenseIntElementsAttr [w0; w1] ->
  op_operands op !! 0%nat = Some c ->
  valueMapping (moduleTranslation s) !! value_impl c = Some cond ->
  op_successors op !! 0%nat = Some succ0 ->
  blockMapping (moduleTranslation s) !! succ0 = Some b0 ->
  op_successors op !! 1%nat = Some succ1 ->
  blockMapping (moduleTranslation s) !! succ1 = Some b1 ->
  branchMapping (moduleTranslation s) !! op_impl op = None ->
  let branchWeights :=
    MDTuple [MDString "branch_weights";
             ConstantAsMetadata
               (ConstantInt (IntegerTy 32) (getSExtValue w0 mod 2 ^ 32));
             ConstantAsMetadata
               (ConstantInt (IntegerTy 32) (getSExtValue w1 mod 2 ^ 32))] in
  let a := nextAddr (builder s) in
  let weighted (s' : State) :=
    exists i,
      instructions (builder s') !! a = Some i
      /\ inst_kind i = CondBranchInst cond b0 b1
      /\ getKind "prof" (inst_metadata i) = Some branchWeights in
  let s1 :=
    stateAfter
      (branch <- CreateCondBr cond b0 b1 (Some branchWeights) ;;
       mapBranch op branch) s in
  convertCondBrOp E op s = (setLoopMetadata E op a ;;; ret success) s1
    /\ instructions (builder s1) !! a
       = Some (mkInstruction (CondBranchInst cond b0 b1)
                             [("prof"%string, branchWeights)])
    /\ (forall s',
          setLoopMetadata E op a s1 = Ok tt s' ->
          convertCondBrOp E op s = Ok success s' /\ weighted s')
    /\ (forall r s',
          convertCondBrOp E op s = Ok r s' -> r = success /\ weighted s')
    /\ (loopCacheKey E op = None -> convertCondBrOp E op s = Ok success s1)
    /\ (forall key node,
          loopCacheKey E op = Some key ->
          loopOptionsMetadataMapping (moduleTranslation s) !! attr_impl key
            = Some node ->
          exists s',
            convertCondBrOp E op s = Ok success s'
            /\ instructions (builder s') !! a
               = Some (mkInstruction (CondBranchInst cond b0 b1)
                         [("prof"%string, branchWeights);
                          ("llvm.loop"%string, node)]))
    /\ (forall key l s2,
          loopCacheKey E op = Some key ->
          loopOptionsMetadataMapping (moduleTranslation s) !! attr_impl key
            = None ->
          buildLoopOptions E op (getAttr op (getLoopAttrName E)) s1
            = Ok l s2 ->
          exists s', convertCondBrOp E op s = Ok success s' /\ weighted s').
Proof.
  intros Hw Hv Hc Hcond Hs0 Hb0 Hs1 Hb1 Hbr branchWeights a weighted s1.
  destruct (convertCondBrOp_prefix E op weights w0 w1 c cond succ0 succ1 b0 b1 s)
    as (Hrun & Hi & _ & _ & Hcache); try assumption.
  change (convertCondBrOp E op s
          = (setLoopMetadata E op a ;;; ret success) s1) in Hrun.
  change (instructions (builder s1) !! a
          = Some (mkInstruction (CondBranchInst cond b0 b1)
                    [("prof"%string, branchWeights)])) in Hi.
  change (loopOptionsMetadataMapping (moduleTranslation s1)
          = loopOptionsMetadataMapping (moduleTranslation s)) in Hcache.
  clearbody s1.
  assert (Hafter : forall s',
            setLoopMetadata E op a s1 = Ok tt s' ->
            convertCondBrOp E op s = Ok success s' /\ weighted s').
  { intros s' Hloop. split.
    - rewrite Hrun. step_by (exact Hloop). reflexivity.
    - destruct (setLoopMetadata_preserves _ _ _ _ _ _ Hloop Hi)
        as (i' & Hi' & Hk & Hmd).
      exists i'. split; [exact Hi' |]. split; [exact Hk |].
      rewrite Hmd by discriminate. reflexivity. }
  repeat apply conj.
  - exact Hrun.
  - exact Hi.
  - exact Hafter.
  - intros r s' H. rewrite Hrun in H.
    apply bind_Ok_inv in H as ([] & s2 & Hloop & Hret).
    injection Hret as <- <-. split; [reflexivity |].
    apply (Hafter s2 Hloop).
  - intros Hkey. apply Hafter.
    unfold setLoopMetadata. unfold loopCacheKey in Hkey.
    destruct (getAltAttr op); [discriminate |]. rewrite Hkey. reflexivity.
  - intros key node Hkey Hnode. rewrite <- Hcache in Hnode.
    pose proof (setLoopMetadata_hit E op a key node _ s1 Hkey Hnode Hi)
      as Hloop.
    eexists. split; [exact (proj1 (Hafter _ Hloop)) |].
    cbn. apply lookup_insert_eq.
  - intros key l s2 Hkey Hmiss Hbuild. rewrite <- Hcache in Hmiss.
    destruct (proj2 (setLoopMetadata_miss_returns E op a key _ s1
                       Hkey Hmiss Hi)) as [s' Hloop].
    { by exists l, s2. }
    exists s'. apply Hafter. exact Hloop.
Qed.

(** Weights (7, 3) give branch weights 7 then 3: on a branch without
    loop attribute, and on a branch with a loop name that has no cache
    entry, which gets its loop node beside the weights. *)
Lemma condbr_branch_weights_witness :
  (exists s',
      convertCondBrOp Examples.env Examples.condbr_7_3 Examples.state
        = Ok success s'
      /\ instructions (builder s') !! 1%positive
         = Some (mkInstruction
                   (CondBranchInst (Argument 1 (IntegerTy 1)) 101%positive
                      102%positive)
                   [("prof"%string,
                     MDTuple [MDString "branch_weights";
                              ConstantAsMetadata (ConstantInt (IntegerTy 32) 7);
                              ConstantAsMetadata (ConstantInt (IntegerTy 32) 3)])]))
  /\ (exists s' i,
        convertCondBrOp Examples.env Examples.condbr_7_3_loop Examples.state
          = Ok success s'
        /\ instructions (builder s') !! 1%positive = Some i
        /\ getKind "prof" (inst_metadata i)
           = Some (MDTuple [MDString "branch_weights";
                            ConstantAsMetadata (ConstantInt (IntegerTy 32) 7);
                            ConstantAsMetadata (ConstantInt (IntegerTy 32) 3)])).
Proof.
  split.
  - destruct (condbr_branch_weights Examples.env Examples.condbr_7_3
                (mkAttribute 90
                   (DenseIntElementsAttr [mkAPInt 32 7; mkAPInt 32 3]))
                (mkAPInt 32 7) (mkAPInt 32 3) Examples.condition
                (Argument 1 (IntegerTy 1)) 1%positive 2%positive
                101%positive 102%positive Examples.state
                eq_refl eq_refl eq_refl eq_refl eq_refl eq_refl eq_refl
                eq_refl eq_refl)
      as (_ & Hi & _ & _ & Hnone & _).
    eexists. split; [apply Hnone; reflexivity | exact Hi].
  - destruct (condbr_branch_weights Examples.env Examples.condbr_7_3_loop
                (mkAttribute 90
                   (DenseIntElementsAttr [mkAPInt 32 7; mkAPInt 32 3]))
                (mkAPInt 32 7) (mkAPInt 32 3) Examples.condition
                (Argument 1 (IntegerTy 1)) 1%positive 2%positive
                101%positive 102%positive Examples.state
                eq_refl eq_refl eq_refl eq_refl eq_refl eq_refl eq_refl
                eq_refl eq_refl)
      as (_ & _ & _ & _ & _ & _ & Hmiss).
    edestruct (Hmiss (Examples.loopName 73)) as (s' & Hok & i & Hi & _ & Hprof).
    + reflexivity.
    + reflexivity.
    + vm_compute. reflexivity.
    + exists s', i. repeat apply conj; assumption.
Defined.

(** The 32-bit weight -1 becomes 4294967295, the 64-bit weight 2^32 + 5
    becomes 5. *)
Example condbr_branch_weights_edge :
  exists i,
    instructions
      (builder (stateAfter (convertCondBrOp Examples.env Examples.condbr_edge)
                  Examples.state)) !! 1%positive = Some i
    /\ inst_metadata i
       = [("prof"%string,
           MDTuple [MDString "branch_weights";
                    ConstantAsMetadata (ConstantInt (IntegerTy 32) 4294967295);
                    ConstantAsMetadata (ConstantInt (IntegerTy 32) 5)])].
Proof. eexists. split; vm_compute; reflexivity. Qed.

(** ** Switches *)

(** The case loop of the switch emitter appends one case per pair of a
    case value and a destination, in the order of the pairs, and changes
    nothing else. *)
Lemma addCase_loop (sw : positive) (n : N) (caseValues : list APInt) :
  forall (dests : list Block) (blocks : list llvm_BasicBlock) s v d k cases md,
    Forall2 (fun b lb => blockMapping (moduleTranslation s) !! b = Some lb)
            dests blocks ->
    instructions (builder s) !! sw
      = Some (mkInstruction (SwitchInst v d k cases) md) ->
    exists s',
      forM_ (fun i =>
               onVal <- ConstantInt_get (IntegerTy n) (getLimitedValue (fst i)) ;;
               dest <- lookupBlock (snd i) ;;
               addCase sw onVal dest)
            (zip_shortest caseValues dests) s = Ok tt s'
      /\ instructions (builder s') !! sw
         = Some (mkInstruction
                   (SwitchInst v d k
                      (cases ++
                       map (fun i => (ConstantInt (IntegerTy n)
                                        (getLimitedValue (fst i) mod 2 ^ Z.of_N n),
                                      snd i))
                           (zip_shortest caseValues blocks)))
                   md)
      /\ moduleTranslation s' = moduleTranslation s
      /\ insertBlock (builder s') = insertBlock (builder s)
      /\ diagnostics s' = diagnostics s.
Proof.
  induction caseValues as [|cv caseValues IH];
    intros dests blocks s v d k cases md Hd Hi.
  - exists s. cbn. by rewrite app_nil_r.
  - destruct Hd as [|b lb dests blocks Hb Hd].
    { exists s. cbn. by rewrite app_nil_r. }
    cbn [zip_shortest forM_ map fst snd].
    set (c := (ConstantInt (IntegerTy n) (getLimitedValue cv mod 2 ^ Z.of_N n), lb)).
    set (s1 := mkState (moduleTranslation s)
                 (mkIRBuilder (FMF (builder s)) (insertBlock (builder s))
                    (<[sw := mkInstruction (SwitchInst v d k (cases ++ [c])) md]>
                       (instructions (builder s)))
                    (mdNodes (builder s)) (nextAddr (builder s)))
                 (diagnostics s)).
    assert (Hstep :
      (onVal <- ConstantInt_get (IntegerTy n) (getLimitedValue cv) ;;
       dest <- lookupBlock b ;;
       addCase sw onVal dest) s = Ok tt s1).
    { unfold ConstantInt_get, lookupBlock, addCase, updateInstruction, bind,
        get, nonnull, with_builder. cbn. rewrite Hb. cbn. rewrite Hi.
      reflexivity. }
    destruct (IH dests blocks s1 v d k (cases ++ [c]) md)
      as (s' & Hrun & Hi' & Hmt & Hib & Hdg).
    { exact Hd. }
    { subst s1. cbn. apply lookup_insert_eq. }
    exists s'. rewrite (bind_Ok _ _ _ _ _ Hstep), Hrun.
    rewrite <- app_assoc in Hi'. auto.
Qed.

(** C4: lowering a switch whose value and destinations are mapped emits a
    switch with one case per pair of a case value and a case destination,
    in the order the operation gives them; nothing is sorted and no case is
    dropped for having the value of an earlier case. *)
Theorem switch_case_order (E : Env) (op : Operation) (v : Value)
    (value : llvm_Value) (d : Block) (defaultDest : llvm_BasicBlock) (n : N)
    (caseValuesAttr : Attribute) (caseValues : list APInt)
    (blocks : list llvm_BasicBlock) (s : State) :
  op_operands op !! 0%nat = Some v ->
  valueMapping (moduleTranslation s) !! value_impl v = Some value ->
  op_successors op !! 0%nat = Some d ->
  blockMapping (moduleTranslation s) !! d = Some defaultDest ->
  convertType E (value_type v) = IntegerTy n ->
  getCaseValues op = Some caseValuesAttr ->
  attr_value caseValuesAttr = DenseIntElementsAttr caseValues ->
  Forall2 (fun b lb => blockMapping (moduleTranslation s) !! b = Some lb)
          (getCaseDestinations op) blocks ->
  branchMapping (moduleTranslation s) !! op_impl op = None ->
  match getBranchWeights op with
  | Some weights => exists ws, attr_value weights = DenseIntElementsAttr ws
  | None => True
  end ->
  exists s' md,
    convertSwitchOp E op s = Ok success s'
    /\ instructions (builder s') !! nextAddr (builder s)
       = Some (mkInstruction
                 (SwitchInst value defaultDest (length (getCaseDestinations op))
                    (map (fun i => (ConstantInt (IntegerTy n)
                                      (getLimitedValue (fst i) mod 2 ^ Z.of_N n),
                                    snd i))
                         (zip_shortest caseValues blocks)))
                 md)
    /\ branchMapping (moduleTranslation s') !! op_impl op
       = Some (nextAddr (builder s))
    /\ insertBlock (builder s') = insertBlock (builder s) ++ [nextAddr (builder s)].
Proof.
  intros Hv Hvalue Hd Hdefault Hty Hcv Hcvs Hdests Hbr Hw.
  assert (Hweights : exists bw,
            match getBranchWeights op with
            | Some weights =>
                ws <- cast_DenseIntElementsAttr weights ;;
                let weightValues :=
                  map (fun weight => to_uint32 (getLimitedValue weight)) ws in
                ret (Some (createBranchWeights weightValues))
            | None => ret None
            end s = Ok bw s).
  { destruct (getBranchWeights op) as [weights|]; [| by eexists].
    destruct Hw as [ws Hws]. eexists.
    unfold cast_DenseIntElementsAttr, bind. rewrite Hws. reflexivity. }
  destruct Hweights as [bw Hweights].
  set (a := nextAddr (builder s)).
  set (sw0 := mkInstruction
                (SwitchInst value defaultDest (length (getCaseDestinations op)) [])
                (profMetadata bw)).
  set (s1 := mkState (moduleTranslation s)
               (mkIRBuilder (FMF (builder s)) (insertBlock (builder s) ++ [a])
                  (<[a := sw0]> (instructions (builder s)))
                  (mdNodes (builder s)) (Pos.succ a))
               (diagnostics s)).
  destruct (addCase_loop a n caseValues (getCaseDestinations op) blocks s1
              value defaultDest (length (getCaseDestinations op)) []
              (profMetadata bw))
    as (s2 & Hloop & Hi2 & Hmt2 & Hib2 & Hd2).
  { exact Hdests. }
  { subst s1. cbn. apply lookup_insert_eq. }
  assert (Hbr2 : branchMapping (moduleTranslation s2) !! op_impl op = None)
    by (rewrite Hmt2; exact Hbr).
  eexists. exists (profMetadata bw). split.
  { unfold convertSwitchOp.
    step_by (exact Hweights).
    step_by (apply at_index_Ok; exact Hv).
    step_by (apply lookupValue_Ok; exact Hvalue).
    step_by (apply at_index_Ok; exact Hd).
    step_by (apply lookupBlock_Ok; exact Hdefault).
    assert (Hcreate : CreateSwitch value defaultDest
                        (length (getCaseDestinations op)) bw s = Ok a s1)
      by reflexivity.
    step_by (exact Hcreate).
    rewrite Hty. step_by reflexivity.
    rewrite Hcv. step_by reflexivity.
    unfold cast_DenseIntElementsAttr. rewrite Hcvs. step_by reflexivity.
    step_by (exact Hloop).
    step_by (apply mapBranch_Ok; exact Hbr2).
    reflexivity. }
  cbn. rewrite lookup_insert_eq, Hib2. subst s1; cbn.
  repeat apply conj; try reflexivity. exact Hi2.
Qed.

(** Case values [5, 1, 9] to the blocks of 2, 3 and 4 give the case list
    (5, 102), (1, 103), (9, 104). *)
Lemma switch_case_order_witness :
  exists s' md,
    convertSwitchOp Examples.env Examples.switch_5_1_9 Examples.state
      = Ok success s'
    /\ instructions (builder s') !! 1%positive
       = Some (mkInstruction
                 (SwitchInst (ConstantInt (IntegerTy 32) 42) 101%positive 3
                    [(ConstantInt (IntegerTy 32) 5, 102%positive);
                     (ConstantInt (IntegerTy 32) 1, 103%positive);
                     (ConstantInt (IntegerTy 32) 9, 104%positive)])
                 md)
    /\ branchMapping (moduleTranslation s') !! 40%positive = Some 1%positive
    /\ insertBlock (builder s') = [1%positive].
Proof.
  apply (switch_case_order Examples.env Examples.switch_5_1_9 Examples.constA
           (ConstantInt (IntegerTy 32) 42) 1%positive 101%positive 32%N
           (mkAttribute 91
              (DenseIntElementsAttr [mkAPInt 32 5; mkAPInt 32 1; mkAPInt 32 9]))
           [mkAPInt 32 5; mkAPInt 32 1; mkAPInt 32 9]
           [102%positive; 103%positive; 104%positive] Examples.state).
  - reflexivity.
  - reflexivity.
  - reflexivity.
  - reflexivity.
  - reflexivity.
  - reflexivity.
  - reflexivity.
  - repeat constructor.
  - reflexivity.
  - exact I.
Defined.

(** A case value that occurs twice gives two cases. *)
Example switch_keeps_duplicates :
  exists i,
    instructions
      (builder (stateAfter (convertSwitchOp Examples.env Examples.switch_duplicates)
                  Examples.state)) !! 1%positive = Some i
    /\ inst_kind i
       = SwitchInst (ConstantInt (IntegerTy 32) 42) 101%positive 3
           [(ConstantInt (IntegerTy 32) 5, 102%positive);
            (ConstantInt (IntegerTy 32) 5, 103%positive);
            (ConstantInt (IntegerTy 32) 1, 104%positive)].
Proof. eexists. split; vm_compute; reflexivity. Qed.

(** The source reads the case values without testing that the switch
    carries any: the lowering of a switch without case values does not
    return. *)
Example switch_without_case_values :
  returned (convertSwitchOp Examples.env Examples.switch_no_cases
              Examples.state) = None.
Proof. reflexivity. Qed.

(** ** Intrinsic calls *)

(** C8: lowering an intrinsic call whose name LLVM does not know reports
    an error on the operation and returns failure; so does lowering a call
    to an overloaded intrinsic when the function type made of the converted
    operand types and of the converted result type (void for a call without
    result) does not match the intrinsic's table.  In both cases the
    lowering returns, and emits nothing.  The declaration of an intrinsic
    that is not overloaded is fetched with no type arguments, and called. *)
Theorem intrinsic_call_errors (E : Env) (op : Operation) (impl : positive)
    (intrin : string) (s : State) :
  getAttr op "intrin" = Some (mkAttribute impl (StringAttr intrin)) ->
  let id := lookupIntrinsicID E intrin in
  let resTy := match op_results op with
               | [] => VoidTy
               | r :: _ => convertType E (value_type r)
               end in
  let ft := FunctionTy resTy
              (map (fun v => convertType E (value_type v)) (op_operands op))
              false in
  let report msg :=
    Ok failure (mkState (moduleTranslation s) (builder s)
                        (diagnostics s ++ [(op_impl op, msg)])) in
  (id = 0%N ->
   convertCallLLVMIntrinsicOp E op s
     = report ("couldn't find intrinsic: " ++ intrin)%string)
  /\ (id <> 0%N -> isOverloaded E id = true ->
      fst (matchIntrinsicSignature E ft (getIntrinsicInfoTableEntries E id))
        <> MatchIntrinsicTypes_Match ->
      convertCallLLVMIntrinsicOp E op s
        = report "intrinsic type is not a match"%string)
  /\ (id <> 0%N -> isOverloaded E id = false ->
      forall vals r ps va,
        Forall2 (fun v l => valueMapping (moduleTranslation s) !! value_impl v
                            = Some l) (op_operands op) vals ->
        (forall res, op_results op = [res] ->
                     valueMapping (moduleTranslation s) !! value_impl res = None) ->
        getIntrinsicType E id [] = FunctionTy r ps va ->
        exists s',
          convertCallLLVMIntrinsicOp E op s = Ok success s'
          /\ instructions (builder s') !! nextAddr (builder s)
             = Some (mkInstruction
                       (CallInst (FunctionTy r ps va) (getDeclaration E id [])
                                 vals [])
                       [])
          /\ diagnostics s' = diagnostics s).
Proof.
  intros Hattr id resTy ft report.
  assert (Hname : getIntrinAttr op s = Ok intrin s).
  { unfold getIntrinAttr, bind, nonnull, cast_StringAttr. by rewrite Hattr. }
  unfold convertCallLLVMIntrinsicOp. step_by (exact Hname). fold id.
  repeat apply conj.
  - intros ->. reflexivity.
  - intros Hid Hov Hmatch. apply N.eqb_neq in Hid. rewrite Hid, Hov.
    assert (Hdecl : getOverloadedDeclaration E op id s
                    = Ok None (mkState (moduleTranslation s) (builder s)
                                 (diagnostics s
                                  ++ [(op_impl op,
                                       "intrinsic type is not a match"%string)]))).
    { unfold getOverloadedDeclaration, getNumResults, at_index, nonnull.
      assert (Hres : (if Nat.eqb (length (op_results op)) 0 then ret VoidTy
                      else r <- match op_results op !! 0%nat with
                                | Some a => ret a
                                | None => abort "index out of range"
                                end ;;
                           ret (convertType E (value_type r))) s
                     = Ok resTy s)
        by (subst resTy; destruct (op_results op); reflexivity).
      step_by (exact Hres). fold ft.
      destruct (fst (matchIntrinsicSignature E ft
                       (getIntrinsicInfoTableEntries E id)));
        [contradiction | reflexivity | reflexivity]. }
    step_by (exact Hdecl). reflexivity.
  - intros Hid Hov vals r ps va Hops Hfresh Hty.
    apply N.eqb_neq in Hid. rewrite Hid, Hov.
    step_by reflexivity.
    step_by (apply lookupValues_Ok; exact Hops).
    unfold CreateCallFn, getDeclaration, getFunctionType, CreateCall,
      getReturnType, Insert, allocate, with_builder, bind.
    cbn. rewrite Hty. cbn. unfold getNumResults.
    destruct (op_results op) as [|res [|res' rest]] eqn:Hr; cbn.
    + eexists. split; [reflexivity |]. cbn. by rewrite lookup_insert_eq.
    + unfold mapValue, bind, get, with_mt. cbn.
      rewrite (Hfresh res eq_refl). cbn.
      eexists. split; [reflexivity |]. cbn. by rewrite lookup_insert_eq.
    + eexists. split; [reflexivity |]. cbn. by rewrite lookup_insert_eq.
Qed.

(** An unknown name and a type mismatch are reported and fail; the
    declaration of [llvm.donothing] is fetched with no type arguments. *)
Lemma intrinsic_call_errors_witness :
  convertCallLLVMIntrinsicOp Examples.env Examples.call_unknown Examples.state
    = Ok failure
        (mkState (moduleTranslation Examples.state) (builder Examples.state)
           [(50%positive, "couldn't find intrinsic: llvm.nosuch"%string)])
  /\ convertCallLLVMIntrinsicOp Examples.env Examples.call_smax_mismatch
       Examples.state
     = Ok failure
         (mkState (moduleTranslation Examples.state) (builder Examples.state)
            [(51%positive, "intrinsic type is not a match"%string)])
  /\ exists s',
       convertCallLLVMIntrinsicOp Examples.env Examples.call_donothing
         Examples.state = Ok success s'
       /\ instructions (builder s') !! 1%positive
          = Some (mkInstruction
                    (CallInst (FunctionTy VoidTy [] false)
                       (IntrinsicDeclaration 1 [] (FunctionTy VoidTy [] false))
                       [] [])
                    [])
       /\ diagnostics s' = [].
Proof.
  split; [| split].
  - apply (proj1 (intrinsic_call_errors Examples.env Examples.call_unknown
                    92%positive "llvm.nosuch" Examples.state eq_refl)).
    reflexivity.
  - apply (proj1 (proj2 (intrinsic_call_errors Examples.env
                           Examples.call_smax_mismatch 92%positive "llvm.smax"
                           Examples.state eq_refl))).
    + vm_compute. discriminate.
    + reflexivity.
    + vm_compute. discriminate.
  - apply (proj2 (proj2 (intrinsic_call_errors Examples.env
                           Examples.call_donothing 92%positive "llvm.donothing"
                           Examples.state eq_refl))).
    + vm_compute. discriminate.
    + reflexivity.
    + constructor.
    + intros res [=].
    + reflexivity.
Defined.

(** ** Dispatch *)

(** C9: when no generated conversion matches, the special-case emitters
    are tried in the fixed order call, inline assembly, invoke, landing
    pad, unconditional branch, conditional branch, switch, address-of, and
    the first that matches the operation runs; a generated conversion that
    matches comes before them all; and for an operation that neither a
    generated conversion nor a special case matches, the entry point
    returns failure, with the fast-math flags of the builder restored. *)
Theorem unrecognized_operation_fails (E : Env) (op : Operation) :
  (forall s s1,
      generatedConversions E op s = Ok None s1 ->
      convertOperationBody E op s = firstMatchWins E op s1)
  /\ (forall s s1 r,
        generatedConversions E op s = Ok (Some r) s1 ->
        convertOperationBody E op s = Ok r s1)
  /\ (forall s s1,
        generatedConversions E op (enterOperation op s) = Ok None s1 ->
        op_name op ∉ [CallOp; InlineAsmOp; InvokeOp; LandingpadOp; BrOp;
                      CondBrOp; SwitchOp; AddressOfOp] ->
        convertOperation E op s
          = Ok failure (withFastMathFlags (FMF (builder s)) s1)).
Proof.
  assert (Hfirst : forall s s1,
            generatedConversions E op s = Ok None s1 ->
            convertOperationBody E op s = firstMatchWins E op s1).
  { intros s s1 H. unfold convertOperationBody. step_by (exact H).
    unfold firstMatchWins, specialCaseEmitters. cbn [List.find fst snd].
    repeat (match goal with
            | |- context [isa ?k op] => destruct (isa k op); [reflexivity |]
            end).
    reflexivity. }
  split; [exact Hfirst |]. split.
  - intros s s1 r H. unfold convertOperationBody. step_by (exact H).
    reflexivity.
  - intros s s1 H Hnone.
    unfold convertOperation, convertOperationImpl.
    step_by reflexivity.
    assert (Henter :
      match dyn_cast_FastmathFlagsInterface op with
      | Some fmf => setFastMathFlags (getFastmathFlags fmf)
      | None => ret tt
      end s = Ok tt (enterOperation op s)).
    { unfold enterOperation.
      destruct (dyn_cast_FastmathFlagsInterface op); reflexivity. }
    step_by (exact Henter).
    assert (Hbody : convertOperationBody E op (enterOperation op s)
                    = Ok failure s1).
    { rewrite (Hfirst _ _ H).
      unfold firstMatchWins, specialCaseEmitters, isa.
      cbn [List.find fst snd].
      repeat (match goal with
              | |- context [bool_decide (op_name op = ?k)] =>
                  rewrite (bool_decide_eq_false_2 (op_name op = k))
                    by (intros Heq; apply Hnone; rewrite Heq; set_solver)
              end).
      reflexivity. }
    step_by (exact Hbody). reflexivity.
Qed.

(** The operation [unrecognized] fails, and the fast-math flags of the
    builder are as before. *)
Lemma unrecognized_operation_fails_witness :
  convertOperation Examples.env Examples.unrecognized Examples.state
    = Ok failure Examples.state.
Proof.
  apply (proj2 (proj2 (unrecognized_operation_fails Examples.env
                         Examples.unrecognized))
           Examples.state
           (withFastMathFlags 3 Examples.state)).
  - reflexivity.
  - vm_compute. intros H.
    repeat (apply elem_of_cons in H as [H | H]; [discriminate |]).
    by apply elem_of_nil in H.
Defined.

(** * Further properties *)

(** ** Positions *)

(** X1: [extractPosition] keeps the number and the order of the indices,
    returns every index that fits 32 unsigned bits as it is, and wraps the
    others modulo 2^32. *)
Theorem extractPosition_indices (indices : list Z) :
  length (extractPosition indices) = length indices
  /\ (forall k i, indices !! k = Some i ->
        extractPosition indices !! k = Some (i mod 2 ^ 32))
  /\ (Forall (fun i => 0 <= i < 2 ^ 32) indices ->
      extractPosition indices = indices)
  /\ Forall (fun i => 0 <= i < 2 ^ 32) (extractPosition indices).
Proof.
  unfold extractPosition, to_uint32. repeat apply conj.
  - apply length_map.
  - intros k i Hk. by rewrite list_lookup_fmap, Hk.
  - induction 1 as [|i l Hi _ IH]; [done |].
    cbn. rewrite IH. f_equal. by apply Z.mod_small.
  - apply Forall_fmap, Forall_true. intros i. cbn.
    apply Z.mod_pos_bound. lia.
Qed.

(** The position [3, 0, -1]: the index -1 wraps to 4294967295. *)
Lemma extractPosition_indices_witness :
  extractPosition [3; 0] = [3; 0]
  /\ extractPosition [3; 0; -1] !! 2%nat = Some 4294967295.
Proof.
  split.
  - apply (proj1 (proj2 (proj2 (extractPosition_indices [3; 0])))).
    repeat constructor; lia.
  - apply (proj1 (proj2 (extractPosition_indices [3; 0; -1])) 2%nat (-1)).
    reflexivity.
Defined.

(** ** Fast-math flags as sets *)

Lemma land_pow2 (x k : Z) :
  0 <= k -> Z.land x (2 ^ k) = if Z.testbit x k then 2 ^ k else 0.
Proof.
  intros Hk. apply Z.bits_inj'. intros n Hn.
  rewrite Z.land_spec, Z.pow2_bits_eqb by done.
  destruct (Z.eqb_spec k n) as [<- | Hne].
  - destruct (Z.testbit x k); cbn.
    + rewrite Z.pow2_bits_eqb by done. by rewrite Z.eqb_refl.
    + by rewrite Z.bits_0.
  - rewrite andb_false_r. destruct (Z.testbit x k).
    + rewrite Z.pow2_bits_eqb by done. symmetry. by apply Z.eqb_neq.
    + by rewrite Z.bits_0.
Qed.

(** A source flag is present when its bit is set. *)
Lemma bitEnumContainsAll_pow2 (x k : Z) :
  0 <= k -> bitEnumContainsAll x (2 ^ k) = Z.testbit x k.
Proof.
  intros Hk. unfold bitEnumContainsAll. rewrite land_pow2 by done.
  destruct (Z.testbit x k).
  - apply Z.eqb_refl.
  - apply Z.eqb_neq. assert (0 < 2 ^ k) by (apply Z.pow_pos_nonneg; lia). lia.
Qed.

Lemma setFlag_true (F Flags : Z) :
  llvmFMF.setFlag F true Flags = Z.lor Flags F.
Proof.
  unfold llvmFMF.setFlag. cbn [Z.b2z]. rewrite Z.mul_1_l.
  apply Z.bits_inj'. intros n Hn.
  rewrite !Z.lor_spec, Z.land_spec, Z.lnot_spec by done.
  destruct (Z.testbit Flags n), (Z.testbit F n); reflexivity.
Qed.

(** One pass over a handler table whose source flags are single bits
    distributes over the union of two source flag sets. *)
Lemma handlers_fold_lor (hs : list (Z * (bool -> Z -> Z))) :
  Forall (fun it => exists k F, 0 <= k /\ fst it = 2 ^ k
                                /\ snd it = llvmFMF.setFlag F) hs ->
  forall a b r1 r2,
    fold_left (fun ret it => if bitEnumContainsAll (Z.lor a b) (fst it)
                             then snd it true ret else ret)
              hs (Z.lor r1 r2)
    = Z.lor
        (fold_left (fun ret it => if bitEnumContainsAll a (fst it)
                                  then snd it true ret else ret) hs r1)
        (fold_left (fun ret it => if bitEnumContainsAll b (fst it)
                                  then snd it true ret else ret) hs r2).
Proof.
  induction 1 as [|it hs (k & F & Hk & Hbit & Hset) _ IH]; intros a b r1 r2;
    [reflexivity |].
  cbn [fold_left]. rewrite Hbit, Hset, !bitEnumContainsAll_pow2 by done.
  rewrite Z.lor_spec, !setFlag_true.
  destruct (Z.testbit a k), (Z.testbit b k); cbn [orb]; rewrite <- IH; f_equal.
  - apply Z.bits_inj'. intros n _. rewrite !Z.lor_spec.
    destruct (Z.testbit r1 n), (Z.testbit r2 n), (Z.testbit F n); reflexivity.
  - apply Z.bits_inj'. intros n _. rewrite !Z.lor_spec.
    destruct (Z.testbit r1 n), (Z.testbit r2 n), (Z.testbit F n); reflexivity.
  - apply Z.bits_inj'. intros n _. rewrite !Z.lor_spec.
    destruct (Z.testbit r1 n), (Z.testbit r2 n), (Z.testbit F n); reflexivity.
Qed.

Lemma handlers_single_bits :
  Forall (fun it => exists k F, 0 <= k /\ fst it = 2 ^ k
                                /\ snd it = llvmFMF.setFlag F) handlers.
Proof.
  unfold handlers.
  repeat constructor.
  - exists 0, llvmFMF.NoNaNs. repeat split; lia.
  - exists 1, llvmFMF.NoInfs. repeat split; lia.
  - exists 2, llvmFMF.NoSignedZeros. repeat split; lia.
  - exists 3, llvmFMF.AllowReciprocal. repeat split; lia.
  - exists 4, llvmFMF.AllowContract. repeat split; lia.
  - exists 5, llvmFMF.ApproxFunc. repeat split; lia.
  - exists 6, llvmFMF.AllowReassoc. repeat split; lia.
Qed.

(** X2: the flags of a union of two source flag sets are the union of
    the flags of each. *)
Theorem getFastmathFlags_union (a b : Z) :
  getFastmathFlags (Z.lor a b)
    = Z.lor (getFastmathFlags a) (getFastmathFlags b).
Proof.
  unfold getFastmathFlags.
  rewrite <- (handlers_fold_lor handlers handlers_single_bits a b 0 0).
  reflexivity.
Qed.

(** The target flags are read off the seven low bits of the source. *)
Lemma getFastmathFlags_land_127 (x : Z) :
  getFastmathFlags (Z.land x 127) = getFastmathFlags x.
Proof.
  assert (H : forall k, 0 <= k < 7 ->
            bitEnumContainsAll (Z.land x 127) (2 ^ k)
              = bitEnumContainsAll x (2 ^ k)).
  { intros k Hk. rewrite !bitEnumContainsAll_pow2 by lia.
    rewrite Z.land_spec. change 127 with (Z.ones 7).
    rewrite Z.ones_spec_low by lia. apply andb_true_r. }
  cbv [getFastmathFlags handlers fold_left fst snd].
  change FastmathFlags.nnan with (2 ^ 0).
  change FastmathFlags.ninf with (2 ^ 1).
  change FastmathFlags.nsz with (2 ^ 2).
  change FastmathFlags.arcp with (2 ^ 3).
  change FastmathFlags.contract with (2 ^ 4).
  change FastmathFlags.afn with (2 ^ 5).
  change FastmathFlags.reassoc with (2 ^ 6).
  rewrite !H by lia. reflexivity.
Qed.

Lemma getFastmathFlags_injective_below_128 :
  Forall (fun x => Forall (fun y => getFastmathFlags x = getFastmathFlags y
                                    -> x = y) (seqZ 0 128)) (seqZ 0 128).
Proof.
  assert (H : bool_decide
                (Forall (fun x => Forall (fun y =>
                   getFastmathFlags x = getFastmathFlags y -> x = y)
                   (seqZ 0 128)) (seqZ 0 128)) = true)
    by (vm_compute; reflexivity).
  by apply bool_decide_eq_true in H.
Qed.

(** X3: two source flag sets have the same target flags exactly when
    they agree on the seven flags; bits of the source beyond the seven are
    ignored, and distinct subsets of the seven flags give distinct target
    flag sets. *)
Theorem getFastmathFlags_same_flags (x y : Z) :
  getFastmathFlags x = getFastmathFlags y <-> Z.land x 127 = Z.land y 127.
Proof.
  split.
  - intros H.
    rewrite <- (getFastmathFlags_land_127 x), <- (getFastmathFlags_land_127 y)
      in H.
    assert (Hb : forall z, 0 <= Z.land z 127 < 0 + 128).
    { intros z. change 127 with (Z.ones 7). rewrite Z.land_ones by lia.
      apply Z.mod_pos_bound. lia. }
    pose proof getFastmathFlags_injective_below_128 as Hinj.
    rewrite Forall_forall in Hinj.
    specialize (Hinj (Z.land x 127) ltac:(apply elem_of_seqZ; apply Hb)).
    rewrite Forall_forall in Hinj.
    apply (Hinj (Z.land y 127) ltac:(apply elem_of_seqZ; apply Hb) H).
  - intros H.
    rewrite <- (getFastmathFlags_land_127 x), <- (getFastmathFlags_land_127 y).
    by rewrite H.
Qed.

(** The source sets 1 (nnan) and 129 (nnan and a bit that is no flag) have
    the same target flags. *)
Lemma getFastmathFlags_same_flags_witness :
  getFastmathFlags 1 = getFastmathFlags 129.
Proof. apply (proj2 (getFastmathFlags_same_flags 1 129)). reflexivity. Defined.

(** ** Loop options *)

(** X4: [getLoopOptionMetadata] always returns, without touching the
    state, the uniqued node of the name of the option and of a constant:
    for a disabling option the 1-bit constant that is 0 exactly when the
    value is 0, for a count option the 32-bit constant of the value modulo
    2^32.  Nodes of distinct options are distinct; two values of a
    disabling option give the same node exactly when both or neither are
    zero, and two values of a count option exactly when they agree modulo
    2^32. *)
Theorem getLoopOptionMetadata_nodes (option : LoopOptionCase) (value : Z)
    (s : State) :
  getLoopOptionMetadata option value s
    = Ok (MDTuple [MDString (loopOptionName option);
                   ConstantAsMetadata (loopOptionConstant option value)]) s
  /\ (forall option' value' s',
        returned (getLoopOptionMetadata option value s)
          = returned (getLoopOptionMetadata option' value' s') ->
        option = option')
  /\ (forall value',
        option ∈ [disable_licm; disable_unroll; disable_pipeline] ->
        getLoopOptionMetadata option value s
          = getLoopOptionMetadata option value' s
        <-> (value = 0 <-> value' = 0))
  /\ (forall value',
        option ∈ [interleave_count; pipeline_initiation_interval] ->
        getLoopOptionMetadata option value s
          = getLoopOptionMetadata option value' s
        <-> value mod 2 ^ 32 = value' mod 2 ^ 32).
Proof.
  assert (Hnode : forall o v,
            getLoopOptionMetadata o v s
            = Ok (MDTuple [MDString (loopOptionName o);
                           ConstantAsMetadata (loopOptionConstant o v)]) s)
    by (intros [] v; reflexivity).
  repeat apply conj.
  - apply Hnode.
  - intros option' value' s'.
    destruct option, option'; cbn; intros [=]; reflexivity.
  - intros value' H. rewrite !Hnode.
    assert (Hbit : (if value =? 0 then 0 else 1)
                   = (if value' =? 0 then 0 else 1)
                   <-> (value = 0 <-> value' = 0)).
    { destruct (Z.eqb_spec value 0) as [H0 | H0],
               (Z.eqb_spec value' 0) as [H0' | H0'].
      - tauto.
      - split; [discriminate | intros [Hz _]; by apply Hz in H0].
      - split; [discriminate | intros [_ Hz]; by apply Hz in H0'].
      - tauto. }
    rewrite <- Hbit.
    destruct option; cbn [loopOptionConstant];
      try (split; [intros [= ->] | intros ->]; reflexivity).
    all: repeat (apply elem_of_cons in H as [H | H]; [discriminate |]);
      by apply elem_of_nil in H.
  - intros value' H. rewrite !Hnode.
    destruct option; cbn [loopOptionConstant];
      try (split; [intros [= ->] | intros ->]; reflexivity).
    all: repeat (apply elem_of_cons in H as [H | H]; [discriminate |]);
      by apply elem_of_nil in H.
Qed.

(** Disabling the unroller with the values 1 and 7 gives the same node,
    not the node of the value 0; the interleave counts 4 and 2^32 + 4 give
    the same node, not the node of the count 5. *)
Lemma getLoopOptionMetadata_nodes_witness :
  getLoopOptionMetadata disable_unroll 1 Examples.state
    = getLoopOptionMetadata disable_unroll 7 Examples.state
  /\ getLoopOptionMetadata disable_unroll 1 Examples.state
     <> getLoopOptionMetadata disable_unroll 0 Examples.state
  /\ getLoopOptionMetadata interleave_count 4 Examples.state
     = getLoopOptionMetadata interleave_count (2 ^ 32 + 4) Examples.state
  /\ getLoopOptionMetadata interleave_count 4 Examples.state
     <> getLoopOptionMetadata interleave_count 5 Examples.state.
Proof.
  pose proof (getLoopOptionMetadata_nodes disable_unroll 1 Examples.state)
    as (_ & _ & Hbit & _).
  pose proof (getLoopOptionMetadata_nodes interleave_count 4 Examples.state)
    as (_ & _ & _ & Hcount).
  assert (Hd : disable_unroll
               ∈ [disable_licm; disable_unroll; disable_pipeline])
    by apply list_elem_of_further, list_elem_of_here.
  assert (Hc : interleave_count
               ∈ [interleave_count; pipeline_initiation_interval])
    by apply list_elem_of_here.
  repeat apply conj.
  - apply (Hbit 7 Hd). split; discriminate.
  - intros Heq. apply (Hbit 0 Hd) in Heq. destruct Heq as [_ Hz].
    specialize (Hz eq_refl). discriminate.
  - apply (Hcount (2 ^ 32 + 4) Hc). reflexivity.
  - intros Heq. apply (Hcount 5 Hc) in Heq. discriminate.
Defined.

(** ** Loop metadata: what [setLoopMetadata] does and does not do *)

Lemma firstPresent_None (op : Operation) (names : list string) :
  Forall (fun n => getAttr op n = None) names -> firstPresent op names = None.
Proof. induction 1 as [|n names Hn _ IH]; cbn; [done |]. by rewrite Hn. Qed.

(** X5: an operation that carries neither the primary loop attribute nor
    one of the twelve probed attributes gets no loop metadata: nothing is
    looked up, built or attached, whatever else the operation carries --
    the markers [llvm.loop.unroll.enable], [llvm.loop.unroll.full] and
    [llvm.loop.unroll.disable] alone are not enough. *)
Theorem setLoopMetadata_without_loop_attribute (E : Env) (op : Operation)
    (inst : positive) (s : State) :
  getAttr op (getLoopAttrName E) = None ->
  Forall (fun n => getAttr op n = None) legacyLoopAttrNames ->
  setLoopMetadata E op inst s = Ok tt s.
Proof.
  intros Ha Hl. unfold setLoopMetadata.
  rewrite getAltAttr_firstPresent, (firstPresent_None _ _ Hl), Ha.
  reflexivity.
Qed.

(** The branch that carries only [llvm.loop.unroll.full] is left without
    loop metadata. *)
Lemma setLoopMetadata_without_loop_attribute_witness :
  isPresent (getAttr Examples.br_unroll_full "llvm.loop.unroll.full") = true
  /\ setLoopMetadata Examples.env Examples.br_unroll_full 1
       Examples.state_two_branches = Ok tt Examples.state_two_branches.
Proof.
  split; [reflexivity |].
  apply (setLoopMetadata_without_loop_attribute Examples.env
           Examples.br_unroll_full 1%positive Examples.state_two_branches).
  - reflexivity.
  - repeat constructor.
Defined.

(** X6: when the cache key of the operation has an entry, [setLoopMetadata]
    returns with that node attached to the instruction and nothing else
    changed: no address is taken, no node is stored, the cache is as it was,
    and the attributes of the operation are not read, so that it returns
    also when they are malformed. *)
Theorem setLoopMetadata_cached (E : Env) (op : Operation) (inst : positive)
    (key : Attribute) (node : Metadata) (i : Instruction) (s : State) :
  loopCacheKey E op = Some key ->
  loopOptionsMetadataMapping (moduleTranslation s) !! attr_impl key = Some node ->
  instructions (builder s) !! inst = Some i ->
  setLoopMetadata E op inst s
  = Ok tt
      (mkState (moduleTranslation s)
         (mkIRBuilder (FMF (builder s)) (insertBlock (builder s))
            (<[inst := mkInstruction (inst_kind i)
                         (setKind "llvm.loop" node (inst_metadata i))]>
               (instructions (builder s)))
            (mdNodes (builder s)) (nextAddr (builder s)))
         (diagnostics s)).
Proof.
  unfold loopCacheKey, setLoopMetadata. intros Hkey Hc Hi.
  destruct (getAltAttr op) as [alt|].
  - injection Hkey as ->.
    destruct (getAttr op (getLoopAttrName E)) as [attr|];
      cbn [isPresent orb];
      unfold lookupLoopOptionsMetadata, setMetadata, updateInstruction, bind,
        get, nonnull, with_builder; cbn; rewrite Hc; cbn; rewrite Hi;
      reflexivity.
  - rewrite Hkey. cbn [isPresent orb].
    unfold lookupLoopOptionsMetadata, setMetadata, updateInstruction, bind,
      get, nonnull, with_builder. cbn. rewrite Hc. cbn. rewrite Hi.
    reflexivity.
Qed.

(** After a branch with the attribute object [loopName 70] has been
    lowered, a branch with the same object and a trip count of two
    elements gets the cached node; the trip count is never read. *)
Lemma setLoopMetadata_cached_witness :
  let s1 := stateAfter (setLoopMetadata Examples.env Examples.br_nameA 1)
              Examples.state_two_branches in
  exists s2,
    setLoopMetadata Examples.env Examples.br_nameA_short_tripcount 2 s1
      = Ok tt s2
    /\ loopNodeOf s2 2 = Some (MDNodeRef 4)
    /\ nextAddr (builder s2) = nextAddr (builder s1).
Proof.
  intros s1. eexists. split.
  - apply (setLoopMetadata_cached Examples.env
             Examples.br_nameA_short_tripcount 2%positive
             (Examples.loopName 70) (MDNodeRef 4)
             (mkInstruction (BranchInst 101%positive) []) s1).
    + reflexivity.
    + vm_compute. reflexivity.
    + vm_compute. reflexivity.
  - split; vm_compute; reflexivity.
Defined.

(** X7: [setLoopMetadata], when it returns, has emitted no instruction,
    reported nothing, changed no instruction but the one it was given, and
    changed no map of the translation but the cache, where every entry that
    was there is still there; and a node it has built for want of a cache
    entry is a node at an address of its own whose operand 0 is the node
    itself. *)
Theorem setLoopMetadata_footprint (E : Env) (op : Operation) (inst : positive)
    (s s' : State) :
  setLoopMetadata E op inst s = Ok tt s' ->
  loopOptionsMetadataMapping (moduleTranslation s)
    ⊆ loopOptionsMetadataMapping (moduleTranslation s')
  /\ valueMapping (moduleTranslation s') = valueMapping (moduleTranslation s)
  /\ blockMapping (moduleTranslation s') = blockMapping (moduleTranslation s)
  /\ functionMapping (moduleTranslation s')
     = functionMapping (moduleTranslation s)
  /\ globalsMapping (moduleTranslation s')
     = globalsMapping (moduleTranslation s)
  /\ branchMapping (moduleTranslation s') = branchMapping (moduleTranslation s)
  /\ insertBlock (builder s') = insertBlock (builder s)
  /\ diagnostics s' = diagnostics s
  /\ (forall j, j <> inst ->
        instructions (builder s') !! j = instructions (builder s) !! j)
  /\ (forall key,
        loopCacheKey E op = Some key ->
        loopOptionsMetadataMapping (moduleTranslation s) !! attr_impl key
          = None ->
        exists a xs,
          loopNodeOf s' inst = Some (MDNodeRef a)
          /\ (nextAddr (builder s) < a)%positive
          /\ mdNodes (builder s') !! a = Some (MDNodeRef a :: xs)).
Proof.
  intros H.
  pose proof (setLoopMetadata_cache_grows _ _ _ _ _ H) as Hgrow.
  pose proof (setLoopMetadata_branchMapping _ _ _ _ _ H) as Hbr.
  apply setLoopMetadata_spec in H.
  destruct (loopCacheKey E op) as [key|].
  - destruct H as (node & i & Hi & Hi' & Hib & Hd & H).
    assert (Hmaps :
      valueMapping (moduleTranslation s') = valueMapping (moduleTranslation s)
      /\ blockMapping (moduleTranslation s')
         = blockMapping (moduleTranslation s)
      /\ functionMapping (moduleTranslation s')
         = functionMapping (moduleTranslation s)
      /\ globalsMapping (moduleTranslation s')
         = globalsMapping (moduleTranslation s)).
    { destruct (loopOptionsMetadataMapping (moduleTranslation s)
                !! attr_impl key).
      - destruct H as (_ & -> & _). done.
      - destruct H as (a & xs & _ & _ & _ & _ & ->). done. }
    destruct Hmaps as (Hv & Hb & Hfn & Hgl).
    repeat apply conj; try assumption.
    + intros j Hj. rewrite Hi'. by apply lookup_insert_ne.
    + intros key' [= <-] Hnone. rewrite Hnone in H.
      destruct H as (a & xs & -> & Hlo & _ & Hself & _).
      exists a, xs. repeat apply conj; try assumption.
      unfold loopNodeOf. rewrite Hi', lookup_insert_eq. cbn.
      apply getKind_setKind_eq.
  - subst s'. repeat apply conj; try done.
Qed.

(** The branch with the attribute object [loopName 70], lowered first,
    gets a node that is its own operand 0. *)
Lemma setLoopMetadata_footprint_witness :
  let s1 := stateAfter (setLoopMetadata Examples.env Examples.br_nameA 1)
              Examples.state_two_branches in
  insertBlock (builder s1) = [1%positive; 2%positive]
  /\ exists a xs,
       loopNodeOf s1 1 = Some (MDNodeRef a)
       /\ (nextAddr (builder Examples.state_two_branches) < a)%positive
       /\ mdNodes (builder s1) !! a = Some (MDNodeRef a :: xs).
Proof.
  intros s1.
  assert (Hrun : setLoopMetadata Examples.env Examples.br_nameA 1
                   Examples.state_two_branches = Ok tt s1)
    by (vm_compute; reflexivity).
  destruct (setLoopMetadata_footprint Examples.env Examples.br_nameA
              1%positive Examples.state_two_branches s1 Hrun)
    as (_ & _ & _ & _ & _ & _ & Hib & _ & _ & Hnew).
  split; [rewrite Hib; reflexivity |].
  apply (Hnew (Examples.loopName 70)); reflexivity.
Defined.

(** ** Loop metadata: malformed attributes *)

Lemma returned_bind_l {A B} (m : M A) (k : A -> M B) s :
  returned (m s) = None -> returned (bind m k s) = None.
Proof. unfold bind. by destruct (m s). Qed.

Lemma returned_bind_r {A B} (m : M A) (k : A -> M B) s :
  (forall a s1, m s = Ok a s1 -> returned (k a s1) = None) ->
  returned (bind m k s) = None.
Proof. unfold bind. destruct (m s) as [a s1|]; [auto | done]. Qed.

Lemma intOperand_short (loopAttr : list Attribute) (i : nat) type s :
  (length loopAttr <= i)%nat -> returned (intOperand loopAttr i type s) = None.
Proof.
  intros Hlen. unfold intOperand. apply returned_bind_l.
  unfold at_index, nonnull. by rewrite lookup_ge_None_2.
Qed.

(** An attribute with several operands that is not an array, or an array
    of fewer than [n] elements. *)
Lemma short_array_aborts (a : Attribute) (n : nat) (k : list Attribute -> M (list Metadata)) s :
  match attr_value a with
  | ArrayAttr l => (length l < n)%nat
  | _ => True
  end ->
  (forall l s1, (length l < n)%nat -> returned (k l s1) = None) ->
  returned ((loopAttr <- cast_ArrayAttr a ;; k loopAttr) s) = None.
Proof.
  intros Hshort Hk. unfold cast_ArrayAttr.
  destruct (attr_value a); try reflexivity.
  apply returned_bind_r. intros l s1 [= <- <-]. by apply Hk.
Qed.

(** X8: when the cache key of the operation has no entry, so that a node
    has to be built, and [llvm.loop.pipeline.enable] is not an array of at
    least three elements, or [llvm.loop.latency] not one of at least two,
    or [llvm.loop.tripcount] not one of at least three, [setLoopMetadata]
    does not return. *)
Theorem setLoopMetadata_short_array (E : Env) (op : Operation)
    (inst : positive) (a : Attribute) (s : State) :
  (forall key, loopCacheKey E op = Some key ->
     loopOptionsMetadataMapping (moduleTranslation s) !! attr_impl key = None) ->
  (getAttr op "llvm.loop.pipeline.enable" = Some a
   /\ match attr_value a with
      | ArrayAttr l => (length l < 3)%nat
      | _ => True
      end)
  \/ (getAttr op "llvm.loop.latency" = Some a
      /\ match attr_value a with
         | ArrayAttr l => (length l < 2)%nat
         | _ => True
         end)
  \/ (getAttr op "llvm.loop.tripcount" = Some a
      /\ match attr_value a with
         | ArrayAttr l => (length l < 3)%nat
         | _ => True
         end) ->
  returned (setLoopMetadata E op inst s) = None.
Proof.
  intros Hmiss Hbad.
  assert (Hbuild : forall attr t,
            returned (buildLoopOptions E op attr t) = None).
  { intros attr t. unfold buildLoopOptions.
    destruct Hbad as [[Hget Hshort] | [[Hget Hshort] | [Hget Hshort]]].
    - do 14 (apply returned_bind_r; intros ? ? _).
      apply returned_bind_l. rewrite Hget.
      apply (short_array_aborts a 3); [exact Hshort |].
      intros l tl Hl.
      destruct l as [|e0 [|e1 [|e2 l]]]; cbn in Hl; try lia.
      + apply returned_bind_l, intOperand_short. cbn. lia.
      + apply returned_bind_r. intros ? ? _.
        apply returned_bind_l, intOperand_short. cbn. lia.
      + apply returned_bind_r. intros ? ? _.
        apply returned_bind_r. intros ? ? _.
        apply returned_bind_l, intOperand_short. cbn. lia.
    - do 15 (apply returned_bind_r; intros ? ? _).
      apply returned_bind_l. rewrite Hget.
      apply (short_array_aborts a 2); [exact Hshort |].
      intros l tl Hl.
      destruct l as [|e0 [|e1 l]]; cbn in Hl; try lia.
      + apply returned_bind_l, intOperand_short. cbn. lia.
      + apply returned_bind_r. intros ? ? _.
        apply returned_bind_l, intOperand_short. cbn. lia.
    - do 16 (apply returned_bind_r; intros ? ? _).
      rewrite Hget.
      apply (short_array_aborts a 3); [exact Hshort |].
      intros l tl Hl.
      destruct l as [|e0 [|e1 [|e2 l]]]; cbn in Hl; try lia.
      + apply returned_bind_l, intOperand_short. cbn. lia.
      + apply returned_bind_r. intros ? ? _.
        apply returned_bind_l, intOperand_short. cbn. lia.
      + apply returned_bind_r. intros ? ? _.
        apply returned_bind_r. intros ? ? _.
        apply returned_bind_l, intOperand_short. cbn. lia. }
  assert (Halt : exists alt, getAltAttr op = Some alt).
  { rewrite getAltAttr_firstPresent. unfold legacyLoopAttrNames.
    cbn [firstPresent].
    destruct Hbad as [[Hget _] | [[Hget _] | [Hget _]]]; rewrite Hget;
      repeat (match goal with
              | |- context [match getAttr op ?n with _ => _ end] =>
                  destruct (getAttr op n); [by eexists |]
              end);
      by eexists. }
  destruct Halt as [alt Halt].
  unfold setLoopMetadata. unfold loopCacheKey in Hmiss.
  rewrite Halt in Hmiss |- *. specialize (Hmiss alt eq_refl).
  replace (isPresent (getAttr op (getLoopAttrName E)) || isPresent (Some alt))
    with true by (by destruct (getAttr op (getLoopAttrName E))).
  apply returned_bind_r. intros md1 s1 H1.
  assert (s1 = s) as ->.
  { destruct (getAttr op (getLoopAttrName E));
      unfold lookupLoopOptionsMetadata, bind, get, ret in H1; congruence. }
  apply returned_bind_r. intros md2 s2 H2.
  unfold lookupLoopOptionsMetadata, bind, get, ret in H2.
  injection H2 as <- <-. rewrite Hmiss.
  apply returned_bind_l, returned_bind_l, Hbuild.
Qed.

(** A trip count of two elements: the branch is not lowered. *)
Lemma setLoopMetadata_short_array_witness :
  returned (setLoopMetadata Examples.env Examples.br_short_tripcount 1
              Examples.state_two_branches) = None.
Proof.
  apply (setLoopMetadata_short_array Examples.env Examples.br_short_tripcount
           1%positive Examples.shortTripcount Examples.state_two_branches).
  - intros key [= <-]. reflexivity.
  - right. right. split; [reflexivity |]. cbn. lia.
Defined.

(** ** Conditional branches: the weight attribute *)




(** ** Switches: weights and the number of cases *)

Lemma zip_shortest_length {A B} (l : list A) (k : list B) :
  length (zip_shortest l k) = Nat.min (length l) (length k).
Proof.
  revert k. induction l as [|a l IH]; intros [|b k]; cbn; auto.
Qed.

(** X10: a switch is created for as many cases as the operation has case
    destinations and gets as many cases as there are pairs of a case value
    and a case destination: surplus case values, or destinations, are
    dropped.  Its weight attribute, if it has one, becomes the [!prof]
    attachment: all the weights in order, each truncated to 32 bits;
    without the attribute the switch has no attachment. *)
Theorem switch_weights_and_count (E : Env) (op : Operation) (v : Value)
    (value : llvm_Value) (d : Block) (defaultDest : llvm_BasicBlock) (n : N)
    (caseValuesAttr : Attribute) (caseValues : list APInt)
    (blocks : list llvm_BasicBlock) (bw : option Metadata) (s : State) :
  op_operands op !! 0%nat = Some v ->
  valueMapping (moduleTranslation s) !! value_impl v = Some value ->
  op_successors op !! 0%nat = Some d ->
  blockMapping (moduleTranslation s) !! d = Some defaultDest ->
  convertType E (value_type v) = IntegerTy n ->
  getCaseValues op = Some caseValuesAttr ->
  attr_value caseValuesAttr = DenseIntElementsAttr caseValues ->
  Forall2 (fun b lb => blockMapping (moduleTranslation s) !! b = Some lb)
          (getCaseDestinations op) blocks ->
  branchMapping (moduleTranslation s) !! op_impl op = None ->
  (getBranchWeights op = None /\ bw = None)
  \/ (exists a ws,
        getBranchWeights op = Some a
        /\ attr_value a = DenseIntElementsAttr ws
        /\ bw = Some (MDTuple
                        (MDString "branch_weights"
                         :: map (fun w => ConstantAsMetadata
                                            (ConstantInt (IntegerTy 32)
                                               (getLimitedValue w mod 2 ^ 32)))
                                ws))) ->
  exists s' cases,
    convertSwitchOp E op s = Ok success s'
    /\ instructions (builder s') !! nextAddr (builder s)
       = Some (mkInstruction
                 (SwitchInst value defaultDest (length (getCaseDestinations op))
                             cases)
                 (match bw with
                  | Some w => [("prof"%string, w)]
                  | None => []
                  end))
    /\ length cases
       = Nat.min (length caseValues) (length (getCaseDestinations op)).
Proof.
  intros Hv Hvalue Hd Hdefault Hty Hcv Hcvs Hdests Hbr Hw.
  assert (Hweights :
            match getBranchWeights op with
            | Some weights =>
                ws <- cast_DenseIntElementsAttr weights ;;
                let weightValues :=
                  map (fun weight => to_uint32 (getLimitedValue weight)) ws in
                ret (Some (createBranchWeights weightValues))
            | None => ret None
            end s = Ok bw s).
  { destruct Hw as [[-> ->] | (a & ws & -> & Hws & ->)]; [reflexivity |].
    unfold cast_DenseIntElementsAttr, bind. rewrite Hws.
    unfold createBranchWeights, ret. rewrite map_map. reflexivity. }
  set (a := nextAddr (builder s)).
  set (sw0 := mkInstruction
                (SwitchInst value defaultDest (length (getCaseDestinations op)) [])
                (profMetadata bw)).
  set (s1 := mkState (moduleTranslation s)
               (mkIRBuilder (FMF (builder s)) (insertBlock (builder s) ++ [a])
                  (<[a := sw0]> (instructions (builder s)))
                  (mdNodes (builder s)) (Pos.succ a))
               (diagnostics s)).
  destruct (addCase_loop a n caseValues (getCaseDestinations op) blocks s1
              value defaultDest (length (getCaseDestinations op)) []
              (profMetadata bw))
    as (s2 & Hloop & Hi2 & Hmt2 & Hib2 & Hd2).
  { exact Hdests. }
  { subst s1. cbn. apply lookup_insert_eq. }
  assert (Hbr2 : branchMapping (moduleTranslation s2) !! op_impl op = None)
    by (rewrite Hmt2; exact Hbr).
  eexists. eexists. split; [| split].
  - unfold convertSwitchOp.
    step_by (exact Hweights).
    step_by (apply at_index_Ok; exact Hv).
    step_by (apply lookupValue_Ok; exact Hvalue).
    step_by (apply at_index_Ok; exact Hd).
    step_by (apply lookupBlock_Ok; exact Hdefault).
    assert (Hcreate : CreateSwitch value defaultDest
                        (length (getCaseDestinations op)) bw s = Ok a s1)
      by reflexivity.
    step_by (exact Hcreate).
    rewrite Hty. step_by reflexivity.
    rewrite Hcv. step_by reflexivity.
    unfold cast_DenseIntElementsAttr. rewrite Hcvs. step_by reflexivity.
    step_by (exact Hloop).
    step_by (apply mapBranch_Ok; exact Hbr2).
    reflexivity.
  - cbn. exact Hi2.
  - cbn. rewrite length_map, zip_shortest_length.
    by rewrite (Forall2_length _ _ _ Hdests).
Qed.

(** Four case values for three destinations give three cases, and the
    64-bit weight 2^32 + 1 becomes 1. *)
Lemma switch_weights_and_count_witness :
  exists s' cases,
    convertSwitchOp Examples.env Examples.switch_weights Examples.state
      = Ok success s'
    /\ instructions (builder s') !! 1%positive
       = Some (mkInstruction
                 (SwitchInst (ConstantInt (IntegerTy 32) 42) 101%positive 3
                             cases)
                 [("prof"%string,
                   MDTuple
                     [MDString "branch_weights";
                      ConstantAsMetadata (ConstantInt (IntegerTy 32) 10);
                      ConstantAsMetadata (ConstantInt (IntegerTy 32) 1);
                      ConstantAsMetadata (ConstantInt (IntegerTy 32) 30);
                      ConstantAsMetadata (ConstantInt (IntegerTy 32) 40)])])
    /\ length cases = 3%nat.
Proof.
  apply (switch_weights_and_count Examples.env Examples.switch_weights
           Examples.constA (ConstantInt (IntegerTy 32) 42) 1%positive
           101%positive 32%N
           (mkAttribute 91
              (DenseIntElementsAttr (map (mkAPInt 32) [5; 1; 9; 7])))
           (map (mkAPInt 32) [5; 1; 9; 7])
           [102%positive; 103%positive; 104%positive]
           (Some (MDTuple
                    [MDString "branch_weights";
                     ConstantAsMetadata (ConstantInt (IntegerTy 32) 10);
                     ConstantAsMetadata (ConstantInt (IntegerTy 32) 1);
                     ConstantAsMetadata (ConstantInt (IntegerTy 32) 30);
                     ConstantAsMetadata (ConstantInt (IntegerTy 32) 40)]))
           Examples.state).
  - reflexivity.
  - reflexivity.
  - reflexivity.
  - reflexivity.
  - reflexivity.
  - reflexivity.
  - reflexivity.
  - repeat constructor.
  - reflexivity.
  - right.
    exists (mkAttribute 94
              (DenseIntElementsAttr
                 [mkAPInt 32 10; mkAPInt 64 (2 ^ 32 + 1); mkAPInt 32 30;
                  mkAPInt 32 40])),
           [mkAPInt 32 10; mkAPInt 64 (2 ^ 32 + 1); mkAPInt 32 30;
            mkAPInt 32 40].
    repeat split; reflexivity.
Defined.

(** ** Invokes *)

(** X11: lowering an invoke whose callee operands and successors are
    mapped emits an invoke of the callee on the callee operands only, with
    the block of successor 0 as normal and the block of successor 1 as
    unwind destination, and records it as the branch of the operation.
    The result rule is that of calls: a declared result is mapped to the
    invoke and the lowering succeeds; without declared result it succeeds
    exactly when the callee returns void, and on failure the invoke stays
    emitted and recorded. *)
Theorem invoke_lowering (E : Env) (op : Operation) (rt : llvm_Type)
    (ps : list llvm_Type) (va : bool) (vals : list llvm_Value)
    (callee : llvm_Value) (args : list llvm_Value) (succ0 succ1 : Block)
    (b0 b1 : llvm_BasicBlock) (s : State) :
  Forall2 (fun v l => valueMapping (moduleTranslation s) !! value_impl v = Some l)
          (getCalleeOperands op) vals ->
  (exists name fname,
      getAttrOfType_FlatSymbolRefAttr op "callee" = Some name
      /\ functionMapping (moduleTranslation s) !! name
         = Some (Function fname (FunctionTy rt ps va))
      /\ callee = Function fname (FunctionTy rt ps va)
      /\ args = vals)
  \/ (exists front elementType,
        getAttrOfType_FlatSymbolRefAttr op "callee" = None
        /\ getCalleeOperands op !! 0%nat = Some front
        /\ value_type front = LLVMPointerType elementType
        /\ convertType E elementType = FunctionTy rt ps va
        /\ vals = callee :: args) ->
  op_successors op !! 0%nat = Some succ0 ->
  blockMapping (moduleTranslation s) !! succ0 = Some b0 ->
  op_successors op !! 1%nat = Some succ1 ->
  blockMapping (moduleTranslation s) !! succ1 = Some b1 ->
  branchMapping (moduleTranslation s) !! op_impl op = None ->
  (forall r, head (op_results op) = Some r ->
             valueMapping (moduleTranslation s) !! value_impl r = None) ->
  exists s',
    convertInvokeOp E op s
      = Ok (match op_results op with
            | [] => if isVoidTy rt then success else failure
            | _ :: _ => success
            end) s'
    /\ instructions (builder s') !! nextAddr (builder s)
       = Some (mkInstruction
                 (InvokeInst (FunctionTy rt ps va) callee b0 b1 args) [])
    /\ insertBlock (builder s') = insertBlock (builder s) ++ [nextAddr (builder s)]
    /\ branchMapping (moduleTranslation s') !! op_impl op
       = Some (nextAddr (builder s))
    /\ (forall r, head (op_results op) = Some r ->
          valueMapping (moduleTranslation s') !! value_impl r
            = Some (InstructionValue (nextAddr (builder s)) rt))
    /\ diagnostics s' = diagnostics s.
Proof.
  intros Hops Hcallee Hs0 Hb0 Hs1 Hb1 Hbr Hfresh.
  assert (Hinvoke :
    match getAttrOfType_FlatSymbolRefAttr op "callee" with
    | Some attr =>
        f <- lookupFunction attr ;;
        s0 <- at_index (op_successors op) 0 ;;
        b0 <- lookupBlock s0 ;;
        s1 <- at_index (op_successors op) 1 ;;
        b1 <- lookupBlock s1 ;;
        CreateInvokeFn f b0 b1 vals
    | None =>
        front <- at_index (getCalleeOperands op) 0 ;;
        calleeFunctionType <-
          match value_type front with
          | LLVMPointerType elementType =>
              match convertType E elementType with
              | FunctionTy r p v => ret (FunctionTy r p v)
              | _ => abort "cast<FunctionType>"
              end
          | _ => abort "cast<LLVMPointerType>"
          end ;;
        callee <- at_index vals 0 ;;
        s0 <- at_index (op_successors op) 0 ;;
        b0 <- lookupBlock s0 ;;
        s1 <- at_index (op_successors op) 1 ;;
        b1 <- lookupBlock s1 ;;
        CreateInvoke calleeFunctionType callee b0 b1 (drop 1 vals)
    end s
    = (a <- Insert (InvokeInst (FunctionTy rt ps va) callee b0 b1 args) [] ;;
       ret (InstructionValue a rt)) s).
  { destruct Hcallee as [(name & fname & -> & Hf & -> & ->)
                        | (front & elementType & -> & Hfront & Hpt & Hft & ->)].
    - assert (Hl : lookupFunction name s
                   = Ok (Function fname (FunctionTy rt ps va)) s)
        by (unfold lookupFunction, bind, get, nonnull; by rewrite Hf).
      step_by (exact Hl).
      step_by (apply at_index_Ok; exact Hs0).
      step_by (apply lookupBlock_Ok; exact Hb0).
      step_by (apply at_index_Ok; exact Hs1).
      step_by (apply lookupBlock_Ok; exact Hb1).
      reflexivity.
    - step_by (apply at_index_Ok; exact Hfront).
      rewrite Hpt, Hft. step_by reflexivity. step_by reflexivity.
      step_by (apply at_index_Ok; exact Hs0).
      step_by (apply lookupBlock_Ok; exact Hb0).
      step_by (apply at_index_Ok; exact Hs1).
      step_by (apply lookupBlock_Ok; exact Hb1).
      reflexivity. }
  unfold convertInvokeOp.
  step_by (apply lookupValues_Ok; exact Hops).
  unfold bind at 1. rewrite Hinvoke.
  unfold Insert, allocate, with_builder, mapBranch, bind, get, with_mt. cbn.
  rewrite Hbr. cbn. unfold getNumResults.
  destruct (op_results op) as [|r rs] eqn:Hr; cbn.
  - eexists. split; [reflexivity |]. cbn.
    rewrite !lookup_insert_eq.
    repeat apply conj; try reflexivity. discriminate.
  - unfold mapValue, bind, get, with_mt. cbn.
    rewrite (Hfresh r eq_refl). cbn.
    eexists. split; [reflexivity |]. cbn.
    rewrite !lookup_insert_eq.
    repeat apply conj; try reflexivity.
    intros r' [= <-]. apply lookup_insert_eq.
Qed.

(** The invoke of [g] with a declared result succeeds; only [constA] is an
    argument. *)
Lemma invoke_lowering_witness :
  exists s',
    convertInvokeOp Examples.env Examples.invoke_result Examples.state
      = Ok success s'
    /\ instructions (builder s') !! 1%positive
       = Some (mkInstruction
                 (InvokeInst (FunctionTy (IntegerTy 32) [] false)
                    (Function "g" (FunctionTy (IntegerTy 32) [] false))
                    101%positive 102%positive
                    [ConstantInt (IntegerTy 32) 42])
                 [])
    /\ insertBlock (builder s') = [1%positive]
    /\ branchMapping (moduleTranslation s') !! 60%positive = Some 1%positive
    /\ (forall r, head (op_results Examples.invoke_result) = Some r ->
          valueMapping (moduleTranslation s') !! value_impl r
            = Some (InstructionValue 1 (IntegerTy 32)))
    /\ diagnostics s' = [].
Proof.
  apply (invoke_lowering Examples.env Examples.invoke_result (IntegerTy 32) []
           false [ConstantInt (IntegerTy 32) 42]
           (Function "g" (FunctionTy (IntegerTy 32) [] false))
           [ConstantInt (IntegerTy 32) 42] 1%positive 2%positive
           101%positive 102%positive Examples.state).
  - repeat constructor.
  - left. exists "g"%string, "g"%string. repeat split; reflexivity.
  - reflexivity.
  - reflexivity.
  - reflexivity.
  - reflexivity.
  - reflexivity.
  - intros r [= <-]. reflexivity.
Defined.

(** Without declared result the invoke of the [i32] function [g] fails,
    and is emitted and recorded all the same. *)
Example invoke_failure_keeps_instruction :
  let o := convertInvokeOp Examples.env Examples.invoke_no_result
             Examples.state in
  returned o = Some failure
  /\ (s ← finalState o; Some (insertBlock (builder s))) = Some [1%positive]
  /\ (s ← finalState o; branchMapping (moduleTranslation s) !! 61%positive)
     = Some 1%positive.
Proof. vm_compute. repeat split. Qed.

(** ** Inline assembly *)




(** Without result the same element types are the attributes 0 and 1. *)
Example inline_asm_no_result_attributes :
  exists i fty callee args,
    instructions
      (builder (stateAfter (convertInlineAsmOp Examples.env
                              Examples.inline_asm_no_result) Examples.state))
      !! 1%positive = Some i
    /\ inst_kind i
       = CallInst fty callee args [(0%nat, IntegerTy 32); (1%nat, IntegerTy 8)].
Proof. do 4 eexists. split; vm_compute; reflexivity. Qed.

(** ** Addresses of symbols *)

(** X13: the address of a symbol is resolved without emitting anything:
    the result is mapped to the address of the global the name denotes, or
    of the function it denotes, and the builder and the diagnostics are as
    before; when the name denotes neither, the lowering does not return. *)
Theorem addressof_lowering (E : Env) (op : Operation) (name : string)
    (res : Value) (s : State) :
  getAttrOfType_FlatSymbolRefAttr op "global_name" = Some name ->
  op_results op !! 0%nat = Some res ->
  valueMapping (moduleTranslation s) !! value_impl res = None ->
  let mapped addr :=
    Ok success
       (mkState
          (mkModuleTranslation
             (<[value_impl res := addr]> (valueMapping (moduleTranslation s)))
             (blockMapping (moduleTranslation s))
             (branchMapping (moduleTranslation s))
             (functionMapping (moduleTranslation s))
             (globalsMapping (moduleTranslation s))
             (loopOptionsMetadataMapping (moduleTranslation s)))
          (builder s) (diagnostics s)) in
  (forall g addr,
      symbolTable E !! name = Some (GlobalOp g) ->
      globalsMapping (moduleTranslation s) !! g = Some addr ->
      convertAddressOfOp E op s = mapped addr)
  /\ (forall f addr,
        symbolTable E !! name = Some (LLVMFuncOp f) ->
        functionMapping (moduleTranslation s) !! f = Some addr ->
        convertAddressOfOp E op s = mapped addr)
  /\ (symbolTable E !! name = None ->
      returned (convertAddressOfOp E op s) = None).
Proof.
  intros Hname Hres Hfresh mapped. unfold convertAddressOfOp.
  rewrite Hname. repeat apply conj.
  - intros g addr Hsym Hg. step_by reflexivity. rewrite Hsym.
    step_by reflexivity. step_by (apply at_index_Ok; exact Hres).
    unfold lookupGlobal, mapValue, bind, get, nonnull, with_mt. cbn.
    rewrite Hg. cbn. rewrite Hfresh. reflexivity.
  - intros f addr Hsym Hf. step_by reflexivity. rewrite Hsym.
    step_by reflexivity. step_by (apply at_index_Ok; exact Hres).
    unfold lookupFunction, mapValue, bind, get, nonnull, with_mt. cbn.
    rewrite Hf. cbn. rewrite Hfresh. reflexivity.
  - intros Hsym. step_by reflexivity. rewrite Hsym. reflexivity.
Qed.

(** The address of [f] is the function [f]; the address of [nosuch] is not
    resolved. *)
Lemma addressof_lowering_witness :
  (exists s',
      convertAddressOfOp Examples.env Examples.addressof_f Examples.state
        = Ok success s'
      /\ valueMapping (moduleTranslation s') !! 5%positive
         = Some (Function "f" (FunctionTy VoidTy [] false))
      /\ builder s' = builder Examples.state)
  /\ returned (convertAddressOfOp Examples.env Examples.addressof_unknown
                 Examples.state) = None.
Proof.
  split.
  - eexists. split.
    + apply (proj1 (proj2 (addressof_lowering Examples.env Examples.addressof_f
                             "f" Examples.result Examples.state
                             eq_refl eq_refl eq_refl))
               "f"%string (Function "f" (FunctionTy VoidTy [] false)));
        reflexivity.
    + split; reflexivity.
  - apply (proj2 (proj2 (addressof_lowering Examples.env
                           Examples.addressof_unknown "nosuch" Examples.result
                           Examples.state eq_refl eq_refl eq_refl))).
    reflexivity.
Defined.

(** ** The fast-math flag guard *)

(** X14: whenever the lowering of an operation returns, with success or
    with failure, the fast-math flags of the builder are what they were
    before; in between, the body runs with the flags of the operation, if
    it has any, and with the flags of before otherwise. *)
Theorem convertOperation_fast_math_guard (E : Env) (op : Operation)
    (s s' : State) (r : LogicalResult) :
  convertOperation E op s = Ok r s' ->
  FMF (builder s') = FMF (builder s)
  /\ FMF (builder (enterOperation op s))
     = match dyn_cast_FastmathFlagsInterface op with
       | Some fmf => getFastmathFlags fmf
       | None => FMF (builder s)
       end
  /\ exists s1,
       convertOperationBody E op (enterOperation op s) = Ok r s1
       /\ s' = withFastMathFlags (FMF (builder s)) s1.
Proof.
  unfold convertOperation, convertOperationImpl. intros H.
  apply bind_Ok_inv in H as (saved & t0 & H0 & H).
  injection H0 as <- <-.
  apply bind_Ok_inv in H as ([] & t1 & H1 & H).
  assert (t1 = enterOperation op s) as ->.
  { unfold enterOperation.
    destruct (dyn_cast_FastmathFlagsInterface op); by injection H1 as <-. }
  apply bind_Ok_inv in H as (r' & s1 & Hbody & H).
  apply bind_Ok_inv in H as ([] & t2 & H2 & H).
  injection H2 as <-. injection H as <- <-.
  repeat apply conj.
  - reflexivity.
  - unfold enterOperation.
    destruct (dyn_cast_FastmathFlagsInterface op); reflexivity.
  - exists s1. split; [exact Hbody | reflexivity].
Qed.

(** The operation with the flags [nnan] and [reassoc] fails; the flags of
    the builder are 0 before and after, and 3 in between. *)
Lemma convertOperation_fast_math_guard_witness :
  FMF (builder (stateAfter (convertOperation Examples.env Examples.unrecognized)
                  Examples.state)) = 0
  /\ FMF (builder (enterOperation Examples.unrecognized Examples.state)) = 3.
Proof.
  assert (Hrun : convertOperation Examples.env Examples.unrecognized
                   Examples.state
                 = Ok failure
                     (stateAfter (convertOperation Examples.env
                                    Examples.unrecognized) Examples.state))
    by (vm_compute; reflexivity).
  destruct (convertOperation_fast_math_guard _ _ _ _ _ Hrun) as (H1 & H2 & _).
  split; [exact H1 | exact H2].
Defined.

(** ** Calls of overloaded intrinsics *)

(** X15: a call of an overloaded intrinsic whose signature matches is a
    call of the declaration for the type arguments the match gives; the
    result is mapped to the call when the operation has exactly one
    result, and with any other number of results no value is mapped. *)
Theorem overloaded_intrinsic_call (E : Env) (op : Operation) (impl : positive)
    (intrin : string) (vals : list llvm_Value) (tys : list llvm_Type)
    (rt : llvm_Type) (ps : list llvm_Type) (va : bool) (s : State) :
  getAttr op "intrin" = Some (mkAttribute impl (StringAttr intrin)) ->
  let id := lookupIntrinsicID E intrin in
  let ft := FunctionTy
              (match op_results op with
               | [] => VoidTy
               | r :: _ => convertType E (value_type r)
               end)
              (map (fun v => convertType E (value_type v)) (op_operands op))
              false in
  id <> 0%N ->
  isOverloaded E id = true ->
  matchIntrinsicSignature E ft (getIntrinsicInfoTableEntries E id)
    = (MatchIntrinsicTypes_Match, tys) ->
  getIntrinsicType E id tys = FunctionTy rt ps va ->
  Forall2 (fun v l => valueMapping (moduleTranslation s) !! value_impl v = Some l)
          (op_operands op) vals ->
  (forall res, op_results op = [res] ->
               valueMapping (moduleTranslation s) !! value_impl res = None) ->
  exists s',
    convertCallLLVMIntrinsicOp E op s = Ok success s'
    /\ instructions (builder s') !! nextAddr (builder s)
       = Some (mkInstruction
                 (CallInst (FunctionTy rt ps va) (getDeclaration E id tys)
                           vals [])
                 [])
    /\ (forall res, op_results op = [res] ->
          valueMapping (moduleTranslation s')
            = <[value_impl res := InstructionValue (nextAddr (builder s)) rt]>
                (valueMapping (moduleTranslation s)))
    /\ (length (op_results op) <> 1%nat ->
        valueMapping (moduleTranslation s') = valueMapping (moduleTranslation s))
    /\ diagnostics s' = diagnostics s.
Proof.
  intros Hattr id ft Hid Hov Hmatch Hty Hops Hfresh.
  assert (Hname : getIntrinAttr op s = Ok intrin s).
  { unfold getIntrinAttr, bind, nonnull, cast_StringAttr. by rewrite Hattr. }
  assert (Hdecl : getOverloadedDeclaration E op id s
                  = Ok (Some (getDeclaration E id tys)) s).
  { unfold getOverloadedDeclaration, getNumResults, at_index, nonnull.
    assert (Hres : (if Nat.eqb (length (op_results op)) 0 then ret VoidTy
                    else r <- match op_results op !! 0%nat with
                              | Some a => ret a
                              | None => abort "index out of range"
                              end ;;
                         ret (convertType E (value_type r))) s
                   = Ok (match op_results op with
                         | [] => VoidTy
                         | r :: _ => convertType E (value_type r)
                         end) s)
      by (destruct (op_results op); reflexivity).
    step_by (exact Hres). fold ft. rewrite Hmatch. reflexivity. }
  unfold convertCallLLVMIntrinsicOp. step_by (exact Hname). fold id.
  apply N.eqb_neq in Hid. rewrite Hid, Hov.
  step_by (exact Hdecl).
  step_by (apply lookupValues_Ok; exact Hops).
  unfold CreateCallFn, getDeclaration, getFunctionType, CreateCall,
    getReturnType, Insert, allocate, with_builder, bind.
  cbn. rewrite Hty. cbn. unfold getNumResults.
  destruct (op_results op) as [|res [|res' rest]] eqn:Hr; cbn.
  - eexists. split; [reflexivity |]. cbn. rewrite lookup_insert_eq.
    repeat apply conj; try reflexivity. discriminate.
  - unfold mapValue, bind, get, with_mt. cbn.
    rewrite (Hfresh res eq_refl). cbn.
    eexists. split; [reflexivity |]. cbn. rewrite lookup_insert_eq.
    repeat apply conj; try reflexivity.
    + intros res0 [= <-]. reflexivity.
    + intros Hne. contradiction.
  - eexists. split; [reflexivity |]. cbn. rewrite lookup_insert_eq.
    repeat apply conj; try reflexivity. discriminate.
Qed.

(** The call of [llvm.smax] on two [i32] values declares it at [i32]. *)
Lemma overloaded_intrinsic_call_witness :
  exists s',
    convertCallLLVMIntrinsicOp Examples.env Examples.call_smax Examples.state
      = Ok success s'
    /\ instructions (builder s') !! 1%positive
       = Some (mkInstruction
                 (CallInst
                    (FunctionTy (IntegerTy 32) [IntegerTy 32; IntegerTy 32] false)
                    (IntrinsicDeclaration 2 [IntegerTy 32]
                       (FunctionTy (IntegerTy 32) [IntegerTy 32; IntegerTy 32]
                                   false))
                    [ConstantInt (IntegerTy 32) 42;
                     ConstantData (IntegerTy 32) "undef"] [])
                 [])
    /\ valueMapping (moduleTranslation s') !! 5%positive
       = Some (InstructionValue 1 (IntegerTy 32)).
Proof.
  destruct (overloaded_intrinsic_call Examples.env Examples.call_smax
              92%positive "llvm.smax"
              [ConstantInt (IntegerTy 32) 42;
               ConstantData (IntegerTy 32) "undef"]
              [IntegerTy 32] (IntegerTy 32) [IntegerTy 32; IntegerTy 32] false
              Examples.state eq_refl)
    as (s' & Hrun & Hi & Hmap & _).
  - vm_compute. discriminate.
  - reflexivity.
  - reflexivity.
  - reflexivity.
  - repeat constructor.
  - intros res [= <-]. reflexivity.
  - exists s'. split; [exact Hrun |]. split; [exact Hi |].
    rewrite (Hmap Examples.result eq_refl). apply lookup_insert_eq.
Defined.

(** ** Loop metadata: the operands of the extension attributes *)

Lemma outcome_bind {A B} (m : M A) (k : A -> M B) s :
  outcome (bind m k s)
  = match outcome (m s) with
    | Some (a, s1) => outcome (k a s1)
    | None => None
    end.
Proof. unfold bind. by destruct (m s). Qed.

Lemma outcome_Some {A} (o : Outcome A) a s :
  outcome o = Some (a, s) -> o = Ok a s.
Proof. destruct o; cbn; congruence. Qed.

Lemma intOperand_outcome (l : list Attribute) (i : nat) (bits : N) s :
  outcome (intOperand l i (IntegerTy bits) s)
  = match l !! i with
    | Some a =>
        match intConstant bits a with
        | Some c => Some (c, s)
        | None => None
        end
    | None => None
    end.
Proof.
  unfold intOperand, at_index, nonnull, cast_IntegerAttr, intConstant,
    ConstantInt_get, bind, ret, abort.
  destruct (l !! i) as [a|]; [| reflexivity].
  by destruct (attr_value a).
Qed.

Lemma appendsEntries_nil op l : appendsEntries op [] l (ret l).
Proof. intros s. cbn. by rewrite app_nil_r. Qed.

Lemma appendsEntries_cons op name kind entries l
    (m : M (list Metadata)) (k : list Metadata -> M (list Metadata)) :
  appendsEntry op name kind l m ->
  (forall l', appendsEntries op entries l' (k l')) ->
  appendsEntries op ((name, kind) :: entries) l (bind m k).
Proof.
  intros Hm Hk s. rewrite outcome_bind, Hm. cbn [legacyOperands].
  destruct (getAttr op name) as [a|].
  - destruct (entryNode name kind a) as [node|]; [| reflexivity].
    rewrite Hk. destruct (legacyOperands op entries); [| reflexivity].
    by rewrite <- app_assoc.
  - apply Hk.
Qed.

Lemma appendsEntries_last op name kind l (m : M (list Metadata)) :
  appendsEntry op name kind l m ->
  appendsEntries op [(name, kind)] l m.
Proof.
  intros Hm s. rewrite Hm. cbn.
  destruct (getAttr op name) as [a|]; [| by rewrite app_nil_r].
  by destruct (entryNode name kind a).
Qed.

Lemma createIntAttr_entry op bits name l :
  appendsEntry op name (IntEntry bits) l
    (createIntAttr op (IntegerTy bits) name l).
Proof.
  intros s. unfold createIntAttr.
  destruct (getAttr op name) as [a|]; [| reflexivity].
  unfold entryNode, intConstant, cast_IntegerAttr, ConstantInt_get, bind,
    ret, abort.
  by destruct (attr_value a).
Qed.

Lemma createUnitAttr_entry op name l :
  appendsEntry op name MarkerEntry l (createUnitAttr op name l).
Proof.
  intros s. unfold createUnitAttr.
  by destruct (getAttr op name) as [a|].
Qed.


Lemma intConstant_not_temporary bits a c :
  intConstant bits a = Some c -> isTemporary c = false.
Proof. unfold intConstant. destruct (attr_value a); by intros [= <-]. Qed.

Lemma MDNode_get_uniqued (ops : list Metadata) :
  existsb isTemporary ops = false -> MDNode_get ops = ret (MDTuple ops).
Proof. unfold MDNode_get. by intros ->. Qed.

Ltac tuple_entry :=
  intros ?; unfold entryNode;
  match goal with
  | |- context [getAttr ?op ?name] =>
      let a := fresh "a" in
      destruct (getAttr op name) as [a|]; [| reflexivity];
      rewrite outcome_bind; unfold cast_ArrayAttr;
      destruct (attr_value a); try reflexivity
  end;
  cbn [outcome ret tupleOperands]; unfold i32Type, i1Type, i8Type;
  repeat (rewrite outcome_bind, intOperand_outcome;
          match goal with
          | |- context [?arr !! ?i] =>
              destruct (arr !! i); [| reflexivity]
          end;
          match goal with
          | |- context [intConstant ?b ?e] =>
              let Hc := fresh "Hc" in
              destruct (intConstant b e) eqn:Hc;
              [ apply intConstant_not_temporary in Hc | reflexivity ]
          end;
          cbv beta iota);
  rewrite outcome_bind, MDNode_get_uniqued
    by (cbn [existsb isTemporary orb];
        repeat match goal with H : isTemporary _ = false |- _ =>
                 rewrite H; clear H end;
        reflexivity);
  reflexivity.

(** The operands built for a new loop node: those the primary attribute
    gives, then those of the table. *)
Lemma buildLoopOptions_outcome (E : Env) (op : Operation)
    (attr : option Attribute) (l : list Metadata) (s : State) :
  match attr with
  | Some a => pushLoopAttr E op a [MDTemporary (nextAddr (builder s))]
  | None => ret [MDTemporary (nextAddr (builder s))]
  end (stateAfter getTemporary s) = Ok l (stateAfter getTemporary s) ->
  outcome (buildLoopOptions E op attr s)
  = match legacyOperands op legacyEntries with
    | Some rest => Some (l ++ rest, stateAfter getTemporary s)
    | None => None
    end.
Proof.
  intros Hpush.
  unfold buildLoopOptions. rewrite outcome_bind.
  change (outcome (getTemporary s))
    with (Some (MDTemporary (nextAddr (builder s)), stateAfter getTemporary s)).
  cbv beta iota. rewrite outcome_bind, Hpush. cbn [outcome].
  generalize (stateAfter getTemporary s). intros s1. revert s1.
  match goal with
  | |- forall s1, outcome (?m s1) = _ =>
      change (appendsEntries op legacyEntries l m)
  end.
  unfold legacyEntries.
  apply appendsEntries_cons.
  { intros s1. unfold entryNode.
    destruct (getAttr op "llvm.loop.name") as [a|]; [| reflexivity].
    unfold cast_StringAttr, bind, ret, abort.
    by destruct (attr_value a). }
  intros ?.
  do 4 (apply appendsEntries_cons;
        [apply (createIntAttr_entry op 32) | intros ?]).
  do 4 (apply appendsEntries_cons;
        [apply (createIntAttr_entry op 1) | intros ?]).
  do 3 (apply appendsEntries_cons; [apply createUnitAttr_entry | intros ?]).
  apply appendsEntries_cons; [tuple_entry | intros ?].
  apply appendsEntries_cons; [tuple_entry | intros ?].
  apply appendsEntries_last. tuple_entry.
Qed.

Lemma buildLoopOptions_entries (E : Env) (op : Operation) (s : State) :
  outcome (buildLoopOptions E op None s)
  = match legacyOperands op legacyEntries with
    | Some rest =>
        Some (MDTemporary (nextAddr (builder s)) :: rest,
              stateAfter getTemporary s)
    | None => None
    end.
Proof. exact (buildLoopOptions_outcome E op None _ s eq_refl). Qed.

Lemma outcome_None {A} (o : Outcome A) : outcome o = None -> returned o = None.
Proof. by destruct o. Qed.

(** X16: the loop node of an operation that has extension attributes but
    no primary loop attribute, built for want of a cache entry.  Its
    operands, after the self reference, are those of the table
    [legacyEntries], one for each attribute the operation has, in the order
    of the table and whatever the order of the attributes on the
    operation: the name as a string, the widths and counts as 32-bit and
    the flags as 1-bit constants, the unroll markers without value, the
    pipeline attribute as constants of 32, 1 and 8 bits, latency and trip
    count as 32-bit constants.  The node is attached to the instruction
    and cached under the alternate attribute.  If one of the attributes is
    malformed, the function does not return. *)
Theorem loop_node_operands (E : Env) (op : Operation) (inst : positive)
    (key : Attribute) (i : Instruction) (s : State) :
  getAttr op (getLoopAttrName E) = None ->
  getAltAttr op = Some key ->
  loopOptionsMetadataMapping (moduleTranslation s) !! attr_impl key = None ->
  instructions (builder s) !! inst = Some i ->
  match legacyOperands op legacyEntries with
  | Some operands =>
      exists s',
        let a := Pos.succ (nextAddr (builder s)) in
        setLoopMetadata E op inst s = Ok tt s'
        /\ loopNodeOf s' inst = Some (MDNodeRef a)
        /\ mdNodes (builder s') !! a = Some (MDNodeRef a :: operands)
        /\ loopOptionsMetadataMapping (moduleTranslation s') !! attr_impl key
           = Some (MDNodeRef a)
  | None => returned (setLoopMetadata E op inst s) = None
  end.
Proof.
  intros Hattr Halt Hmiss Hinst.
  pose proof (buildLoopOptions_entries E op s) as Hbuild.
  unfold setLoopMetadata. rewrite Hattr, Halt. cbn [isPresent orb].
  step_by reflexivity.
  assert (Hlook : lookupLoopOptionsMetadata key s = Ok None s)
    by (unfold lookupLoopOptionsMetadata, bind, get, ret; by rewrite Hmiss).
  step_by (exact Hlook).
  destruct (legacyOperands op legacyEntries) as [operands|].
  - apply outcome_Some in Hbuild.
    eexists. cbv zeta.
    erewrite bind_Ok; cycle 1.
    { step_by (exact Hbuild).
      unfold MDNode_get. cbn [existsb isTemporary orb].
      unfold bind, allocate, with_builder, replaceOperandWith, get, nonnull,
        mapLoopOptionsMetadata_if, mapLoopOptionsMetadata, with_mt, ret.
      cbn. rewrite lookup_insert_eq. cbn. rewrite Hmiss. reflexivity. }
    unfold setMetadata, updateInstruction, bind, get, nonnull, with_builder.
    cbn. rewrite Hinst. cbn.
    split; [reflexivity |]. unfold loopNodeOf. cbn.
    rewrite !lookup_insert_eq. cbn. rewrite getKind_setKind_eq.
    repeat apply conj; reflexivity.
  - apply outcome_None in Hbuild.
    apply returned_bind_l, returned_bind_l. exact Hbuild.
Qed.

(** The branch whose attributes are given out of order: the operands
    follow the table, and the flag 3 is truncated to one bit. *)
Lemma loop_node_operands_witness :
  exists s',
    setLoopMetadata Examples.env Examples.br_extensions 1
      Examples.state_two_branches = Ok tt s'
    /\ exists a,
         loopNodeOf s' 1 = Some (MDNodeRef a)
         /\ mdNodes (builder s') !! a
            = Some [MDNodeRef a;
                    MDTuple [MDString "llvm.loop.name"; MDString "L"];
                    MDTuple [MDString "llvm.loop.flatten.enable";
                             ConstantAsMetadata (ConstantInt (IntegerTy 1) 1)];
                    MDTuple [MDString "llvm.loop.unroll.full"];
                    MDTuple [MDString "llvm.loop.tripcount";
                             ConstantAsMetadata (ConstantInt (IntegerTy 32) 1);
                             ConstantAsMetadata (ConstantInt (IntegerTy 32) 8);
                             ConstantAsMetadata (ConstantInt (IntegerTy 32) 4)]].
Proof.
  pose proof (loop_node_operands Examples.env Examples.br_extensions
                1%positive (Examples.loopName 78)
                (mkInstruction (BranchInst 101%positive) [])
                Examples.state_two_branches
                eq_refl eq_refl eq_refl eq_refl) as H.
  vm_compute legacyOperands in H.
  destruct H as (s' & Hrun & Hnode & Hops & _).
  exists s'. split; [exact Hrun |]. eexists. split; [exact Hnode | exact Hops].
Defined.

(** ** Loop metadata: the operands of the primary loop attribute *)

Lemma forM_accessGroups (E : Env) (op : Operation) (refs : list Attribute) s :
  outcome (forM (fun r => accessGroupRef <- cast_SymbolRefAttr r ;;
                          ret (getAccessGroup E op accessGroupRef)) refs s)
  = match symbolNames refs with
    | Some names => Some (map (getAccessGroup E op) names, s)
    | None => None
    end.
Proof.
  induction refs as [|r refs IH]; [reflexivity |].
  cbn [forM symbolNames]. rewrite outcome_bind.
  unfold cast_SymbolRefAttr at 1.
  destruct (attr_value r); try reflexivity.
  cbn [bind ret outcome]. rewrite outcome_bind, IH.
  by destruct (symbolNames refs).
Qed.

Lemma forM_getLoopOptionMetadata (options : list (LoopOptionCase * Z)) s :
  exists nodes,
    forM (fun option => getLoopOptionMetadata (fst option) (snd option))
         options s = Ok nodes s
    /\ Forall2 (fun option node =>
                  forall s0,
                    getLoopOptionMetadata (fst option) (snd option) s0
                    = Ok node s0)
               options nodes.
Proof.
  induction options as [|[o v] options (nodes & Hrun & Hall)].
  - exists []. split; [reflexivity | constructor].
  - cbn [forM fst snd].
    assert (Hnode : exists node,
               forall s0, getLoopOptionMetadata o v s0 = Ok node s0)
      by (destruct o; eexists; intros s0; reflexivity).
    destruct Hnode as [node Hnode].
    exists (node :: nodes). split.
    + step_by (apply Hnode). step_by (exact Hrun). reflexivity.
    + constructor; [exact Hnode | exact Hall].
Qed.

Lemma pushLoopAttr_operands (E : Env) (op : Operation) (attr : Attribute)
    (d : list (string * Attribute)) (l : list Metadata) s :
  attr_value attr = DictionaryAttr d ->
  (forall name, isTemporary (getAccessGroup E op name) = false) ->
  match parallelAccesses E op d with
  | Some par =>
      exists nodes,
        pushLoopAttr E op attr l s = Ok (l ++ par ++ nodes) s
        /\ Forall2 (fun option node =>
                      forall s0,
                        getLoopOptionMetadata (fst option) (snd option) s0
                        = Ok node s0)
                   (loopOptionsOf E d) nodes
  | None => outcome (pushLoopAttr E op attr l s) = None
  end.
Proof.
  intros Hd Hgroups. unfold parallelAccesses, loopOptionsOf.
  assert (Hpush : forall B (k : list (string * Attribute) -> M B),
            bind (cast_DictionaryAttr attr) k s = k d s)
    by (intros B k; unfold cast_DictionaryAttr; rewrite Hd; reflexivity).
  unfold pushLoopAttr.
  assert (Hopts : forall l1 s1,
    exists nodes,
      match getNamed d (getLoopOptionsAttrName E) with
      | Some (mkAttribute _ (LoopOptionsAttr options)) =>
          nodes <- forM (fun option =>
                     getLoopOptionMetadata (fst option) (snd option)) options ;;
          ret (l1 ++ nodes)
      | _ => ret l1
      end s1 = Ok (l1 ++ nodes) s1
      /\ Forall2 (fun option node =>
                    forall s0,
                      getLoopOptionMetadata (fst option) (snd option) s0
                      = Ok node s0)
                 match getNamed d (getLoopOptionsAttrName E) with
                 | Some a =>
                     match attr_value a with
                     | LoopOptionsAttr options => options
                     | _ => []
                     end
                 | None => []
                 end nodes).
  { intros l1 s1.
    destruct (getNamed d (getLoopOptionsAttrName E)) as [[impl v]|];
      [destruct v |];
      try (exists []; rewrite app_nil_r; split; [reflexivity | constructor]).
    cbn [attr_value].
    destruct (forM_getLoopOptionMetadata options s1) as (nodes & Hrun & Hall).
    exists nodes. split; [| exact Hall].
    step_by (exact Hrun). reflexivity. }
  destruct (getNamed d (getParallelAccessAttrName E)) as [pa|] eqn:Hpar.
  - assert (Hcast : forall B (k : list Attribute -> M B) refs,
              attr_value pa = ArrayAttr refs ->
              bind (cast_ArrayAttr pa) k s = k refs s)
      by (intros B k refs Hv; unfold cast_ArrayAttr; rewrite Hv; reflexivity).
    destruct (attr_value pa) as [| | | refs | | | | | | |] eqn:Hpa;
      try (rewrite Hpush; cbv beta; rewrite Hpar;
           rewrite outcome_bind, outcome_bind;
           unfold cast_ArrayAttr; rewrite Hpa; reflexivity).
    pose proof (forM_accessGroups E op refs s) as Hrefs.
    destruct (symbolNames refs) as [names|].
    + apply outcome_Some in Hrefs.
      destruct (Hopts (l ++ [MDTuple (MDString "llvm.loop.parallel_accesses"
                                      :: map (getAccessGroup E op) names)]) s)
        as (nodes & Hrun & Hall).
      exists nodes. split; [| exact Hall].
      rewrite Hpush. cbv beta. rewrite Hpar.
      erewrite bind_Ok; cycle 1.
      { rewrite (Hcast _ _ refs eq_refl). step_by (exact Hrefs).
        rewrite MDNode_get_uniqued; [reflexivity |].
        cbn [existsb isTemporary orb].
        clear -Hgroups. induction names as [|n names IH]; [reflexivity |].
        cbn. by rewrite Hgroups, IH. }
      rewrite Hrun. by rewrite <- app_assoc.
    + rewrite Hpush. cbv beta. rewrite Hpar.
      rewrite outcome_bind, (Hcast _ _ refs eq_refl), outcome_bind, Hrefs.
      reflexivity.
  - destruct (Hopts l s) as (nodes & Hrun & Hall).
    exists nodes. split; [| exact Hall].
    rewrite Hpush. cbv beta. rewrite Hpar.
    step_by reflexivity. exact Hrun.
Qed.

(** X17: the loop node of an operation that has the primary loop
    attribute, built for want of a cache entry.  Its operands are, in this
    order: the node itself; the list of the parallel access groups, if the
    dictionary names any; one node for each loop option of the dictionary,
    in the order of the options, each the node [getLoopOptionMetadata]
    gives; then the operands of the extension attributes the operation
    has beside the primary one.  If the entry of the access groups or one
    of the extension attributes is malformed, the function does not
    return. *)
Theorem loop_node_of_loop_attribute (E : Env) (op : Operation)
    (inst : positive) (attr key : Attribute) (d : list (string * Attribute))
    (i : Instruction) (s : State) :
  getAttr op (getLoopAttrName E) = Some attr ->
  attr_value attr = DictionaryAttr d ->
  (forall name, isTemporary (getAccessGroup E op name) = false) ->
  loopCacheKey E op = Some key ->
  loopOptionsMetadataMapping (moduleTranslation s) !! attr_impl key = None ->
  instructions (builder s) !! inst = Some i ->
  match parallelAccesses E op d, legacyOperands op legacyEntries with
  | Some par, Some rest =>
      exists s' nodes,
        let a := Pos.succ (nextAddr (builder s)) in
        setLoopMetadata E op inst s = Ok tt s'
        /\ loopNodeOf s' inst = Some (MDNodeRef a)
        /\ mdNodes (builder s') !! a
           = Some (MDNodeRef a :: par ++ nodes ++ rest)
        /\ Forall2 (fun option node =>
                      forall s0,
                        getLoopOptionMetadata (fst option) (snd option) s0
                        = Ok node s0)
                   (loopOptionsOf E d) nodes
  | _, _ => returned (setLoopMetadata E op inst s) = None
  end.
Proof.
  intros Hattr Hd Hgroups Hkey Hmiss Hinst.
  pose proof (pushLoopAttr_operands E op attr d
                [MDTemporary (nextAddr (builder s))]
                (stateAfter getTemporary s) Hd Hgroups) as Hpush.
  unfold setLoopMetadata. rewrite Hattr. cbn [isPresent orb].
  assert (Hlook : exists md1,
    (loopMD <- lookupLoopOptionsMetadata attr ;;
     match getAltAttr op with
     | Some a => lookupLoopOptionsMetadata a
     | None => ret loopMD
     end) s = Ok None s /\ lookupLoopOptionsMetadata attr s = Ok md1 s).
  { unfold loopCacheKey in Hkey. unfold lookupLoopOptionsMetadata, bind, get, ret.
    eexists. split; [| reflexivity].
    destruct (getAltAttr op) as [alt|].
    - injection Hkey as ->. by rewrite Hmiss.
    - rewrite Hattr in Hkey. injection Hkey as ->. by rewrite Hmiss. }
  destruct Hlook as (md1 & Hlook & Hlook1).
  assert (Hstart : forall B (k : option Metadata -> M B),
    (loopMD <- lookupLoopOptionsMetadata attr ;;
     loopMD <- match getAltAttr op with
               | Some a => lookupLoopOptionsMetadata a
               | None => ret loopMD
               end ;;
     k loopMD) s = k None s).
  { intros B k. step_by (exact Hlook1).
    apply bind_Ok_inv in Hlook as (md & s1 & H1 & H2).
    rewrite Hlook1 in H1. injection H1 as <- <-.
    step_by (exact H2). reflexivity. }
  rewrite Hstart. clear Hstart Hlook Hlook1.
  destruct (parallelAccesses E op d) as [par|].
  - destruct Hpush as (nodes & Hpush & Hall).
    pose proof (buildLoopOptions_outcome E op (Some attr) _ s Hpush) as Hbuild.
    destruct (legacyOperands op legacyEntries) as [rest|].
    + apply outcome_Some in Hbuild.
      set (a := Pos.succ (nextAddr (builder s))).
      assert (Hnode : exists s1,
        (loopOptions <- buildLoopOptions E op (Some attr) ;;
         loopMD <- MDNode_get loopOptions ;;
         replaceOperandWith loopMD 0 loopMD ;;;
         mapLoopOptionsMetadata_if (Some attr) loopMD ;;;
         mapLoopOptionsMetadata_if (getAltAttr op) loopMD ;;;
         ret loopMD) s = Ok (MDNodeRef a) s1
        /\ instructions (builder s1) = instructions (builder s)
        /\ mdNodes (builder s1) !! a
           = Some (MDNodeRef a :: par ++ nodes ++ rest)).
      { step_by (exact Hbuild).
        unfold MDNode_get. cbn [app existsb isTemporary orb].
        step_by (unfold bind, allocate, with_builder, ret; cbn; reflexivity).
        step_by (unfold replaceOperandWith, bind, get, nonnull, with_builder,
                   ret; cbn; rewrite lookup_insert_eq; cbn; reflexivity).
        match goal with
        | |- context [bind (mapLoopOptionsMetadata_if (Some attr) ?n) _ ?st] =>
            destruct (mapLoopOptionsMetadata_if_Ok (Some attr) n st)
              as [mt1 H1]
        end.
        step_by (exact H1).
        match goal with
        | |- context [bind (mapLoopOptionsMetadata_if (getAltAttr op) ?n) _ ?st] =>
            destruct (mapLoopOptionsMetadata_if_Ok (getAltAttr op) n st)
              as [mt2 H2]
        end.
        step_by (exact H2).
        eexists. split; [reflexivity |]. cbn.
        split; [reflexivity |]. rewrite lookup_insert_eq.
        by rewrite <- app_assoc. }
      destruct Hnode as (s1 & Hnode & Hi1 & Hops).
      exists (stateAfter (setMetadata inst "llvm.loop" (MDNodeRef a)) s1), nodes.
      cbv zeta. fold a.
      erewrite bind_Ok by exact Hnode.
      assert (Hset : exists s2,
                setMetadata inst "llvm.loop" (MDNodeRef a) s1 = Ok tt s2
                /\ loopNodeOf s2 inst = Some (MDNodeRef a)
                /\ mdNodes (builder s2) = mdNodes (builder s1)).
      { unfold setMetadata, updateInstruction, bind, get, nonnull,
          with_builder, loopNodeOf.
        rewrite Hi1, Hinst. cbn. eexists. split; [reflexivity |]. cbn.
        rewrite lookup_insert_eq. cbn. by rewrite getKind_setKind_eq. }
      destruct Hset as (s2 & Hset & Hloop & Hmd).
      unfold stateAfter. rewrite Hset.
      repeat apply conj; [reflexivity | exact Hloop | by rewrite Hmd | exact Hall].
    + apply outcome_None in Hbuild.
      destruct (getAltAttr op);
        apply returned_bind_l, returned_bind_l; exact Hbuild.
  - assert (Hbuild : returned (buildLoopOptions E op (Some attr) s) = None).
    { unfold buildLoopOptions. apply returned_bind_r.
      intros dummy s1 [= <- <-].
      apply returned_bind_l, outcome_None. exact Hpush. }
    apply returned_bind_l, returned_bind_l; exact Hbuild.
Qed.

(** The branch with two access groups, two loop options and the marker
    [llvm.loop.unroll.full]: the access groups come first, then the
    options in their order, then the marker. *)
Lemma loop_node_of_loop_attribute_witness :
  exists s',
    setLoopMetadata Examples.env Examples.br_primary_full 1
      Examples.state_two_branches = Ok tt s'
    /\ exists a,
         loopNodeOf s' 1 = Some (MDNodeRef a)
         /\ mdNodes (builder s') !! a
            = Some [MDNodeRef a;
                    MDTuple [MDString "llvm.loop.parallel_accesses";
                             MDTuple [MDString "g1"]; MDTuple [MDString "g2"]];
                    MDTuple [MDString "llvm.loop.interleave.count";
                             ConstantAsMetadata (ConstantInt (IntegerTy 32) 4)];
                    MDTuple [MDString "llvm.licm.disable";
                             ConstantAsMetadata (ConstantInt (IntegerTy 1) 1)];
                    MDTuple [MDString "llvm.loop.unroll.full"]].
Proof.
  pose proof (loop_node_of_loop_attribute Examples.env
                Examples.br_primary_full 1%positive Examples.loopDict_full
                Examples.loopDict_full _
                (mkInstruction (BranchInst 101%positive) [])
                Examples.state_two_branches
                eq_refl eq_refl (fun _ => eq_refl) eq_refl eq_refl eq_refl)
    as H.
  vm_compute parallelAccesses in H. vm_compute legacyOperands in H.
  vm_compute loopOptionsOf in H.
  destruct H as (s' & nodes & Hrun & Hnode & Hops & Hall).
  exists s'. split; [exact Hrun |]. eexists. split; [exact Hnode |].
  rewrite Hops. clear Hrun Hnode Hops.
  inversion Hall as [|o1 n1 os1 ns1 H1 Hall1]; subst.
  inversion Hall1 as [|o2 n2 os2 ns2 H2 Hall2]; subst.
  inversion Hall2; subst.
  specialize (H1 Examples.state). specialize (H2 Examples.state).
  injection H1 as <-. injection H2 as <-. reflexivity.
Defined.
